(** * Task repository and reconciliation engine: a shallow embedding

    This development embeds [src/models/taskModel.ts] (with the types of
    [types/index.ts]) and proves properties of the task store, the batch
    reconciliation, deletion, archive-and-clear and the search.

    Conventions of the embedding.
    - A JavaScript string is a [string]: a sequence of code units below 256.
    - A [Date] is its [getTime()] value, a [Z] (milliseconds).
    - [uuidv4()] and [new Date()] are oracles indexed by the number of calls
      made so far; the two counters are part of the [World].
    - The tasks document is the list of tasks that [readTasks] yields for it
      ([JSON.parse] after [JSON.stringify] is the identity on these records,
      and the dates of stored tasks are present); [None] is a document that
      does not exist yet. The memory directory maps a file name to the tasks
      of that archive document.
    - In a [Partial<Task>] a key that is present carries a value of the
      field's type.
    - I/O is assumed to succeed; the only exception modelled is the
      [TypeError] of a property assignment on [undefined].
    - The scan of the archive documents by an external search command is
      outside the model: the tasks it collects are an argument of the
      search. *)

From Stdlib Require Import ZArith Ascii String DecimalString.
From stdpp Require Import gmap strings list fin_maps.

Local Open Scope string_scope.
Local Open Scope list_scope.

(** ** JavaScript string primitives used by the model *)

Module JS.

(** [s.startsWith(p)] *)
Fixpoint startsWith (p s : string) : bool :=
  match p, s with
  | EmptyString, _ => true
  | String a p', String b s' => bool_decide (a = b) && startsWith p' s'
  | String _ _, EmptyString => false
  end.

(** [s.includes(k)] *)
Fixpoint includes (s k : string) : bool :=
  startsWith k s ||
  match s with
  | EmptyString => false
  | String _ s' => includes s' k
  end.

(** [toLowerCase] on one code unit below 256: A-Z, and the capital letters
    of Latin-1 (U+00C0-U+00DE except the multiplication sign U+00D7). *)
Definition lowerChar (c : ascii) : ascii :=
  let n := nat_of_ascii c in
  if (((65 <=? n) && (n <=? 90)) ||
      ((192 <=? n) && (n <=? 222) && negb (n =? 215)))%nat
  then ascii_of_nat (n + 32) else c.

Fixpoint toLowerCase (s : string) : string :=
  match s with
  | EmptyString => EmptyString
  | String c s' => String (lowerChar c) (toLowerCase s')
  end.

(** The class [\s] on code units below 256: TAB, LF, VT, FF, CR, space and
    the no-break space. *)
Definition isWhitespace (c : ascii) : bool :=
  let n := nat_of_ascii c in
  (((9 <=? n) && (n <=? 13)) || (n =? 32) || (n =? 160))%nat.

(** [s.split(/\s+/).filter((k) => k.length > 0)]: the maximal runs of
    non-whitespace code units. [cur] is the run being read, reversed. *)
Fixpoint splitWhitespace_aux (cur : list ascii) (s : string) : list string :=
  let flush :=
    match cur with
    | [] => []
    | _ => [string_of_list_ascii (rev cur)]
    end in
  match s with
  | EmptyString => flush
  | String c s' =>
      if isWhitespace c then flush ++ splitWhitespace_aux [] s'
      else splitWhitespace_aux (c :: cur) s'
  end.

Definition splitWhitespace (s : string) : list string :=
  splitWhitespace_aux [] s.

Definition isHexDigit (c : ascii) : bool :=
  let n := nat_of_ascii c in
  (((48 <=? n) && (n <=? 57)) || ((97 <=? n) && (n <=? 102)) ||
   ((65 <=? n) && (n <=? 70)))%nat.

(** Reads exactly [n] hexadecimal digits and returns the rest. *)
Fixpoint hexRun (n : nat) (s : string) : option string :=
  match n with
  | 0 => Some s
  | S n' =>
      match s with
      | String c s' => if isHexDigit c then hexRun n' s' else None
      | EmptyString => None
      end
  end.

Definition hyphen (s : string) : option string :=
  match s with
  | String c s' => if bool_decide (c = "-"%char) then Some s' else None
  | EmptyString => None
  end.

(** [/^[0-9a-f]{8}-[0-9a-f]{4}-[0-9a-f]{4}-[0-9a-f]{4}-[0-9a-f]{12}$/i] *)
Definition looksLikeUUID (s : string) : bool :=
  let next (o : option string) (f : string -> option string) :=
    match o with Some r => f r | None => None end in
  let groups :=
    [hexRun 8; hyphen; hexRun 4; hyphen; hexRun 4; hyphen; hexRun 4; hyphen;
     hexRun 12] in
  match foldl next (Some s) groups with
  | Some EmptyString => true
  | _ => false
  end.

(** [s.replace(/:/g, "-")] *)
Fixpoint replaceColons (s : string) : string :=
  match s with
  | EmptyString => EmptyString
  | String c s' =>
      String (if bool_decide (c = ":"%char) then "-"%char else c) (replaceColons s')
  end.

(** Line terminators below 256, which [.] does not match. *)
Definition isLineTerminator (c : ascii) : bool :=
  let n := nat_of_ascii c in ((n =? 10) || (n =? 13))%nat.

Fixpoint dropLine (s : string) : string :=
  match s with
  | EmptyString => EmptyString
  | String c s' => if isLineTerminator c then s else dropLine s'
  end.

(** [s.replace(/\..+/, EMPTY)], with the empty string for [EMPTY]: the first dot that is followed by a character
    other than a line terminator is removed with the rest of its line. *)
Fixpoint dropFraction (s : string) : string :=
  match s with
  | EmptyString => EmptyString
  | String c s' =>
      if bool_decide (c = "."%char) then
        match s' with
        | String d _ =>
            if isLineTerminator d then String c (dropFraction s') else dropLine s'
        | EmptyString => s
        end
      else String c (dropFraction s')
  end.

(** [arr.join(sep)] on strings *)
Fixpoint join (sep : string) (l : list string) : string :=
  match l with
  | [] => EmptyString
  | [x] => x
  | x :: l' => x +:+ sep +:+ join sep l'
  end.

(** A natural number inside a template literal. *)
Definition showNat (n : nat) : string := NilEmpty.string_of_uint (Nat.to_uint n).

(** [arr.slice(start, end)] for integer arguments. *)
Definition slice {A} (l : list A) (start stop : Z) : list A :=
  let len := Z.of_nat (length l) in
  let k := if (start <? 0)%Z then Z.max (len + start) 0 else Z.min start len in
  let final := if (stop <? 0)%Z then Z.max (len + stop) 0 else Z.min stop len in
  take (Z.to_nat (Z.max (final - k) 0)) (drop (Z.to_nat k) l).

(** [Math.ceil(a / b)] for integers with [b <> 0] (the quotient is exact
    in the range of the counts involved). *)
Definition ceilDiv (a b : Z) : Z := (- ((- a) / b))%Z.

End JS.

(** ** Data model ([types/index.ts]) *)

Inductive TaskStatus := PENDING | IN_PROGRESS | COMPLETED | BLOCKED.

Inductive RelatedFileType := TO_MODIFY | REFERENCE | CREATE | DEPENDENCY | OTHER.

Module RelatedFile.
Record t := mk {
  path : string;
  type : RelatedFileType;
  description : option string;
  lineStart : option Z;
  lineEnd : option Z
}.
End RelatedFile.

Module TaskDependency.
Record t := mk { taskId : string }.
End TaskDependency.

Record Task := {
  id : string;
  name : string;
  description : string;
  notes : option string;
  status : TaskStatus;
  dependencies : list TaskDependency.t;
  createdAt : Z;
  updatedAt : Z;
  completedAt : option Z;
  summary : option string;
  relatedFiles : option (list RelatedFile.t);
  analysisResult : option string;
  implementationGuide : option string;
  verificationCriteria : option string
}.

#[global] Instance TaskStatus_eq_dec : EqDecision TaskStatus.
Proof. solve_decision. Defined.
#[global] Instance RelatedFileType_eq_dec : EqDecision RelatedFileType.
Proof. solve_decision. Defined.
#[global] Instance RelatedFile_eq_dec : EqDecision RelatedFile.t.
Proof. solve_decision. Defined.
#[global] Instance TaskDependency_eq_dec : EqDecision TaskDependency.t.
Proof. solve_decision. Defined.
#[global] Instance Task_eq_dec : EqDecision Task.
Proof. solve_decision. Defined.

(** The element type of [taskDataList] in [batchCreateOrUpdateTasks]. *)
Module TaskData.
Record t := mk {
  name : string;
  description : string;
  notes : option string;
  dependencies : option (list string);
  relatedFiles : option (list RelatedFile.t);
  implementationGuide : option string;
  verificationCriteria : option string
}.
End TaskData.

Inductive UpdateMode := append | overwrite | selective | clearAllTasksMode.

#[global] Instance UpdateMode_eq_dec : EqDecision UpdateMode.
Proof. solve_decision. Defined.

(** [Partial<Task>]: a key is present exactly when its field is [Some]. *)
Module TaskUpdates.
Record t := mk {
  id : option string;
  name : option string;
  description : option string;
  notes : option string;
  status : option TaskStatus;
  dependencies : option (list TaskDependency.t);
  createdAt : option Z;
  updatedAt : option Z;
  completedAt : option Z;
  summary : option string;
  relatedFiles : option (list RelatedFile.t);
  analysisResult : option string;
  implementationGuide : option string;
  verificationCriteria : option string
}.

Definition empty : t :=
  mk None None None None None None None None None None None None None None.

(** The key [k] if its field is present. *)
Definition key {A} (o : option A) (k : string) : list string :=
  match o with Some _ => [k] | None => [] end.

(** [Object.keys(updates)] (only the set of keys is used by the callers). *)
Definition keys (u : t) : list string :=
  key (id u) "id" ++ key (name u) "name" ++ key (description u) "description" ++
  key (notes u) "notes" ++ key (status u) "status" ++
  key (dependencies u) "dependencies" ++ key (createdAt u) "createdAt" ++
  key (updatedAt u) "updatedAt" ++ key (completedAt u) "completedAt" ++
  key (summary u) "summary" ++ key (relatedFiles u) "relatedFiles" ++
  key (analysisResult u) "analysisResult" ++
  key (implementationGuide u) "implementationGuide" ++
  key (verificationCriteria u) "verificationCriteria".
End TaskUpdates.

(** The [updates] parameter of [updateTaskContent]. *)
Module ContentUpdates.
Record t := mk {
  name : option string;
  description : option string;
  notes : option string;
  relatedFiles : option (list RelatedFile.t);
  dependencies : option (list string);
  implementationGuide : option string;
  verificationCriteria : option string
}.
End ContentUpdates.

(** Result objects. *)
Module ContentResult.
Record t := mk { success : bool; message : string; task : option Task }.
End ContentResult.

Module DeleteResult.
Record t := mk { success : bool; message : string }.
End DeleteResult.

Module ClearResult.
Record t := mk { success : bool; message : string; backupFile : option string }.
End ClearResult.

Module Pagination.
Record t := mk {
  currentPage : Z;
  totalPages : Z;
  totalResults : Z;
  hasMore : bool
}.
End Pagination.

Module SearchResult.
Record t := mk { tasks : list Task; pagination : Pagination.t }.
End SearchResult.

(** How a call ends: with a value, or with an exception thrown. *)
Inductive Exception := TypeError.

Inductive Completion (A : Type) :=
  | Returned (a : A)
  | Thrown (e : Exception).
Arguments Returned {A} a.
Arguments Thrown {A} e.

(** ** The world: the data directory and the two oracles' counters *)

Record World := {
  tasksFile : option (list Task);          (* DATA_DIR/tasks.json *)
  memoryDir : gmap string (list Task);     (* DATA_DIR/memory/<file name> *)
  uuidCalls : nat;
  dateCalls : nat
}.

(** The live collection as [readTasks] sees it. *)
Definition storedTasks (w : World) : list Task := default [] (tasksFile w).

Definition doubleQuote : string := String (ascii_of_nat 34) EmptyString.

Section Model.

(** [uuidv4 n] is the value of the call number [n] of [uuidv4()], and
    [Date_now n] the time read by the call number [n] of [new Date()]. *)
Variable uuidv4 : nat -> string.
Variable Date_now : nat -> Z.
Variable toISOString : Z -> string.

Definition newDate (w : World) : Z * World :=
  (Date_now (dateCalls w),
   {| tasksFile := tasksFile w; memoryDir := memoryDir w;
      uuidCalls := uuidCalls w; dateCalls := S (dateCalls w) |}).

Definition newUuid (w : World) : string * World :=
  (uuidv4 (uuidCalls w),
   {| tasksFile := tasksFile w; memoryDir := memoryDir w;
      uuidCalls := S (uuidCalls w); dateCalls := dateCalls w |}).

(** ** Store primitives *)

Definition ensureDataDir (w : World) : World :=
  match tasksFile w with
  | Some _ => w
  | None =>
      {| tasksFile := Some []; memoryDir := memoryDir w;
         uuidCalls := uuidCalls w; dateCalls := dateCalls w |}
  end.

Definition readTasks (w : World) : list Task * World :=
  let w := ensureDataDir w in
  (storedTasks w, w).

Definition writeTasks (tasks : list Task) (w : World) : World :=
  let w := ensureDataDir w in
  {| tasksFile := Some tasks; memoryDir := memoryDir w;
     uuidCalls := uuidCalls w; dateCalls := dateCalls w |}.

(** [fs.writeFile(path.join(MEMORY_DIR, fileName), ...)] *)
Definition writeMemoryFile (fileName : string) (tasks : list Task) (w : World)
  : World :=
  {| tasksFile := tasksFile w; memoryDir := <[fileName := tasks]> (memoryDir w);
     uuidCalls := uuidCalls w; dateCalls := dateCalls w |}.

(** [tasks.findIndex(p)] with [tasks[index]]: [None] stands for [-1]. *)
Definition findIndex (P : Task -> Prop) `{!forall t, Decision (P t)}
    (tasks : list Task) : option (nat * Task) :=
  list_find P tasks.

Definition getTaskById (taskId : string) (w : World) : option Task * World :=
  let '(tasks, w) := readTasks w in
  (snd <$> findIndex (fun task => id task = taskId) tasks, w).

(** ** updateTask and its callers *)

(** [{ ...task, ...updates, updatedAt: now }] *)
Definition applyUpdates (task : Task) (updates : TaskUpdates.t) (now : Z) : Task :=
  {| id := default (id task) (TaskUpdates.id updates);
     name := default (name task) (TaskUpdates.name updates);
     description := default (description task) (TaskUpdates.description updates);
     notes := from_option Some (notes task) (TaskUpdates.notes updates);
     status := default (status task) (TaskUpdates.status updates);
     dependencies := default (dependencies task) (TaskUpdates.dependencies updates);
     createdAt := default (createdAt task) (TaskUpdates.createdAt updates);
     updatedAt := now;
     completedAt := from_option Some (completedAt task) (TaskUpdates.completedAt updates);
     summary := from_option Some (summary task) (TaskUpdates.summary updates);
     relatedFiles :=
       from_option Some (relatedFiles task) (TaskUpdates.relatedFiles updates);
     analysisResult :=
       from_option Some (analysisResult task) (TaskUpdates.analysisResult updates);
     implementationGuide :=
       from_option Some (implementationGuide task)
         (TaskUpdates.implementationGuide updates);
     verificationCriteria :=
       from_option Some (verificationCriteria task)
         (TaskUpdates.verificationCriteria updates) |}.

Definition allowedFields : list string := ["summary"; "relatedFiles"].

Definition updateTask (taskId : string) (updates : TaskUpdates.t) (w : World)
  : option Task * World :=
  let '(tasks, w) := readTasks w in
  match findIndex (fun task => id task = taskId) tasks with
  | None => (None, w)
  | Some (taskIndex, task) =>
      let attemptedFields := TaskUpdates.keys updates in
      let disallowedFields :=
        filter (fun field => field ∉ allowedFields) attemptedFields in
      if bool_decide (status task = COMPLETED) &&
         bool_decide (0 < length disallowedFields)
      then (None, w)
      else
        let '(now, w) := newDate w in
        let updated := applyUpdates task updates now in
        let tasks := <[taskIndex := updated]> tasks in
        let w := writeTasks tasks w in
        (Some updated, w)
  end.

Definition updateTaskStatus (taskId : string) (status : TaskStatus) (w : World)
  : option Task * World :=
  if bool_decide (status = COMPLETED) then
    let '(now, w) := newDate w in
    updateTask taskId
      (TaskUpdates.mk None None None None (Some status) None None None (Some now)
         None None None None None) w
  else
    updateTask taskId
      (TaskUpdates.mk None None None None (Some status) None None None None
         None None None None None) w.

Definition updateTaskSummary (taskId : string) (summary : string) (w : World)
  : option Task * World :=
  updateTask taskId
    (TaskUpdates.mk None None None None None None None None None
       (Some summary) None None None None) w.

Definition updateTaskContent (taskId : string) (updates : ContentUpdates.t)
    (w : World) : ContentResult.t * World :=
  let '(found, w) := getTaskById taskId w in
  match found with
  | None => (ContentResult.mk false "Task not found" None, w)
  | Some task =>
      if bool_decide (status task = COMPLETED) then
        (ContentResult.mk false "Cannot update completed task" None, w)
      else
        let updateObj :=
          TaskUpdates.mk None
            (ContentUpdates.name updates)
            (ContentUpdates.description updates)
            (ContentUpdates.notes updates)
            None
            (map TaskDependency.mk <$> ContentUpdates.dependencies updates)
            None None None None
            (ContentUpdates.relatedFiles updates)
            None
            (ContentUpdates.implementationGuide updates)
            (ContentUpdates.verificationCriteria updates) in
        if bool_decide (length (TaskUpdates.keys updateObj) = 0) then
          (ContentResult.mk true "No updates provided" (Some task), w)
        else
          let '(updatedTask, w) := updateTask taskId updateObj w in
          match updatedTask with
          | None => (ContentResult.mk false "Error updating task" None, w)
          | Some updated =>
              (ContentResult.mk true "Task content updated successfully"
                 (Some updated), w)
          end
  end.

(** ** deleteTask *)

Definition dependsOn (taskId : string) (task : Task) : Prop :=
  Exists (fun dep => TaskDependency.taskId dep = taskId) (dependencies task).

#[global] Instance dependsOn_dec taskId task : Decision (dependsOn taskId task).
Proof. unfold dependsOn. apply _. Defined.

Definition describeDependent (task : Task) : string :=
  doubleQuote +:+ name task +:+ doubleQuote +:+ " (ID: " +:+ id task +:+ ")".

Definition deleteTask (taskId : string) (w : World) : DeleteResult.t * World :=
  let '(tasks, w) := readTasks w in
  match findIndex (fun task => id task = taskId) tasks with
  | None => (DeleteResult.mk false "Task not found", w)
  | Some (taskIndex, task) =>
      if bool_decide (status task = COMPLETED) then
        (DeleteResult.mk false "Cannot delete completed task", w)
      else
        (* tasks.filter((_, index) => index !== taskIndex) *)
        let allTasks := delete taskIndex tasks in
        let dependentTasks := filter (dependsOn taskId) allTasks in
        if bool_decide (0 < length dependentTasks) then
          let dependentTaskNames :=
            JS.join ", " (map describeDependent dependentTasks) in
          (DeleteResult.mk false
             ("Cannot delete this task because the following tasks depend on it: "
              +:+ dependentTaskNames), w)
        else
          (* tasks.splice(taskIndex, 1) *)
          let tasks := delete taskIndex tasks in
          let w := writeTasks tasks w in
          (DeleteResult.mk true "Task deleted successfully", w)
  end.

(** ** clearAllTasks *)

Definition clearAllTasks (w : World) : ClearResult.t * World :=
  let w := ensureDataDir w in
  let '(allTasks, w) := readTasks w in
  if bool_decide (length allTasks = 0) then
    (ClearResult.mk true "No tasks to clear" None, w)
  else
    let completedTasks := filter (fun task => status task = COMPLETED) allTasks in
    let '(now, w) := newDate w in
    let timestamp := JS.dropFraction (JS.replaceColons (toISOString now)) in
    let backupFileName := "tasks_memory_" +:+ timestamp +:+ ".json" in
    let w := writeMemoryFile backupFileName completedTasks w in
    let w := writeTasks [] w in
    (ClearResult.mk true
       ("Successfully cleared all tasks, " +:+ JS.showNat (length allTasks) +:+
        " tasks deleted, backed up " +:+ JS.showNat (length completedTasks) +:+
        " completed tasks to memory directory")
       (Some backupFileName), w).

(** ** batchCreateOrUpdateTasks *)

(** The variables of the function body that its first loop changes. *)
Record BatchState := {
  taskNameToIdMap : gmap string string;
  tasksToKeep : list Task;
  newTasks : list Task;
  world : World
}.

(** [tasks.forEach((task) => taskNameToIdMap.set(task.name, task.id))] *)
Definition recordNames (m : gmap string string) (tasks : list Task)
  : gmap string string :=
  foldl (fun m task => <[name task := id task]> m) m tasks.

Definition initialTasksToKeep (updateMode : UpdateMode)
    (existingTasks : list Task) (taskDataList : list TaskData.t) : list Task :=
  match updateMode with
  | append => existingTasks
  | overwrite => filter (fun task => status task = COMPLETED) existingTasks
  | selective =>
      let updateTaskNames : gset string :=
        list_to_set (map TaskData.name taskDataList) in
      filter (fun task => name task ∉ updateTaskNames) existingTasks
  | clearAllTasksMode => []
  end.

Definition initialNameMap (updateMode : UpdateMode)
    (existingTasks tasksToKeep : list Task) : gmap string string :=
  let m :=
    if bool_decide (updateMode = selective) then recordNames ∅ existingTasks
    else ∅ in
  recordNames m tasksToKeep.

(** The object literal [updatedTask], with [relatedFiles] replaced when the
    specification provides them. *)
Definition makeUpdatedTask (taskToUpdate : Task) (taskData : TaskData.t)
    (globalAnalysisResult : option string) (now : Z) : Task :=
  {| id := id taskToUpdate;
     name := TaskData.name taskData;
     description := TaskData.description taskData;
     notes := TaskData.notes taskData;
     status := status taskToUpdate;
     dependencies := dependencies taskToUpdate;
     createdAt := createdAt taskToUpdate;
     updatedAt := now;
     completedAt := completedAt taskToUpdate;
     summary := summary taskToUpdate;
     relatedFiles :=
       match TaskData.relatedFiles taskData with
       | Some files => Some files
       | None => relatedFiles taskToUpdate
       end;
     analysisResult := globalAnalysisResult;
     implementationGuide := TaskData.implementationGuide taskData;
     verificationCriteria := TaskData.verificationCriteria taskData |}.

(** The object literal [newTask]. *)
Definition makeNewTask (newTaskId : string) (taskData : TaskData.t)
    (globalAnalysisResult : option string) (created updated : Z) : Task :=
  {| id := newTaskId;
     name := TaskData.name taskData;
     description := TaskData.description taskData;
     notes := TaskData.notes taskData;
     status := PENDING;
     dependencies := [];
     createdAt := created;
     updatedAt := updated;
     completedAt := None;
     summary := None;
     relatedFiles := TaskData.relatedFiles taskData;
     analysisResult := globalAnalysisResult;
     implementationGuide := TaskData.implementationGuide taskData;
     verificationCriteria := TaskData.verificationCriteria taskData |}.

(** The body of [for (const taskData of taskDataList)]. The guard
    [updateMode === "selective" && taskNameToIdMap.has(taskData.name)] and the
    [get] that follows it are one lookup here. *)
Definition materialize (updateMode : UpdateMode) (existingTasks : list Task)
    (globalAnalysisResult : option string) (st : BatchState)
    (taskData : TaskData.t) : BatchState :=
  let known :=
    if bool_decide (updateMode = selective)
    then taskNameToIdMap st !! TaskData.name taskData
    else None in
  match known with
  | Some existingTaskId =>
      match findIndex (fun task => id task = existingTaskId) existingTasks with
      | Some (existingTaskIndex, taskToUpdate) =>
          if bool_decide (status taskToUpdate ≠ COMPLETED) then
            let '(now, w) := newDate (world st) in
            let updatedTask :=
              makeUpdatedTask taskToUpdate taskData globalAnalysisResult now in
            {| taskNameToIdMap := taskNameToIdMap st;
               tasksToKeep :=
                 filter (fun task => id task ≠ existingTaskId) (tasksToKeep st);
               newTasks := newTasks st ++ [updatedTask];
               world := w |}
          else st
      | None => st
      end
  | None =>
      let '(newTaskId, w) := newUuid (world st) in
      let '(created, w) := newDate w in
      let '(updated, w) := newDate w in
      let newTask :=
        makeNewTask newTaskId taskData globalAnalysisResult created updated in
      {| taskNameToIdMap := <[TaskData.name taskData := newTaskId]> (taskNameToIdMap st);
         tasksToKeep := tasksToKeep st;
         newTasks := newTasks st ++ [newTask];
         world := w |}
  end.

(** One round of [for (const dependencyName of taskData.dependencies)]:
    [None] is [continue]. *)
Definition resolveDependency (nameToId : gmap string string)
    (allTasks : list Task) (dependencyName : string) : option TaskDependency.t :=
  if negb (JS.looksLikeUUID dependencyName) then
    match nameToId !! dependencyName with
    | Some dependencyTaskId => Some (TaskDependency.mk dependencyTaskId)
    | None => None
    end
  else
    let idExists :=
      existsb (fun task => bool_decide (id task = dependencyName)) allTasks in
    if idExists then Some (TaskDependency.mk dependencyName) else None.

Definition withDependencies (task : Task) (deps : list TaskDependency.t) : Task :=
  {| id := id task; name := name task; description := description task;
     notes := notes task; status := status task; dependencies := deps;
     createdAt := createdAt task; updatedAt := updatedAt task;
     completedAt := completedAt task; summary := summary task;
     relatedFiles := relatedFiles task; analysisResult := analysisResult task;
     implementationGuide := implementationGuide task;
     verificationCriteria := verificationCriteria task |}.

(** [for (let i = 0; i < taskDataList.length; i++)], from index [i] on, the
    rest of [taskDataList] being [rest]. [newTasks[i]] is [undefined] beyond
    the end of [newTasks], and assigning its [dependencies] throws. *)
Fixpoint handleDependencies (nameToId : gmap string string) (kept : list Task)
    (rest : list TaskData.t) (i : nat) (newTasks : list Task)
  : Completion (list Task) :=
  match rest with
  | [] => Returned newTasks
  | taskData :: rest' =>
      match TaskData.dependencies taskData with
      | Some ((_ :: _) as deps) =>
          let resolvedDependencies :=
            omap (resolveDependency nameToId (kept ++ newTasks)) deps in
          match newTasks !! i with
          | Some newTask =>
              handleDependencies nameToId kept rest' (S i)
                (<[i := withDependencies newTask resolvedDependencies]> newTasks)
          | None => Thrown TypeError
          end
      | _ => handleDependencies nameToId kept rest' (S i) newTasks
      end
  end.

(** The state after the first loop has run over [taskDataList]. *)
Definition materializeAll (updateMode : UpdateMode) (existingTasks : list Task)
    (globalAnalysisResult : option string) (taskDataList : list TaskData.t)
    (allData : list TaskData.t) (w : World) : BatchState :=
  let kept := initialTasksToKeep updateMode existingTasks allData in
  foldl (materialize updateMode existingTasks globalAnalysisResult)
    {| taskNameToIdMap := initialNameMap updateMode existingTasks kept;
       tasksToKeep := kept; newTasks := []; world := w |}
    taskDataList.

Definition batchCreateOrUpdateTasks (taskDataList : list TaskData.t)
    (updateMode : UpdateMode) (globalAnalysisResult : option string) (w : World)
  : Completion (list Task) * World :=
  let '(existingTasks, w) := readTasks w in
  let st :=
    materializeAll updateMode existingTasks globalAnalysisResult
      taskDataList taskDataList w in
  match handleDependencies (taskNameToIdMap st) (tasksToKeep st) taskDataList 0
          (newTasks st) with
  | Returned newTasks =>
      let allTasks := tasksToKeep st ++ newTasks in
      (Returned newTasks, writeTasks allTasks (world st))
  | Thrown e => (Thrown e, world st)
  end.

(** ** Search *)

(** The predicate of [keywords.every(...)]; an absent optional field makes
    its disjunct falsy. *)
Definition keywordMatches (task : Task) (keyword : string) : bool :=
  let lowerKeyword := JS.toLowerCase keyword in
  let optional (field : option string) :=
    match field with
    | Some text => JS.includes (JS.toLowerCase text) lowerKeyword
    | None => false
    end in
  JS.includes (JS.toLowerCase (name task)) lowerKeyword ||
  JS.includes (JS.toLowerCase (description task)) lowerKeyword ||
  optional (notes task) ||
  optional (implementationGuide task) ||
  optional (summary task).

Definition filterCurrentTasks (tasks : list Task) (query : string) (isId : bool)
  : list Task :=
  if isId then filter (fun task => id task = query) tasks
  else
    let keywords := JS.splitWhitespace query in
    if bool_decide (length keywords = 0) then tasks
    else filter (fun task => forallb (keywordMatches task) keywords = true) tasks.

(** [taskMap.set(key, task)] on a [Map] in insertion order. *)
Fixpoint mapSet (key : string) (task : Task) (m : list (string * Task))
  : list (string * Task) :=
  match m with
  | [] => [(key, task)]
  | (k, v) :: m' =>
      if bool_decide (k = key) then (k, task) :: m' else (k, v) :: mapSet key task m'
  end.

Definition mapHas (key : string) (m : list (string * Task)) : bool :=
  existsb (fun kv => bool_decide (fst kv = key)) m.

(** The merge of the live matches with the archive matches. *)
Definition mergeResults (filteredCurrentTasks memoryTasks : list Task) : list Task :=
  let taskMap := foldl (fun m task => mapSet (id task) task m) [] filteredCurrentTasks in
  let taskMap :=
    foldl (fun m task => if mapHas (id task) m then m else mapSet (id task) task m)
      taskMap memoryTasks in
  map snd taskMap.

(** The comparator given to [allTasks.sort]. *)
Definition compareTasks (a b : Task) : Z :=
  match completedAt a, completedAt b with
  | Some ca, Some cb => cb - ca
  | Some _, None => -1
  | None, Some _ => 1
  | None, None => updatedAt b - updatedAt a
  end.

(** [Array.prototype.sort] is stable; an insertion sort that keeps the order
    of elements comparing equal. *)
Fixpoint sortInsert (task : Task) (sorted : list Task) : list Task :=
  match sorted with
  | [] => [task]
  | other :: sorted' =>
      if (compareTasks other task <? 0)%Z then other :: sortInsert task sorted'
      else task :: sorted
  end.

Definition sortTasks (tasks : list Task) : list Task := foldr sortInsert [] tasks.

(** The part of [searchTasksWithCommand] under [// Handle pagination]. *)
Definition paginate (allTasks : list Task) (page pageSize : Z) : SearchResult.t :=
  let totalResults := Z.of_nat (length allTasks) in
  let totalPages := JS.ceilDiv totalResults pageSize in
  let orOne (n : Z) := if (n =? 0)%Z then 1%Z else n in
  let safePage := Z.max 1 (Z.min page (orOne totalPages)) in
  let startIndex := ((safePage - 1) * pageSize)%Z in
  let endIndex := Z.min (startIndex + pageSize) totalResults in
  let paginatedTasks := JS.slice allTasks startIndex endIndex in
  SearchResult.mk paginatedTasks
    (Pagination.mk safePage (orOne totalPages) totalResults
       (safePage <? totalPages)%Z).

(** The combined, deduplicated and sorted result set. [memoryTasks] is what
    the archive scan collected (the external search command and the parsing
    of the files it names are outside the model). *)
Definition combinedResults (memoryTasks : list Task) (query : string)
    (isId : bool) (currentTasks : list Task) : list Task :=
  let filteredCurrentTasks := filterCurrentTasks currentTasks query isId in
  sortTasks (mergeResults filteredCurrentTasks memoryTasks).

Definition searchTasksWithCommand (memoryTasks : list Task) (query : string)
    (isId : bool) (page pageSize : Z) (w : World) : SearchResult.t * World :=
  let '(currentTasks, w) := readTasks w in
  (paginate (combinedResults memoryTasks query isId currentTasks) page pageSize, w).

End Model.

(** * The rest of the task model *)

(** The result of [canExecuteTask]. *)
Module CanExecute.
Record t := mk { canExecute : bool; blockedBy : option (list string) }.
End CanExecute.

(** [TaskComplexityLevel] *)
Inductive TaskComplexityLevel := LOW | MEDIUM | HIGH | VERY_HIGH.

#[global] Instance TaskComplexityLevel_eq_dec : EqDecision TaskComplexityLevel.
Proof. solve_decision. Defined.

(** [TaskComplexityThresholds] *)
Module TaskComplexityThresholds.
Module DESCRIPTION_LENGTH.
Definition MEDIUM : nat := 500.
Definition HIGH : nat := 1000.
Definition VERY_HIGH : nat := 2000.
End DESCRIPTION_LENGTH.
Module DEPENDENCIES_COUNT.
Definition MEDIUM : nat := 2.
Definition HIGH : nat := 5.
Definition VERY_HIGH : nat := 10.
End DEPENDENCIES_COUNT.
Module NOTES_LENGTH.
Definition MEDIUM : nat := 200.
Definition HIGH : nat := 500.
Definition VERY_HIGH : nat := 1000.
End NOTES_LENGTH.
End TaskComplexityThresholds.

(** The recommendation sentences of [assessTaskComplexity], one constructor
    for each string literal pushed, in the order of the source. *)
Inductive Recommendation :=
  | LowExecuteDirectly | LowSetCriteria
  | MediumPlanSteps | MediumExecuteInPhases | MediumCheckDependencies
  | HighAnalyseFirst | HighBreakDown | HighSetMilestones | HighDependencyGraph
  | VeryHighSplit | VeryHighPlanInDetail | VeryHighAssessRisk
  | VeryHighTestCriteria | VeryHighLongDescription | VeryHighTooManyDependencies.

Module ComplexityMetrics.
Record t := mk {
  descriptionLength : nat;
  dependenciesCount : nat;
  notesLength : nat;
  hasNotes : bool
}.
End ComplexityMetrics.

(** [TaskComplexityAssessment] *)
Module ComplexityAssessment.
Record t := mk {
  level : TaskComplexityLevel;
  metrics : ComplexityMetrics.t;
  recommendations : list Recommendation
}.
End ComplexityAssessment.

(** [UUID_V4_REGEX] of [utils/regex.ts]:
    [/^[0-9a-fA-F]{8}-[0-9a-fA-F]{4}-4[0-9a-fA-F]{3}-[89abAB][0-9a-fA-F]{3}-[0-9a-fA-F]{12}$/] *)
Definition versionDigit (s : string) : option string :=
  match s with
  | String c s' => if bool_decide (c = "4"%char) then Some s' else None
  | EmptyString => None
  end.

Definition variantDigit (s : string) : option string :=
  match s with
  | String c s' =>
      if bool_decide (c ∈ ["8"; "9"; "a"; "b"; "A"; "B"]%char) then Some s' else None
  | EmptyString => None
  end.

Definition UUID_V4_REGEX (s : string) : bool :=
  let next (o : option string) (f : string -> option string) :=
    match o with Some r => f r | None => None end in
  let groups :=
    [JS.hexRun 8; JS.hyphen; JS.hexRun 4; JS.hyphen; versionDigit; JS.hexRun 3;
     JS.hyphen; variantDigit; JS.hexRun 3; JS.hyphen; JS.hexRun 12] in
  match foldl next (Some s) groups with
  | Some EmptyString => true
  | _ => false
  end.

(** ** escapeShellArg and generateSearchCommand *)

(** [/[\x00-\x1F\x7F]/] *)
Definition isControlChar (c : ascii) : bool :=
  let n := nat_of_ascii c in ((n <=? 31) || (n =? 127))%nat.

(** The class of ampersand, semicolon, backquote, dollar, double quote,
    quote, less-than, greater-than and bar. *)
Definition isShellSpecial (c : ascii) : bool :=
  existsb (Nat.eqb (nat_of_ascii c)) [38; 59; 96; 36; 34; 39; 60; 62; 124].

(** [s.replace(/[class]/g, EMPTY)] for a class of single code units. *)
Fixpoint removeChars (class : ascii -> bool) (s : string) : string :=
  match s with
  | EmptyString => EmptyString
  | String c s' =>
      if class c then removeChars class s' else String c (removeChars class s')
  end.

Definition escapeShellArg (arg : string) : string :=
  match arg with
  | EmptyString => EmptyString
  | _ => removeChars isShellSpecial (removeChars isControlChar arg)
  end.



(** ** The archive side of the search *)

(** The filter applied to the tasks of one archive document
    ([filteredTasks]); its keyword test has the body of the one in
    [filterCurrentTasks]. *)
Definition filterMemoryTasks (formattedTasks : list Task) (query : string)
    (isId : bool) : list Task :=
  if isId then filter (fun task => id task = query) formattedTasks
  else
    filter
      (fun task =>
         let keywords := JS.splitWhitespace query in
         (if bool_decide (length keywords = 0) then true
          else forallb (keywordMatches task) keywords) = true)
      formattedTasks.

(** [memoryTasks] after the loop over [sortedFiles]; [documents] are the
    task lists of the files that were read and parsed. *)
Definition collectMemoryTasks (documents : list (list Task)) (query : string)
    (isId : bool) : list Task :=
  foldl (fun memoryTasks tasks => memoryTasks ++ filterMemoryTasks tasks query isId)
    [] documents.

(** [searchTasksWithCommand] with the archive documents that the search
    command selected. *)
Definition searchTasks (documents : list (list Task)) (query : string)
    (isId : bool) (page pageSize : Z) (w : World) : SearchResult.t * World :=
  searchTasksWithCommand (collectMemoryTasks documents query isId) query isId
    page pageSize w.

(** ** The callers in [tools/task] *)

(** What a tool hands to its prompt generator, and its [isError] flag. *)
Module DetailTool.
Inductive t := NotFound | Found (task : Task).
Definition isError (r : t) : bool :=
  match r with NotFound => true | Found _ => false end.
End DetailTool.

Module DeleteTool.
Inductive t :=
  | NotFound
  | Completed (task : Task)
  | Attempted (task : Task) (result : DeleteResult.t).
Definition isError (r : t) : bool :=
  match r with
  | NotFound | Completed _ => true
  | Attempted _ result => negb (DeleteResult.success result)
  end.
End DeleteTool.

Module ClearTool.
Inductive t := NotConfirmed | Empty | Cleared (result : ClearResult.t).
Definition isError (r : t) : bool :=
  match r with
  | NotConfirmed | Empty => false
  | Cleared result => negb (ClearResult.success result)
  end.
End ClearTool.

(** [ephemeral.taskCreationResult] of [splitTasks], with the tasks given to
    its prompt. *)
Module SplitResult.
Record t := mk {
  success : bool;
  message : string;
  backupFilePath : option string;
  createdTasks : list Task;
  allTasks : list Task
}.
End SplitResult.

Module SplitTool.
Inductive t := DuplicateNames | Done (result : SplitResult.t).
End SplitTool.

(** [getTaskDetail] of [tools/task/getTaskDetail.ts] *)
Definition getTaskDetail (documents : list (list Task)) (taskId : string)
    (w : World) : DetailTool.t * World :=
  let '(result, w) := searchTasks documents taskId true 1 1 w in
  match SearchResult.tasks result with
  | [] => (DetailTool.NotFound, w)
  | task :: _ => (DetailTool.Found task, w)
  end.

(** [deleteTask] of [tools/task/deleteTask.ts] *)
Definition deleteTaskTool (taskId : string) (w : World) : DeleteTool.t * World :=
  let '(found, w) := getTaskById taskId w in
  match found with
  | None => (DeleteTool.NotFound, w)
  | Some task =>
      if bool_decide (status task = COMPLETED) then (DeleteTool.Completed task, w)
      else
        let '(result, w) := deleteTask taskId w in
        (DeleteTool.Attempted task result, w)
  end.

Section ModelRest.
Variable uuidv4 : nat -> string.
Variable Date_now : nat -> Z.
Variable toISOString : Z -> string.
(** [error.message] of a caught exception. *)
Variable errorMessage : Exception -> string.

Definition getAllTasks (w : World) : list Task * World := readTasks w.

(** ** createTask *)

Definition createTask (name description : string) (notes : option string)
    (dependencies : list string) (relatedFiles : option (list RelatedFile.t))
    (w : World) : Task * World :=
  let '(tasks, w) := readTasks w in
  let dependencyObjects := map TaskDependency.mk dependencies in
  let '(newId, w) := newUuid uuidv4 w in
  let '(created, w) := newDate Date_now w in
  let '(updated, w) := newDate Date_now w in
  let newTask :=
    {| id := newId; name := name; description := description; notes := notes;
       status := PENDING; dependencies := dependencyObjects;
       createdAt := created; updatedAt := updated; completedAt := None;
       summary := None; relatedFiles := relatedFiles; analysisResult := None;
       implementationGuide := None; verificationCriteria := None |} in
  let tasks := tasks ++ [newTask] in
  (newTask, writeTasks tasks w).

(** ** updateTaskRelatedFiles *)

Definition updateTaskRelatedFiles (taskId : string)
    (relatedFiles : list RelatedFile.t) (w : World) : ContentResult.t * World :=
  let '(found, w) := getTaskById taskId w in
  match found with
  | None => (ContentResult.mk false "Task not found" None, w)
  | Some task =>
      if bool_decide (status task = COMPLETED) then
        (ContentResult.mk false "Cannot update completed task" None, w)
      else
        let '(updatedTask, w) :=
          updateTask Date_now taskId
            (TaskUpdates.mk None None None None None None None None None None
               (Some relatedFiles) None None None) w in
        match updatedTask with
        | None =>
            (ContentResult.mk false "Error updating task related files" None, w)
        | Some updated =>
            (ContentResult.mk true
               ("Successfully updated task related files, total " +:+
                JS.showNat (length relatedFiles) +:+ " files")
               (Some updated), w)
        end
  end.

(** ** canExecuteTask *)

Definition canExecuteTask (taskId : string) (w : World) : CanExecute.t * World :=
  let '(found, w) := getTaskById taskId w in
  match found with
  | None => (CanExecute.mk false None, w)
  | Some task =>
      if bool_decide (status task = COMPLETED) then (CanExecute.mk false None, w)
      else if bool_decide (length (dependencies task) = 0) then
        (CanExecute.mk true None, w)
      else
        let '(allTasks, w) := readTasks w in
        let blockedBy :=
          omap
            (fun dependency =>
               match
                 snd <$> findIndex
                   (fun t => id t = TaskDependency.taskId dependency) allTasks
               with
               | Some dependencyTask =>
                   if bool_decide (status dependencyTask ≠ COMPLETED)
                   then Some (TaskDependency.taskId dependency) else None
               | None => Some (TaskDependency.taskId dependency)
               end)
            (dependencies task) in
        (CanExecute.mk (bool_decide (length blockedBy = 0))
           (if bool_decide (0 < length blockedBy) then Some blockedBy else None),
         w)
  end.

(** ** assessTaskComplexity *)

Definition levelAfter (count : nat) (medium high veryHigh : nat)
    (level : TaskComplexityLevel) : TaskComplexityLevel :=
  if (veryHigh <=? count)%nat then VERY_HIGH
  else if (high <=? count)%nat && bool_decide (level ≠ VERY_HIGH) then HIGH
  else if (medium <=? count)%nat && bool_decide (level ≠ HIGH) &&
          bool_decide (level ≠ VERY_HIGH) then MEDIUM
  else level.

Definition assessTaskComplexity (taskId : string) (w : World)
  : option ComplexityAssessment.t * World :=
  let '(found, w) := getTaskById taskId w in
  match found with
  | None => (None, w)
  | Some task =>
      let descriptionLength := String.length (description task) in
      let dependenciesCount := length (dependencies task) in
      let notesLength :=
        match notes task with
        | Some text => String.length text
        | None => 0
        end in
      let hasNotes :=
        match notes task with
        | Some text => negb (bool_decide (text = EmptyString))
        | None => false
        end in
      let level := LOW in
      let level :=
        if (TaskComplexityThresholds.DESCRIPTION_LENGTH.VERY_HIGH <=? descriptionLength)%nat
        then VERY_HIGH
        else if (TaskComplexityThresholds.DESCRIPTION_LENGTH.HIGH <=? descriptionLength)%nat
        then HIGH
        else if (TaskComplexityThresholds.DESCRIPTION_LENGTH.MEDIUM <=? descriptionLength)%nat
        then MEDIUM
        else level in
      let level :=
        levelAfter dependenciesCount
          TaskComplexityThresholds.DEPENDENCIES_COUNT.MEDIUM
          TaskComplexityThresholds.DEPENDENCIES_COUNT.HIGH
          TaskComplexityThresholds.DEPENDENCIES_COUNT.VERY_HIGH level in
      let level :=
        levelAfter notesLength
          TaskComplexityThresholds.NOTES_LENGTH.MEDIUM
          TaskComplexityThresholds.NOTES_LENGTH.HIGH
          TaskComplexityThresholds.NOTES_LENGTH.VERY_HIGH level in
      let recommendations :=
        match level with
        | LOW => [LowExecuteDirectly; LowSetCriteria]
        | MEDIUM =>
            [MediumPlanSteps; MediumExecuteInPhases] ++
            (if (0 <? dependenciesCount)%nat then [MediumCheckDependencies] else [])
        | HIGH =>
            [HighAnalyseFirst; HighBreakDown; HighSetMilestones] ++
            (if (TaskComplexityThresholds.DEPENDENCIES_COUNT.MEDIUM <? dependenciesCount)%nat
             then [HighDependencyGraph] else [])
        | VERY_HIGH =>
            [VeryHighSplit; VeryHighPlanInDetail; VeryHighAssessRisk;
             VeryHighTestCriteria] ++
            (if (TaskComplexityThresholds.DESCRIPTION_LENGTH.VERY_HIGH <=? descriptionLength)%nat
             then [VeryHighLongDescription] else []) ++
            (if (TaskComplexityThresholds.DEPENDENCIES_COUNT.HIGH <=? dependenciesCount)%nat
             then [VeryHighTooManyDependencies] else [])
        end in
      (Some
         (ComplexityAssessment.mk level
            (ComplexityMetrics.mk descriptionLength dependenciesCount notesLength
               hasNotes)
            recommendations), w)
  end.

(** ** The callers that write *)

(** [clearAllTasks] of [tools/task/clearAllTasks.ts] *)
Definition clearAllTasksTool (confirm : bool) (w : World) : ClearTool.t * World :=
  if negb confirm then (ClearTool.NotConfirmed, w)
  else
    let '(allTasks, w) := getAllTasks w in
    if bool_decide (length allTasks = 0) then (ClearTool.Empty, w)
    else
      let '(result, w) := clearAllTasks Date_now toISOString w in
      (ClearTool.Cleared result, w).

(** [new Set()] filled while the names are scanned. *)
Fixpoint hasDuplicateName (nameSet : gset string) (tasks : list TaskData.t) : bool :=
  match tasks with
  | [] => false
  | task :: tasks' =>
      if bool_decide (TaskData.name task ∈ nameSet) then true
      else hasDuplicateName ({[TaskData.name task]} ∪ nameSet) tasks'
  end.

(** [splitTasks]; [convertedTasks] copies the fields of [tasks]. *)
Definition splitTasks (updateMode : UpdateMode) (tasks : list TaskData.t)
    (globalAnalysisResult : option string) (w : World) : SplitTool.t * World :=
  if hasDuplicateName ∅ tasks then (SplitTool.DuplicateNames, w)
  else
    let convertedTasks := tasks in
    let '(outcome, w) :=
      if bool_decide (updateMode = clearAllTasksMode) then
        let '(clearResult, w) := clearAllTasks Date_now toISOString w in
        if ClearResult.success clearResult then
          let message := ClearResult.message clearResult in
          let backupFile := ClearResult.backupFile clearResult in
          let '(created, w) :=
            batchCreateOrUpdateTasks uuidv4 Date_now convertedTasks append
              globalAnalysisResult w in
          match created with
          | Returned createdTasks =>
              ((true,
                message +:+ String (ascii_of_nat 10) "Successfully created " +:+
                JS.showNat (length createdTasks) +:+ " new tasks.",
                backupFile, createdTasks), w)
          | Thrown error =>
              ((false,
                message +:+ String (ascii_of_nat 10)
                  "Error occurred while creating new tasks: " +:+
                errorMessage error,
                backupFile, []), w)
          end
        else ((false, ClearResult.message clearResult, None, []), w)
      else
        let '(created, w) :=
          batchCreateOrUpdateTasks uuidv4 Date_now convertedTasks updateMode
            globalAnalysisResult w in
        match created with
        | Returned createdTasks =>
            let count := JS.showNat (length createdTasks) in
            let message :=
              match updateMode with
              | append => "Successfully appended " +:+ count +:+ " new tasks."
              | overwrite =>
                  "Successfully cleared incomplete tasks and created " +:+ count +:+
                  " new tasks."
              | selective =>
                  "Successfully selectively updated/created " +:+ count +:+ " tasks."
              | clearAllTasksMode => EmptyString
              end in
            ((true, message, None, createdTasks), w)
        | Thrown error =>
            ((false, "Task creation failed: " +:+ errorMessage error, None, []), w)
        end in
    let '(success, message, backupFile, createdTasks) := outcome in
    let '(allTasks, w) := getAllTasks w in
    (SplitTool.Done (SplitResult.mk success message backupFile createdTasks allTasks),
     w).

End ModelRest.

(** * Vocabulary of the properties *)

(** The first task of [tasks] whose identifier is [taskId] is [task], at
    index [i]. *)
Definition firstWithId (taskId : string) (tasks : list Task) (i : nat)
    (task : Task) : Prop :=
  tasks !! i = Some task /\ id task = taskId /\
  forall j other, tasks !! j = Some other -> j < i -> id other <> taskId.


(** How the message of a refused deletion names a dependent task: its name
    in double quotes, then its identifier. *)
Definition namedWithId (task : Task) : string :=
  doubleQuote +:+ name task +:+ doubleQuote +:+ " (ID: " +:+ id task +:+ ")".

(** The message of a deletion refused because [dependentTasks] depend on the
    task: the dependents are named one after the other, in store order. *)
Definition referencedMessage (dependentTasks : list Task) : string :=
  "Cannot delete this task because the following tasks depend on it: " +:+
  JS.join ", " (map namedWithId dependentTasks).


(** The name of the archive document written at time [now]. *)
Definition archiveName (toISOString : Z -> string) (now : Z) : string :=
  "tasks_memory_" +:+ JS.dropFraction (JS.replaceColons (toISOString now)) +:+ ".json".


(** What the second loop does to [newTasks[i]] for [taskData]: its
    [dependencies] are assigned when the specification lists some. *)
Definition assignDependencies (nameToId : gmap string string)
    (allTasks : list Task) (taskData : TaskData.t) (newTask : Task) : Task :=
  match TaskData.dependencies taskData with
  | Some ((_ :: _) as deps) =>
      withDependencies newTask (omap (resolveDependency nameToId allTasks) deps)
  | _ => newTask
  end.

(** [taskData.dependencies && taskData.dependencies.length > 0] *)
Definition hasDependencies (taskData : TaskData.t) : Prop :=
  match TaskData.dependencies taskData with
  | Some (_ :: _) => True
  | _ => False
  end.


(** The match test in the words of the specification: every
    whitespace-separated token of the query occurs, ignoring case, as a
    substring of one of the searched fields that the task has. *)
Definition occursIn (k s : string) : Prop :=
  exists pre post, s = pre +:+ k +:+ post.

Definition occursIgnoringCase (token field : string) : Prop :=
  occursIn (JS.toLowerCase token) (JS.toLowerCase field).

Definition noWhitespace (l : list ascii) : Prop :=
  Forall (fun c => JS.isWhitespace c = false) l.

Definition endsAtBoundary (pre : list ascii) : Prop :=
  pre = [] \/ exists r c, pre = r ++ [c] /\ JS.isWhitespace c = true.

Definition startsAtBoundary (post : list ascii) : Prop :=
  post = [] \/ exists c r, post = c :: r /\ JS.isWhitespace c = true.

(** [token] is a maximal non-empty run of non-whitespace code units of
    [query]. *)
Definition isTokenOf (query token : list ascii) : Prop :=
  token <> [] /\ noWhitespace token /\
  exists pre post,
    query = pre ++ token ++ post /\ endsAtBoundary pre /\ startsAtBoundary post.

Definition queryToken (query token : string) : Prop :=
  isTokenOf (list_ascii_of_string query) (list_ascii_of_string token).

Definition searchedFields (task : Task) : list string :=
  [name task; description task] ++ option_list (notes task) ++
  option_list (implementationGuide task) ++ option_list (summary task).

Definition matchesEveryToken (task : Task) (query : string) : Prop :=
  forall token, queryToken query token ->
    exists field, field ∈ searchedFields task /\ occursIgnoringCase token field.


Section BatchVocabulary.
Variable uuidv4 : nat -> string.
Variable Date_now : nat -> Z.
Variable updateMode : UpdateMode.
Variable existingTasks : list Task.
Variable globalAnalysisResult : option string.

(** The three ways one round of the first loop can go. *)
Inductive Round (st : BatchState) (taskData : TaskData.t) : BatchState -> Prop :=
  | RoundCreate :
      (updateMode <> selective \/
       taskNameToIdMap st !! TaskData.name taskData = None) ->
      Round st taskData
        {| taskNameToIdMap :=
             <[TaskData.name taskData := uuidv4 (uuidCalls (world st))]>
               (taskNameToIdMap st);
           tasksToKeep := tasksToKeep st;
           newTasks :=
             newTasks st ++
             [makeNewTask (uuidv4 (uuidCalls (world st))) taskData
                globalAnalysisResult (Date_now (dateCalls (world st)))
                (Date_now (S (dateCalls (world st))))];
           world :=
             {| tasksFile := tasksFile (world st);
                memoryDir := memoryDir (world st);
                uuidCalls := S (uuidCalls (world st));
                dateCalls := S (S (dateCalls (world st))) |} |}
  | RoundUpdate existingTaskId i taskToUpdate :
      updateMode = selective ->
      taskNameToIdMap st !! TaskData.name taskData = Some existingTaskId ->
      findIndex (fun task => id task = existingTaskId) existingTasks =
        Some (i, taskToUpdate) ->
      status taskToUpdate <> COMPLETED ->
      Round st taskData
        {| taskNameToIdMap := taskNameToIdMap st;
           tasksToKeep :=
             filter (fun task => id task <> existingTaskId) (tasksToKeep st);
           newTasks :=
             newTasks st ++
             [makeUpdatedTask taskToUpdate taskData globalAnalysisResult
                (Date_now (dateCalls (world st)))];
           world :=
             {| tasksFile := tasksFile (world st);
                memoryDir := memoryDir (world st);
                uuidCalls := uuidCalls (world st);
                dateCalls := S (dateCalls (world st)) |} |}
  | RoundSkip existingTaskId :
      updateMode = selective ->
      taskNameToIdMap st !! TaskData.name taskData = Some existingTaskId ->
      (findIndex (fun task => id task = existingTaskId) existingTasks = None \/
       exists i taskToUpdate,
         findIndex (fun task => id task = existingTaskId) existingTasks =
           Some (i, taskToUpdate) /\
         status taskToUpdate = COMPLETED) ->
      Round st taskData st.

(** The state of the first loop of [batchCreateOrUpdateTasks] once it has
    run over the first [k] specifications of [taskDataList]. *)
Definition stateAfter (taskDataList : list TaskData.t) (w : World) (k : nat)
  : BatchState :=
  materializeAll uuidv4 Date_now updateMode existingTasks globalAnalysisResult
    (take k taskDataList) taskDataList w.

(** The round for the specification at index [k] pushed [task] to
    [newTasks]. *)
Definition materializedBy (taskDataList : list TaskData.t) (w : World) (k : nat)
    (task : Task) : Prop :=
  newTasks (stateAfter taskDataList w (S k)) =
  newTasks (stateAfter taskDataList w k) ++ [task].

(** The round for the specification at index [k] pushed nothing. *)
Definition skippedAt (taskDataList : list TaskData.t) (w : World) (k : nat) : Prop :=
  newTasks (stateAfter taskDataList w (S k)) =
  newTasks (stateAfter taskDataList w k).

(** Every identifier in the name map belongs to a kept or new task, unless
    its name, in selective mode, is that of a specification still to come. *)
Definition namesResolve (st : BatchState) (rest : list TaskData.t) : Prop :=
  forall n v, taskNameToIdMap st !! n = Some v ->
    v ∈ map id (tasksToKeep st ++ newTasks st) \/
    (updateMode = selective /\ n ∈ map TaskData.name rest).

End BatchVocabulary.

(** The last task of the store that bears a name (the only one when the
    names of the store are distinct): in selective mode the name map sends
    the name to the identifier of this task. *)
Definition lastNamed (tasks : list Task) (n : string) : option Task :=
  last (filter (fun task => name task = n) tasks).

(** Every dependency of [task] is the identifier of a task of [tasks]. *)
Definition dependenciesWithin (tasks : list Task) (task : Task) : Prop :=
  forall dep, dep ∈ dependencies task ->
    exists target, target ∈ tasks /\ id target = TaskDependency.taskId dep.

(** * Sample data for the worked examples *)

Definition hexDigit (n : nat) : ascii :=
  ascii_of_nat (if (n <? 10)%nat then 48 + n else 87 + n).

(** A source of version-4-shaped identifiers, distinct for [n < 256]. *)
Definition sampleUuid (n : nat) : string :=
  "00000000-0000-4000-8000-0000000000" +:+
  String (hexDigit (n / 16)) (String (hexDigit (n mod 16)) EmptyString).

Definition sampleClock (n : nat) : Z := (1700000000000 + Z.of_nat n)%Z.

Definition sampleISO (_ : Z) : string := "2025-01-02T03:04:05.678Z".

Definition sampleTask (taskId taskName text : string) (taskStatus : TaskStatus)
    (deps : list string) : Task :=
  {| id := taskId; name := taskName; description := text; notes := None;
     status := taskStatus; dependencies := map TaskDependency.mk deps;
     createdAt := 1600000000000; updatedAt := 1600000000500;
     completedAt :=
       if bool_decide (taskStatus = COMPLETED) then Some 1600000000500%Z else None;
     summary := None; relatedFiles := None; analysisResult := None;
     implementationGuide := None; verificationCriteria := None |}.

Definition sampleSpec (specName : string) (deps : option (list string))
  : TaskData.t :=
  TaskData.mk specName "a description of the work" None deps None None None.

Definition sampleWorld (tasks : list Task) : World :=
  {| tasksFile := Some tasks; memoryDir := ∅; uuidCalls := 0; dateCalls := 0 |}.

Definition idX : string := "11111111-1111-4111-8111-111111111111".
Definition idY : string := "22222222-2222-4222-8222-222222222222".
Definition idZ : string := "33333333-3333-4333-8333-333333333333".

Definition doneX : Task := sampleTask idX "X" "finished work" COMPLETED [idY].
Definition openX : Task := sampleTask idX "X" "work in progress" IN_PROGRESS [].
Definition staleX : Task := sampleTask idX "X" "an old description" IN_PROGRESS [].
Definition openY : Task := sampleTask idY "Y" "pending work" PENDING [].
Definition openZ : Task := sampleTask idZ "Z" "more pending work" PENDING [idY; idX].
Definition needsY : Task := sampleTask idX "X" "work that needs Y" PENDING [idY].
Definition doneTwinX : Task := sampleTask idZ "X" "finished earlier" COMPLETED [].

(** Twelve tasks that all mention "login". *)
Definition twelveTasks : list Task :=
  map (fun n => sampleTask (sampleUuid n) "login page" "fix the login form" PENDING [])
    (seq 0 12).

Definition loginBug : Task :=
  sampleTask idX "Crash" "Bug: the LOGIN form crashes" PENDING [].
Definition loginOnly : Task :=
  sampleTask idY "Styling" "restyle the login form" PENDING [].

(** ** Vocabulary for the single-task operations *)

(** [task'] is [task] but for its summary and its update time. *)
Definition sameButSummary (task task' : Task) : Prop :=
  exists text time,
    task' =
    {| id := id task; name := name task; description := description task;
       notes := notes task; status := status task;
       dependencies := dependencies task; createdAt := createdAt task;
       updatedAt := time; completedAt := completedAt task;
       summary := text; relatedFiles := relatedFiles task;
       analysisResult := analysisResult task;
       implementationGuide := implementationGuide task;
       verificationCriteria := verificationCriteria task |}.

(** A call of one of the functions of the model that change one task. *)
Inductive Mutation :=
  | CreateTask (name description : string) (notes : option string)
      (dependencies : list string) (relatedFiles : option (list RelatedFile.t))
  | UpdateTaskStatus (taskId : string) (status : TaskStatus)
  | UpdateTaskSummary (taskId summary : string)
  | UpdateTaskContent (taskId : string) (updates : ContentUpdates.t)
  | UpdateTaskRelatedFiles (taskId : string) (relatedFiles : list RelatedFile.t)
  | DeleteTask (taskId : string).

(** The world after the call. *)
Definition mutate (uuidv4 : nat -> string) (Date_now : nat -> Z) (w : World)
    (m : Mutation) : World :=
  match m with
  | CreateTask name description notes dependencies relatedFiles =>
      (createTask uuidv4 Date_now name description notes dependencies relatedFiles w).2
  | UpdateTaskStatus taskId status => (updateTaskStatus Date_now taskId status w).2
  | UpdateTaskSummary taskId summary => (updateTaskSummary Date_now taskId summary w).2
  | UpdateTaskContent taskId updates => (updateTaskContent Date_now taskId updates w).2
  | UpdateTaskRelatedFiles taskId relatedFiles =>
      (updateTaskRelatedFiles Date_now taskId relatedFiles w).2
  | DeleteTask taskId => (deleteTask taskId w).2
  end.

(** ** Vocabulary for [canExecuteTask] and [assessTaskComplexity] *)

(** The task found first for the identifier of [dep] is COMPLETED. *)
Definition dependencyCompleted (tasks : list Task) (dep : TaskDependency.t) : Prop :=
  exists i task,
    firstWithId (TaskDependency.taskId dep) tasks i task /\ status task = COMPLETED.

(** The levels in increasing order. *)
Definition levelRank (level : TaskComplexityLevel) : nat :=
  match level with LOW => 0 | MEDIUM => 1 | HIGH => 2 | VERY_HIGH => 3 end.

(** How many of the three thresholds a count reaches. *)
Definition thresholdsReached (count medium high veryHigh : nat) : nat :=
  length (filter (fun threshold => threshold <= count) [medium; high; veryHigh]).

(** ** Vocabulary for the search command *)

(** The code units that [escapeShellArg] removes as special for a shell. *)
Definition shellSpecialChars : list ascii :=
  ["&"; ";"; "`"; "$"; ascii_of_nat 34; "'"; "<"; ">"; "|"]%char.

(** The C0 control codes and DEL. *)
Definition isControl (c : ascii) : Prop :=
  nat_of_ascii c <= 31 \/ nat_of_ascii c = 127.

Definition shellSafe (c : ascii) : Prop :=
  ~ isControl c /\ c ∉ shellSpecialChars.

#[global] Instance shellSafe_dec (c : ascii) : Decision (shellSafe c).
Proof. unfold shellSafe, isControl. apply _. Defined.


(** ** Vocabulary for the search results *)

(** The order of the results: completed tasks first, the one completed last
    ahead; then the others, the one updated last ahead. *)
Definition notAfter (a b : Task) : Prop :=
  match completedAt a, completedAt b with
  | Some completedA, Some completedB => (completedB <= completedA)%Z
  | Some _, None => True
  | None, Some _ => False
  | None, None => (updatedAt b <= updatedAt a)%Z
  end.

(** Every task of the list is not after the tasks that follow it. *)
Fixpoint inResultOrder (tasks : list Task) : Prop :=
  match tasks with
  | [] => True
  | task :: tasks' => Forall (notAfter task) tasks' /\ inResultOrder tasks'
  end.

(** What a search has to find in a task. *)
Definition answers (query : string) (isId : bool) (task : Task) : Prop :=
  if isId then id task = query else matchesEveryToken task query.

(** ** More sample data *)

Definition selfX : Task := sampleTask idX "X" "work that waits for itself" PENDING [idX].

Definition sampleErrorMessage (_ : Exception) : string :=
  "Cannot set properties of undefined".

(** A source of identifiers that never repeats: the call number in
    tally marks. *)
Fixpoint tally (n : nat) : string :=
  match n with
  | 0 => EmptyString
  | S n' => String "I" (tally n')
  end.

Definition countingUuid (n : nat) : string := String "#" (tally n).


(** * Properties *)

(** ** The store *)

Lemma ensureDataDir_existing w tasks :
  tasksFile w = Some tasks -> ensureDataDir w = w.
Proof. intros H. unfold ensureDataDir. by rewrite H. Qed.

Lemma ensureDataDir_stored w : storedTasks (ensureDataDir w) = storedTasks w.
Proof.
  unfold ensureDataDir, storedTasks.
  destruct (tasksFile w) eqn:E; simpl; by rewrite ?E.
Qed.

Lemma ensureDataDir_memoryDir w : memoryDir (ensureDataDir w) = memoryDir w.
Proof. unfold ensureDataDir. by destruct (tasksFile w). Qed.

Lemma ensureDataDir_idemp w : ensureDataDir (ensureDataDir w) = ensureDataDir w.
Proof.
  unfold ensureDataDir.
  destruct (tasksFile w) eqn:E; simpl; by rewrite ?E.
Qed.

Lemma stored_nonempty_existing w task tasks :
  storedTasks w = task :: tasks -> ensureDataDir w = w.
Proof.
  unfold storedTasks. destruct (tasksFile w) as [l|] eqn:E; [|done].
  intros _. exact (ensureDataDir_existing _ _ E).
Qed.

Lemma storedTasks_writeTasks tasks w : storedTasks (writeTasks tasks w) = tasks.
Proof. reflexivity. Qed.

Lemma memoryDir_writeTasks tasks w : memoryDir (writeTasks tasks w) = memoryDir w.
Proof. unfold writeTasks. simpl. apply ensureDataDir_memoryDir. Qed.

Lemma findIndex_first taskId tasks i task :
  firstWithId taskId tasks i task ->
  findIndex (fun t => id t = taskId) tasks = Some (i, task).
Proof.
  intros (Hi & Hid & Hfirst). unfold findIndex.
  apply list_find_Some. eauto.
Qed.

(** In a store of distinct identifiers every task is the first of its
    identifier. *)
Lemma firstWithId_distinct (tasks : list Task) (task : Task) :
  task ∈ tasks -> NoDup (map id tasks) ->
  exists i, firstWithId (id task) tasks i task.
Proof.
  intros Hin Hnodup. apply list_elem_of_lookup in Hin as [i Hi].
  exists i. split_and!; [done|done|].
  intros j other Hj Hlt Hid.
  assert (map id tasks !! j = Some (id other)) as Hj'
    by (change (map id tasks) with (id <$> tasks); by rewrite list_lookup_fmap, Hj).
  assert (map id tasks !! i = Some (id other)) as Hi'
    by (change (map id tasks) with (id <$> tasks);
        by rewrite list_lookup_fmap, Hi, Hid).
  pose proof (NoDup_lookup _ _ _ _ Hnodup Hj' Hi'). lia.
Qed.

Lemma findIndex_absent taskId tasks :
  (forall task, task ∈ tasks -> id task <> taskId) ->
  findIndex (fun t => id t = taskId) tasks = None.
Proof.
  intros H. unfold findIndex. apply list_find_None.
  apply Forall_forall. exact H.
Qed.

(** ** updateTask on a completed task *)

Lemma readTasks_eq w : readTasks w = (storedTasks w, ensureDataDir w).
Proof. unfold readTasks. by rewrite ensureDataDir_stored. Qed.

Lemma elem_of_key {A} (o : option A) (k field : string) :
  field ∈ TaskUpdates.key o k <-> is_Some o /\ field = k.
Proof.
  destruct o; simpl.
  - rewrite list_elem_of_singleton. split; [eauto|tauto].
  - split; [by intros ?%elem_of_nil|by intros [[? [=]] _]].
Qed.

Lemma elem_of_keys (u : TaskUpdates.t) (field : string) :
  field ∈ TaskUpdates.keys u <->
    is_Some (TaskUpdates.id u) /\ field = "id" \/
    is_Some (TaskUpdates.name u) /\ field = "name" \/
    is_Some (TaskUpdates.description u) /\ field = "description" \/
    is_Some (TaskUpdates.notes u) /\ field = "notes" \/
    is_Some (TaskUpdates.status u) /\ field = "status" \/
    is_Some (TaskUpdates.dependencies u) /\ field = "dependencies" \/
    is_Some (TaskUpdates.createdAt u) /\ field = "createdAt" \/
    is_Some (TaskUpdates.updatedAt u) /\ field = "updatedAt" \/
    is_Some (TaskUpdates.completedAt u) /\ field = "completedAt" \/
    is_Some (TaskUpdates.summary u) /\ field = "summary" \/
    is_Some (TaskUpdates.relatedFiles u) /\ field = "relatedFiles" \/
    is_Some (TaskUpdates.analysisResult u) /\ field = "analysisResult" \/
    is_Some (TaskUpdates.implementationGuide u) /\ field = "implementationGuide" \/
    is_Some (TaskUpdates.verificationCriteria u) /\ field = "verificationCriteria".
Proof.
  unfold TaskUpdates.keys. rewrite !elem_of_app, !elem_of_key. tauto.
Qed.

Ltac present_key :=
  apply elem_of_keys;
  repeat first
    [ by (split; [by eexists | reflexivity])
    | by (left; split; [by eexists | reflexivity])
    | right ].

Section UpdateTask.
Variable Date_now : nat -> Z.

Lemma updateTask_rejected taskId updates w i task field :
  firstWithId taskId (storedTasks w) i task ->
  status task = COMPLETED ->
  field ∈ TaskUpdates.keys updates -> field ∉ allowedFields ->
  updateTask Date_now taskId updates w = (None, ensureDataDir w).
Proof.
  intros Hfirst Hdone Hkey Hbad. unfold updateTask.
  rewrite readTasks_eq, (findIndex_first _ _ _ _ Hfirst).
  rewrite bool_decide_eq_true_2 by done.
  rewrite bool_decide_eq_true_2; [done|].
  assert (field ∈ filter (fun f => f ∉ allowedFields) (TaskUpdates.keys updates)) as Hin
    by (apply list_elem_of_filter; done).
  destruct (filter _ _); [by apply elem_of_nil in Hin|simpl; lia].
Qed.

Lemma updateTask_accepted taskId updates w i task :
  firstWithId taskId (storedTasks w) i task ->
  (status task = COMPLETED ->
   forall field, field ∈ TaskUpdates.keys updates -> field ∈ allowedFields) ->
  let updated := applyUpdates task updates (Date_now (dateCalls w)) in
  let r := updateTask Date_now taskId updates w in
  r.1 = Some updated /\
  storedTasks r.2 = <[i := updated]> (storedTasks w) /\
  memoryDir r.2 = memoryDir w.
Proof.
  intros Hfirst Hok updated r. subst r. unfold updateTask.
  rewrite readTasks_eq, (findIndex_first _ _ _ _ Hfirst).
  destruct Hfirst as (Hi & _ & _).
  assert (ensureDataDir w = w) as ->.
  { destruct (storedTasks w) eqn:E; [done|]. by eapply stored_nonempty_existing. }
  assert (bool_decide (status task = COMPLETED) &&
          bool_decide (0 < length (filter (fun f => f ∉ allowedFields)
                                     (TaskUpdates.keys updates))) = false) as ->.
  { apply andb_false_iff. destruct (decide (status task = COMPLETED)) as [Hc|Hc].
    - right. apply bool_decide_eq_false_2.
      destruct (filter _ _) as [|f fs] eqn:E; [simpl; lia|].
      assert (f ∈ filter (fun f => f ∉ allowedFields) (TaskUpdates.keys updates)) as Hin
        by (rewrite E; left).
      apply list_elem_of_filter in Hin as [Hbad Hin]. destruct Hbad. by apply Hok.
    - left. by apply bool_decide_eq_false_2. }
  simpl. split_and!; [done|done|].
  unfold writeTasks. simpl. by rewrite ensureDataDir_memoryDir.
Qed.

(** C6. A stored task with status COMPLETED (the one [updateTask] finds for
    the identifier) rejects every update that carries a key other than
    [summary] and [relatedFiles]: [updateTask] returns null and writes
    nothing; [updateTaskContent] and [updateTaskStatus] fail and leave the
    documents as they were; an update with keys among [summary] and
    [relatedFiles] succeeds, changes those fields and [updatedAt] only, and
    is written back in place. *)
Theorem completed_task_update_guard (taskId : string) (w : World) (i : nat)
    (task : Task) :
  firstWithId taskId (storedTasks w) i task ->
  status task = COMPLETED ->
  (forall updates field,
      field ∈ TaskUpdates.keys updates ->
      field <> "summary" -> field <> "relatedFiles" ->
      updateTask Date_now taskId updates w = (None, w)) /\
  (forall content,
      let r := updateTaskContent Date_now taskId content w in
      ContentResult.success r.1 = false /\ ContentResult.task r.1 = None /\ r.2 = w) /\
  (forall newStatus,
      let r := updateTaskStatus Date_now taskId newStatus w in
      r.1 = None /\ tasksFile r.2 = tasksFile w /\ memoryDir r.2 = memoryDir w) /\
  (forall updates,
      (forall field, field ∈ TaskUpdates.keys updates ->
                     field = "summary" \/ field = "relatedFiles") ->
      let updated :=
        {| id := id task; name := name task; description := description task;
           notes := notes task; status := status task;
           dependencies := dependencies task; createdAt := createdAt task;
           updatedAt := Date_now (dateCalls w);
           completedAt := completedAt task;
           summary := from_option Some (summary task) (TaskUpdates.summary updates);
           relatedFiles :=
             from_option Some (relatedFiles task) (TaskUpdates.relatedFiles updates);
           analysisResult := analysisResult task;
           implementationGuide := implementationGuide task;
           verificationCriteria := verificationCriteria task |} in
      let r := updateTask Date_now taskId updates w in
      r.1 = Some updated /\
      storedTasks r.2 = <[i := updated]> (storedTasks w) /\
      memoryDir r.2 = memoryDir w).
Proof.
  intros Hfirst Hdone.
  assert (ensureDataDir w = w) as Hw.
  { destruct Hfirst as (Hi & _ & _).
    destruct (storedTasks w) eqn:E; [done|]. by eapply stored_nonempty_existing. }
  assert (forall updates field,
      field ∈ TaskUpdates.keys updates ->
      field <> "summary" -> field <> "relatedFiles" ->
      updateTask Date_now taskId updates w = (None, w)) as Hreject.
  { intros updates field Hkey Hs Hr. rewrite <- Hw at 2.
    eapply updateTask_rejected; try done.
    unfold allowedFields. rewrite !elem_of_cons, elem_of_nil. tauto. }
  split_and!.
  - exact Hreject.
  - intros content. simpl. unfold updateTaskContent, getTaskById.
    rewrite readTasks_eq, (findIndex_first _ _ _ _ Hfirst), Hw. simpl.
    by rewrite bool_decide_eq_true_2.
  - intros newStatus. simpl. unfold updateTaskStatus. case_bool_decide.
    + unfold newDate. rewrite updateTask_rejected with (i := i) (task := task)
        (field := "status"); try done.
      * simpl. split_and!; [done| |by rewrite ensureDataDir_memoryDir].
        unfold ensureDataDir. simpl. destruct (tasksFile w) eqn:E; [done|].
        destruct Hfirst as (Hi & _). unfold storedTasks in Hi. by rewrite E in Hi.
      * present_key.
      * unfold allowedFields. rewrite !elem_of_cons, elem_of_nil.
        intros [?|[?|[]]]; discriminate.
    + rewrite (Hreject _ "status"); [done| |discriminate|discriminate].
      present_key.
  - intros updates Hkeys.
    assert (forall field, field ∈ TaskUpdates.keys updates -> field ∈ allowedFields)
      as Hallowed.
    { intros field Hin. unfold allowedFields. rewrite !elem_of_cons.
      destruct (Hkeys _ Hin); tauto. }
    pose proof (updateTask_accepted taskId updates w i task Hfirst
                  (fun _ => Hallowed)) as Hacc.
    simpl in Hacc. simpl.
    assert (forall k, k <> "summary" -> k <> "relatedFiles" ->
                      k ∉ TaskUpdates.keys updates) as Habsent.
    { intros k Hs Hr Hin. destruct (Hkeys _ Hin); done. }
    assert (applyUpdates task updates (Date_now (dateCalls w)) =
            {| id := id task; name := name task; description := description task;
               notes := notes task; status := status task;
               dependencies := dependencies task; createdAt := createdAt task;
               updatedAt := Date_now (dateCalls w);
               completedAt := completedAt task;
               summary := from_option Some (summary task) (TaskUpdates.summary updates);
               relatedFiles :=
                 from_option Some (relatedFiles task)
                   (TaskUpdates.relatedFiles updates);
               analysisResult := analysisResult task;
               implementationGuide := implementationGuide task;
               verificationCriteria := verificationCriteria task |}) as Heq.
    { unfold applyUpdates.
      destruct (TaskUpdates.id updates) eqn:?;
        [exfalso; apply (Habsent "id"); [done|done|present_key]|].
      destruct (TaskUpdates.name updates) eqn:?;
        [exfalso; apply (Habsent "name"); [done|done|present_key]|].
      destruct (TaskUpdates.description updates) eqn:?;
        [exfalso; apply (Habsent "description"); [done|done|present_key]|].
      destruct (TaskUpdates.notes updates) eqn:?;
        [exfalso; apply (Habsent "notes"); [done|done|present_key]|].
      destruct (TaskUpdates.status updates) eqn:?;
        [exfalso; apply (Habsent "status"); [done|done|present_key]|].
      destruct (TaskUpdates.dependencies updates) eqn:?;
        [exfalso; apply (Habsent "dependencies"); [done|done|present_key]|].
      destruct (TaskUpdates.createdAt updates) eqn:?;
        [exfalso; apply (Habsent "createdAt"); [done|done|present_key]|].
      destruct (TaskUpdates.completedAt updates) eqn:?;
        [exfalso; apply (Habsent "completedAt"); [done|done|present_key]|].
      destruct (TaskUpdates.analysisResult updates) eqn:?;
        [exfalso; apply (Habsent "analysisResult"); [done|done|present_key]|].
      destruct (TaskUpdates.implementationGuide updates) eqn:?;
        [exfalso; apply (Habsent "implementationGuide"); [done|done|present_key]|].
      destruct (TaskUpdates.verificationCriteria updates) eqn:?;
        [exfalso; apply (Habsent "verificationCriteria"); [done|done|present_key]|].
      reflexivity. }
    by rewrite <- Heq.
Qed.

End UpdateTask.

(** ** deleteTask *)

Lemma string_app_assoc (a b c : string) : (a +:+ b) +:+ c = a +:+ (b +:+ c).
Proof.
  induction a as [|x a IH]; [done|].
  change (String x ((a +:+ b) +:+ c) = String x (a +:+ (b +:+ c))).
  by rewrite IH.
Qed.

Lemma string_app_nil_r (a : string) : a +:+ EmptyString = a.
Proof.
  induction a as [|x a IH]; [done|].
  change (String x (a +:+ EmptyString) = String x a). by rewrite IH.
Qed.

Lemma occursIn_join (x sep : string) (l : list string) :
  x ∈ l -> occursIn x (JS.join sep l).
Proof.
  induction l as [|y l IH]; [by intros ?%elem_of_nil|].
  intros [->|Hin]%elem_of_cons.
  - destruct l as [|z l].
    + exists EmptyString, EmptyString. simpl. by rewrite string_app_nil_r.
    + exists EmptyString, (sep +:+ JS.join sep (z :: l)). done.
  - destruct (IH Hin) as (pre & post & Heq). destruct l as [|z l].
    + by apply elem_of_nil in Hin.
    + exists (y +:+ sep +:+ pre), post.
      change (JS.join sep (y :: z :: l)) with (y +:+ sep +:+ JS.join sep (z :: l)).
      by rewrite Heq, !string_app_assoc.
Qed.

Lemma occursIn_trans (a b c : string) :
  occursIn a b -> occursIn b c -> occursIn a c.
Proof.
  intros (pre1 & post1 & ->) (pre2 & post2 & ->).
  exists (pre2 +:+ pre1), (post1 +:+ post2). by rewrite !string_app_assoc.
Qed.

Lemma namedWithId_name (task : Task) : occursIn (name task) (namedWithId task).
Proof.
  by exists doubleQuote, (doubleQuote +:+ " (ID: " +:+ id task +:+ ")").
Qed.

Lemma namedWithId_id (task : Task) : occursIn (id task) (namedWithId task).
Proof.
  exists (doubleQuote +:+ name task +:+ doubleQuote +:+ " (ID: "), ")".
  unfold namedWithId. by rewrite !string_app_assoc.
Qed.

Lemma referencedMessage_names (other : Task) (dependentTasks : list Task) :
  other ∈ dependentTasks ->
  occursIn (namedWithId other) (referencedMessage dependentTasks).
Proof.
  intros Hin. unfold referencedMessage.
  destruct (occursIn_join (namedWithId other) ", "
              (map namedWithId dependentTasks)) as (pre & post & ->).
  { change (map namedWithId dependentTasks)
      with (namedWithId <$> dependentTasks).
    by apply list_elem_of_fmap_2. }
  eexists (_ +:+ pre), post. by rewrite string_app_assoc.
Qed.

(** C7. [deleteTask] fails with "Task not found" when no stored task has the
    identifier, with "Cannot delete completed task" when the task found is
    COMPLETED, and otherwise, when tasks at other positions list the
    identifier among their dependencies, with the message that names these
    tasks and no others: the name and the identifier of each of them occur
    in the returned message, the name in double quotes followed by the
    identifier, in store order. None of the three failures changes the
    documents. In the remaining case the task is removed from the
    collection, which is written back. *)
Theorem deleteTask_outcomes (taskId : string) (w : World) :
  ((forall task, task ∈ storedTasks w -> id task <> taskId) ->
   let r := deleteTask taskId w in
   r.1 = DeleteResult.mk false "Task not found" /\
   storedTasks r.2 = storedTasks w /\ memoryDir r.2 = memoryDir w) /\
  (forall i task,
   firstWithId taskId (storedTasks w) i task ->
   let others := delete i (storedTasks w) in
   let dependentTasks := filter (dependsOn taskId) others in
   (forall other,
      other ∈ dependentTasks <->
      exists j, storedTasks w !! j = Some other /\ j <> i /\
        Exists (fun dep => TaskDependency.taskId dep = taskId)
          (dependencies other)) /\
   (status task = COMPLETED ->
    deleteTask taskId w = (DeleteResult.mk false "Cannot delete completed task", w)) /\
   (status task <> COMPLETED -> dependentTasks <> [] ->
    deleteTask taskId w =
      (DeleteResult.mk false (referencedMessage dependentTasks), w) /\
    forall j other, storedTasks w !! j = Some other -> j <> i ->
      Exists (fun dep => TaskDependency.taskId dep = taskId) (dependencies other) ->
      let message := DeleteResult.message (deleteTask taskId w).1 in
      occursIn (name other) message /\ occursIn (id other) message /\
      occursIn (doubleQuote +:+ name other +:+ doubleQuote +:+
                " (ID: " +:+ id other +:+ ")") message) /\
   (status task <> COMPLETED -> dependentTasks = [] ->
    let r := deleteTask taskId w in
    r.1 = DeleteResult.mk true "Task deleted successfully" /\
    storedTasks r.2 = delete i (storedTasks w) /\
    memoryDir r.2 = memoryDir w)).
Proof.
  split.
  - intros Habsent. simpl. unfold deleteTask.
    rewrite readTasks_eq, findIndex_absent by done. simpl.
    by rewrite ensureDataDir_stored, ensureDataDir_memoryDir.
  - intros i task Hfirst others dependentTasks.
    assert (ensureDataDir w = w) as Hw.
    { destruct Hfirst as (Hi & _ & _).
      destruct (storedTasks w) eqn:E; [done|]. by eapply stored_nonempty_existing. }
    assert (forall other,
              other ∈ dependentTasks <->
              exists j, storedTasks w !! j = Some other /\ j <> i /\
                Exists (fun dep => TaskDependency.taskId dep = taskId)
                  (dependencies other)) as Hdependents.
    { intros other. subst dependentTasks others.
      rewrite list_elem_of_filter, list_elem_of_lookup. split.
      - intros [Hdep [p Hp]]. destruct (decide (p < i)) as [Hlt|Hge].
        + exists p. rewrite list_lookup_delete_lt in Hp by done.
          split_and!; [done|lia|done].
        + exists (S p). rewrite list_lookup_delete_ge in Hp by lia.
          split_and!; [done|lia|done].
      - intros (j & Hj & Hne & Hdep). split; [exact Hdep|].
        destruct (decide (j < i)) as [Hlt|Hge].
        + exists j. by rewrite list_lookup_delete_lt.
        + exists (pred j). rewrite list_lookup_delete_ge by lia.
          by replace (S (pred j)) with j by lia. }
    split_and!.
    + exact Hdependents.
    + intros Hdone. unfold deleteTask.
      rewrite readTasks_eq, (findIndex_first _ _ _ _ Hfirst), Hw.
      by rewrite bool_decide_eq_true_2.
    + intros Hlive Hdeps.
      assert (deleteTask taskId w =
              (DeleteResult.mk false (referencedMessage dependentTasks), w)) as Hr.
      { unfold deleteTask.
        rewrite readTasks_eq, (findIndex_first _ _ _ _ Hfirst), Hw.
        rewrite bool_decide_eq_false_2 by done.
        fold others. fold dependentTasks.
        rewrite bool_decide_eq_true_2; [done|].
        destruct dependentTasks; [done|simpl; lia]. }
      split; [exact Hr|]. intros j other Hj Hne Hdep message. subst message.
      rewrite Hr. cbn [fst DeleteResult.message].
      assert (occursIn (namedWithId other) (referencedMessage dependentTasks))
        as Hnamed by (apply referencedMessage_names, Hdependents; eauto).
      split_and!.
      * exact (occursIn_trans _ _ _ (namedWithId_name other) Hnamed).
      * exact (occursIn_trans _ _ _ (namedWithId_id other) Hnamed).
      * exact Hnamed.
    + intros Hlive Hdeps. simpl. unfold deleteTask.
      rewrite readTasks_eq, (findIndex_first _ _ _ _ Hfirst), Hw.
      rewrite bool_decide_eq_false_2 by done.
      fold others. fold dependentTasks. rewrite Hdeps. simpl.
      split_and!; [done|done|]. by rewrite ensureDataDir_memoryDir.
Qed.

(** ** clearAllTasks *)

Section ClearAllTasks.
Variable Date_now : nat -> Z.
Variable toISOString : Z -> string.

(** C8. On an empty live set [clearAllTasks] succeeds and writes no archive
    document; the live collection stays empty. On a non-empty live set it
    writes one archive document that holds exactly the stored tasks whose
    status is COMPLETED (in store order), then writes the empty collection to
    the live store, and returns the archive's file name. *)
Theorem clearAllTasks_archives_completed (w : World) :
  (storedTasks w = [] ->
   clearAllTasks Date_now toISOString w =
     (ClearResult.mk true "No tasks to clear" None, ensureDataDir w) /\
   memoryDir (ensureDataDir w) = memoryDir w /\
   storedTasks (ensureDataDir w) = [] /\
   (forall tasks, tasksFile w = Some tasks -> ensureDataDir w = w)) /\
  (storedTasks w <> [] ->
   let r := clearAllTasks Date_now toISOString w in
   let backupFileName := archiveName toISOString (Date_now (dateCalls w)) in
   let completedTasks := filter (fun task => status task = COMPLETED) (storedTasks w) in
   ClearResult.success r.1 = true /\
   ClearResult.backupFile r.1 = Some backupFileName /\
   memoryDir r.2 = <[backupFileName := completedTasks]> (memoryDir w) /\
   memoryDir r.2 !! backupFileName = Some completedTasks /\
   (forall task, task ∈ completedTasks <->
                 task ∈ storedTasks w /\ status task = COMPLETED) /\
   tasksFile r.2 = Some []).
Proof.
  split.
  - intros Hempty. split_and!.
    + unfold clearAllTasks. rewrite readTasks_eq, ensureDataDir_idemp.
      by rewrite ensureDataDir_stored, Hempty.
    + apply ensureDataDir_memoryDir.
    + by rewrite ensureDataDir_stored.
    + apply ensureDataDir_existing.
  - intros Hne. simpl. unfold clearAllTasks.
    rewrite readTasks_eq, ensureDataDir_idemp, ensureDataDir_stored.
    assert (ensureDataDir w = w) as ->.
    { destruct (storedTasks w) eqn:E; [done|]. by eapply stored_nonempty_existing. }
    rewrite bool_decide_eq_false_2
      by (destruct (storedTasks w); [done|simpl; lia]).
    simpl. rewrite ensureDataDir_memoryDir. simpl. split_and!; try done.
    + unfold archiveName. by rewrite lookup_insert_eq.
    + intros task. rewrite list_elem_of_filter. tauto.
Qed.

End ClearAllTasks.

(** ** Pagination of the search results *)

Lemma ceilDiv_bounds (a b : Z) :
  (0 < b)%Z -> (b * (JS.ceilDiv a b - 1) < a <= b * JS.ceilDiv a b)%Z.
Proof.
  intros Hb. unfold JS.ceilDiv.
  assert (b <> 0)%Z as Hb0 by lia.
  pose proof (Z.div_mod (- a) b Hb0) as Hdm.
  pose proof (Z.mod_pos_bound (- a) b Hb) as Hmod.
  set (q := (- a / b)%Z) in *. set (r := (- a mod b)%Z) in *.
  lia.
Qed.

Lemma ceilDiv_nonneg (a b : Z) : (0 < b)%Z -> (0 <= a)%Z -> (0 <= JS.ceilDiv a b)%Z.
Proof. intros Hb Ha. pose proof (ceilDiv_bounds a b Hb). nia. Qed.

Lemma ceilDiv_zero (a b : Z) :
  (0 < b)%Z -> (0 <= a)%Z -> JS.ceilDiv a b = 0%Z -> a = 0%Z.
Proof. intros Hb Ha H0. pose proof (ceilDiv_bounds a b Hb). nia. Qed.

Lemma paginate_twelve (allTasks : list Task) :
  length allTasks = 12 ->
  paginate allTasks 1 5 =
    SearchResult.mk (take 5 allTasks) (Pagination.mk 1 3 12 true) /\
  paginate allTasks 3 5 =
    SearchResult.mk (drop 10 allTasks) (Pagination.mk 3 3 12 false) /\
  paginate allTasks 99 5 = paginate allTasks 3 5.
Proof.
  intros Hlen.
  do 12 (destruct allTasks as [|? allTasks]; [discriminate Hlen|]).
  destruct allTasks; [|discriminate Hlen].
  by vm_compute.
Qed.

Lemma paginate_general (allTasks : list Task) (page pageSize : Z) :
  (1 <= pageSize)%Z ->
  let r := SearchResult.pagination (paginate allTasks page pageSize) in
  let shown := SearchResult.tasks (paginate allTasks page pageSize) in
  Pagination.totalResults r = Z.of_nat (length allTasks) /\
  (1 <= Pagination.totalPages r)%Z /\
  (allTasks = [] -> Pagination.totalPages r = 1%Z) /\
  (pageSize * (Pagination.totalPages r - 1) < Z.max 1 (Pagination.totalResults r)
     <= pageSize * Pagination.totalPages r)%Z /\
  Pagination.currentPage r = Z.max 1 (Z.min page (Pagination.totalPages r)) /\
  (1 <= Pagination.currentPage r <= Pagination.totalPages r)%Z /\
  (Pagination.hasMore r = true <->
   (Pagination.currentPage r * pageSize < Pagination.totalResults r)%Z) /\
  shown =
    take (Z.to_nat pageSize)
      (drop (Z.to_nat ((Pagination.currentPage r - 1) * pageSize)) allTasks).
Proof.
  intros Hps. simpl.
  remember (Z.of_nat (length allTasks)) as total eqn:Etotal.
  assert (0 <= total)%Z as Htotal by lia.
  assert (0 < pageSize)%Z as Hpos by lia.
  pose proof (ceilDiv_bounds total pageSize Hpos) as Hb.
  pose proof (ceilDiv_nonneg total pageSize Hpos Htotal) as Hnn.
  set (pages := JS.ceilDiv total pageSize) in *.
  assert ((if (pages =? 0)%Z then 1%Z else pages) = Z.max 1 pages) as ->.
  { destruct (Z.eqb_spec pages 0); lia. }
  split; [done|]. split; [lia|].
  split; [intros ->; simpl in *; nia|].
  split; [nia|]. split; [done|]. split; [lia|].
  split; [rewrite Z.ltb_lt; nia|].
  - unfold JS.slice. rewrite <- Etotal.
    set (safePage := Z.max 1 (Z.min page (Z.max 1 pages))).
    assert (1 <= safePage)%Z by lia.
    assert (0 <= (safePage - 1) * pageSize)%Z as Hstart by nia.
    rewrite (proj2 (Z.ltb_ge (Z.min _ _) 0)) by lia.
    rewrite (proj2 (Z.ltb_ge ((safePage - 1) * pageSize) 0)) by lia.
    set (start := ((safePage - 1) * pageSize)%Z) in *.
    destruct (decide (total <= start)%Z) as [Hout|Hin].
    { rewrite !drop_ge by lia. by rewrite !take_nil. }
    replace (Z.min start total) with start by lia.
    destruct (decide (start + pageSize <= total)%Z) as [Hfull|Hpart].
    + f_equal. lia.
    + rewrite !take_ge; [done|rewrite length_drop; lia..].
Qed.

(** C9. When the combined, deduplicated result set of a search has 12 tasks
    and the page size is 5, page 1 holds the first 5 tasks with [hasMore]
    true, page 3 holds the last 2 with [hasMore] false, and a request for
    page 99 is answered as page 3. For every page size of at least 1 the
    page shown is the requested one clamped into [1, totalPages], where
    [totalPages] is at least 1 (1 when nothing matches), and the pagination
    object carries [currentPage], [totalPages], [totalResults], [hasMore]. *)
Theorem search_pagination (memoryTasks : list Task) (query : string)
    (isId : bool) (w : World) :
  let allTasks := combinedResults memoryTasks query isId (storedTasks w) in
  let search page pageSize :=
    (searchTasksWithCommand memoryTasks query isId page pageSize w).1 in
  (length allTasks = 12 ->
   search 1%Z 5%Z = SearchResult.mk (take 5 allTasks) (Pagination.mk 1 3 12 true) /\
   length (SearchResult.tasks (search 1%Z 5%Z)) = 5 /\
   search 3%Z 5%Z = SearchResult.mk (drop 10 allTasks) (Pagination.mk 3 3 12 false) /\
   length (SearchResult.tasks (search 3%Z 5%Z)) = 2 /\
   search 99%Z 5%Z = search 3%Z 5%Z) /\
  (forall page pageSize : Z,
   (1 <= pageSize)%Z ->
   let r := SearchResult.pagination (search page pageSize) in
   Pagination.totalResults r = Z.of_nat (length allTasks) /\
   (1 <= Pagination.totalPages r)%Z /\
   (allTasks = [] -> Pagination.totalPages r = 1%Z) /\
   (pageSize * (Pagination.totalPages r - 1) < Z.max 1 (Pagination.totalResults r)
      <= pageSize * Pagination.totalPages r)%Z /\
   Pagination.currentPage r = Z.max 1 (Z.min page (Pagination.totalPages r)) /\
   (1 <= Pagination.currentPage r <= Pagination.totalPages r)%Z /\
   (Pagination.hasMore r = true <->
    (Pagination.currentPage r * pageSize < Pagination.totalResults r)%Z) /\
   SearchResult.tasks (search page pageSize) =
     take (Z.to_nat pageSize)
       (drop (Z.to_nat ((Pagination.currentPage r - 1) * pageSize)) allTasks)).
Proof.
  intros allTasks search.
  assert (forall page pageSize, search page pageSize = paginate allTasks page pageSize)
    as Hsearch.
  { intros page pageSize. subst search allTasks.
    unfold searchTasksWithCommand. by rewrite readTasks_eq. }
  split.
  - intros Hlen. rewrite !Hsearch.
    destruct (paginate_twelve allTasks Hlen) as (H1 & H3 & H99).
    rewrite H99, H1, H3. simpl.
    rewrite length_take, length_drop. split_and!; try done; lia.
  - intros page pageSize Hps. rewrite Hsearch.
    exact (paginate_general allTasks page pageSize Hps).
Qed.

(** ** Keyword search *)

Lemma startsWith_spec (p s : string) :
  JS.startsWith p s = true <-> exists post, s = p +:+ post.
Proof.
  revert s. induction p as [|a p IH]; intros s; simpl.
  - split; [intros _; by exists s|done].
  - destruct s as [|b s].
    + split; [done|intros [post [=]]].
    + rewrite andb_true_iff, bool_decide_eq_true, IH. split.
      * intros [-> [post ->]]. by exists post.
      * intros [post [= -> ->]]. split; [done|by exists post].
Qed.

Lemma includes_spec (s k : string) : JS.includes s k = true <-> occursIn k s.
Proof.
  unfold occursIn. induction s as [|c s IH]; simpl.
  - rewrite orb_false_r, startsWith_spec. split.
    + intros [post ->]. by exists EmptyString, post.
    + intros ([|? pre] & post & Heq); simpl in Heq; [by exists post|done].
  - rewrite orb_true_iff, startsWith_spec, IH. split.
    + intros [[post ->]|(pre & post & ->)].
      * by exists EmptyString, post.
      * by exists (String c pre), post.
    + intros ([|d pre] & post & Heq); simpl in Heq.
      * left. by exists post.
      * right. injection Heq as -> ->. by exists pre, post.
Qed.

Lemma noWhitespace_elem (u : list ascii) (c : ascii) :
  noWhitespace u -> c ∈ u -> JS.isWhitespace c = true -> False.
Proof.
  intros Hu Hin Hc. unfold noWhitespace in Hu. rewrite Forall_forall in Hu.
  specialize (Hu c Hin). congruence.
Qed.

Ltac in_list := rewrite ?elem_of_app, ?elem_of_cons; naive_solver.

Lemma noWhitespace_boundary_end (u pre k : list ascii) :
  noWhitespace u -> u = pre ++ k -> endsAtBoundary pre -> pre = [].
Proof.
  intros Hu -> [->|(r & c & -> & Hc)]; [done|].
  destruct (noWhitespace_elem _ c Hu); [in_list|done].
Qed.

Lemma noWhitespace_boundary_start (u k post : list ascii) :
  noWhitespace u -> u = k ++ post -> startsAtBoundary post -> post = [].
Proof.
  intros Hu -> [->|(c & r & -> & Hc)]; [done|].
  destruct (noWhitespace_elem _ c Hu); [in_list|done].
Qed.

Lemma tokens_of_run (u t : list ascii) :
  noWhitespace u -> isTokenOf u t <-> t = u /\ u <> [].
Proof.
  intros Hu. split.
  - intros (Hne & _ & pre & post & Heq & Hpre & Hpost).
    assert (pre = []) as -> by (eapply noWhitespace_boundary_end; eauto).
    assert (post = []) as ->.
    { eapply (noWhitespace_boundary_start u (_ ++ t)); eauto.
      by rewrite <- (assoc_L _). }
    simpl in Heq. rewrite app_nil_r in Heq. by subst.
  - intros [-> Hne]. split_and!; [done|done|].
    exists [], []. split_and!; [by rewrite app_nil_r|by left|by left].
Qed.

Lemma tokens_of_split (u : list ascii) (c : ascii) (s t : list ascii) :
  noWhitespace u -> JS.isWhitespace c = true ->
  isTokenOf (u ++ c :: s) t <-> (t = u /\ u <> []) \/ isTokenOf s t.
Proof.
  intros Hu Hc. split.
  - intros (Hne & Ht & pre & post & Heq & Hpre & Hpost).
    apply app_eq_inv in Heq as [(k & Hu1 & Hk)|(k & Hpre1 & Hk)].
    + assert (pre = []) as -> by exact (noWhitespace_boundary_end u pre k Hu Hu1 Hpre).
      simpl in Hu1. subst k. symmetry in Hk.
      apply app_eq_inv in Hk as [(k & Hu1 & Hk)|(k & Ht1 & Hk)].
      * destruct k as [|d k].
        { rewrite app_nil_r in Hu1. left. by subst. }
        simpl in Hk. subst post.
        destruct Hpost as [?|(c' & r & [= <- <-] & Hd)]; [done|].
        destruct (noWhitespace_elem _ d Hu); [subst u; in_list|done].
      * destruct k as [|d k].
        { rewrite app_nil_r in Ht1. left. by subst. }
        simpl in Hk. injection Hk as <- _.
        destruct (noWhitespace_elem _ c Ht); [subst t; in_list|done].
    + destruct k as [|d k]; simpl in Hk.
      * destruct t as [|d t]; [done|]. simpl in Hk. injection Hk as <- _.
        destruct (noWhitespace_elem _ c Ht); [in_list|done].
      * injection Hk as <- Hs. right. split_and!; [done|done|].
        exists k, post. split_and!; [done| |done].
        destruct k as [|e k _] using rev_ind; [by left|].
        right. exists k, e. split; [done|].
        destruct Hpre as [Hpre|(r & d & Hr & Hd)].
        { subst pre. by destruct u. }
        subst pre. rewrite app_comm_cons, (assoc_L (++)) in Hr.
        apply app_inj_tail in Hr as [_ ->]. done.
  - intros [[-> Hne]|(Hne & Ht & pre & post & -> & Hpre & Hpost)].
    + split_and!; [done|done|].
      exists [], (c :: s). split_and!; [done|by left|].
      right. by exists c, s.
    + split_and!; [done|done|].
      exists (u ++ c :: pre), post. split_and!.
      * by rewrite <- (assoc_L (++)).
      * right. destruct Hpre as [->|(r & d & -> & Hd)].
        { by exists u, c. }
        exists (u ++ c :: r), d. split; [|done].
        by rewrite <- (assoc_L (++)).
      * done.
Qed.

Lemma splitWhitespace_aux_spec (s : string) (cur : list ascii) (token : string) :
  noWhitespace cur ->
  token ∈ JS.splitWhitespace_aux cur s <->
  isTokenOf (rev cur ++ list_ascii_of_string s) (list_ascii_of_string token).
Proof.
  assert (forall cur : list ascii,
    token ∈ match cur with
            | [] => []
            | _ => [string_of_list_ascii (rev cur)]
            end <->
    list_ascii_of_string token = rev cur /\ rev cur <> []) as Hflush.
  { intros [|a cur'].
    - simpl. split; [by intros ?%elem_of_nil|by intros [_ ?]].
    - rewrite list_elem_of_singleton. split.
      + intros ->. rewrite list_ascii_of_string_of_list_ascii. split; [done|].
        simpl. by destruct (rev cur').
      + intros [<- _]. by rewrite string_of_list_ascii_of_string. }
  revert cur. induction s as [|c s IH]; intros cur Hcur.
  - simpl. rewrite app_nil_r, Hflush.
    rewrite tokens_of_run; [done|]. by apply Forall_rev.
  - simpl. destruct (JS.isWhitespace c) eqn:Hc.
    + rewrite elem_of_app, Hflush, (IH []) by constructor.
      rewrite tokens_of_split; [done|by apply Forall_rev|done].
    + rewrite IH by (constructor; done). simpl.
      by rewrite <- (assoc_L (++)).
Qed.

Lemma splitWhitespace_spec (query token : string) :
  token ∈ JS.splitWhitespace query <-> queryToken query token.
Proof.
  unfold JS.splitWhitespace, queryToken.
  rewrite splitWhitespace_aux_spec by constructor. done.
Qed.

Lemma keywordMatches_spec (task : Task) (keyword : string) :
  keywordMatches task keyword = true <->
  exists field, field ∈ searchedFields task /\ occursIgnoringCase keyword field.
Proof.
  unfold keywordMatches, searchedFields, occursIgnoringCase.
  rewrite !orb_true_iff. split.
  - intros [[[[H|H]|H]|H]|H].
    + apply includes_spec in H. exists (name task). split; [in_list|done].
    + apply includes_spec in H. exists (description task). split; [in_list|done].
    + destruct (notes task) as [text|]; [|done].
      apply includes_spec in H. exists text. split; [simpl; in_list|done].
    + destruct (implementationGuide task) as [text|]; [|done].
      apply includes_spec in H. exists text. split; [|done].
      rewrite !elem_of_app. right. right. left. simpl. in_list.
    + destruct (summary task) as [text|]; [|done].
      apply includes_spec in H. exists text. split; [|done].
      rewrite !elem_of_app. right. right. right. simpl. in_list.
  - intros (field & Hin & Hocc). apply includes_spec in Hocc.
    rewrite !elem_of_app, !elem_of_cons in Hin.
    destruct Hin as [[->|[->|Hin]]|[Hin|[Hin|Hin]]].
    + tauto.
    + tauto.
    + by apply elem_of_nil in Hin.
    + destruct (notes task); simpl in Hin; [|by apply elem_of_nil in Hin].
      apply list_elem_of_singleton in Hin as ->. tauto.
    + destruct (implementationGuide task); simpl in Hin;
        [|by apply elem_of_nil in Hin].
      apply list_elem_of_singleton in Hin as ->. tauto.
    + destruct (summary task); simpl in Hin; [|by apply elem_of_nil in Hin].
      apply list_elem_of_singleton in Hin as ->. tauto.
Qed.

Lemma keywords_match_spec (task : Task) (query : string) :
  forallb (keywordMatches task) (JS.splitWhitespace query) = true <->
  matchesEveryToken task query.
Proof.
  rewrite forallb_forall. unfold matchesEveryToken. split.
  - intros H token Htoken. apply keywordMatches_spec, H.
    by apply list_elem_of_In, splitWhitespace_spec.
  - intros H token Hin. apply keywordMatches_spec, H.
    by apply splitWhitespace_spec, list_elem_of_In.
Qed.

(** C10. In keyword mode a task of the live store is among the results
    exactly when every whitespace-separated token of the query occurs,
    ignoring case, as a substring of its name, description, notes,
    implementationGuide or summary (those it has). For the query
    "login bug" and a store of two tasks, the first with both words in its
    description and the second with no occurrence of "bug" in any searched
    field, only the first task is returned. *)
Theorem keyword_search_matches_every_token (tasks : list Task) (query : string)
    (task : Task) :
  (task ∈ filterCurrentTasks tasks query false <->
   task ∈ tasks /\ matchesEveryToken task query) /\
  (forall first second : Task,
   occursIgnoringCase "login" (description first) ->
   occursIgnoringCase "bug" (description first) ->
   (forall field, field ∈ searchedFields second -> ~ occursIgnoringCase "bug" field) ->
   filterCurrentTasks [first; second] "login bug" false = [first]).
Proof.
  split.
  - unfold filterCurrentTasks. case_bool_decide as Hnone.
    + split; [|tauto]. intros Hin. split; [done|].
      intros token Htoken. apply splitWhitespace_spec in Htoken.
      destruct (JS.splitWhitespace query); [by apply elem_of_nil in Htoken|done].
    + rewrite list_elem_of_filter, keywords_match_spec. tauto.
  - intros first second Hlogin Hbug Hnone.
    assert (forall t k, occursIgnoringCase k (description t) ->
                        keywordMatches t k = true) as Hdesc.
    { intros t k Hocc. apply keywordMatches_spec. exists (description t).
      split; [unfold searchedFields; in_list|done]. }
    assert (keywordMatches second "bug" = false) as Hsecond.
    { destruct (keywordMatches second "bug") eqn:E; [|done].
      apply keywordMatches_spec in E as (field & Hin & Hocc).
      by destruct (Hnone field Hin). }
    unfold filterCurrentTasks.
    change (JS.splitWhitespace "login bug") with ["login"; "bug"].
    rewrite bool_decide_eq_false_2 by done.
    rewrite filter_cons_True.
    2:{ simpl. by rewrite !Hdesc. }
    rewrite filter_cons_False.
    2:{ simpl. rewrite Hsecond. by rewrite andb_false_r. }
    done.
Qed.

(** ** Batch reconciliation *)

Section Batch.
Variable uuidv4 : nat -> string.
Variable Date_now : nat -> Z.

(** C5. The batch [{name: "A", dependencies: ["B"]}, {name: "B"}] in append
    mode on an empty store yields exactly two tasks, both written to the
    store, and the dependency list of task A is the single identifier that
    was generated for task B. *)
Theorem forward_name_reference_resolves (w : World)
    (descA descB : string) (notesA notesB : option string)
    (filesA filesB : option (list RelatedFile.t))
    (guideA guideB critA critB analysis : option string) :
  storedTasks w = [] ->
  let specA := TaskData.mk "A" descA notesA (Some ["B"]) filesA guideA critA in
  let specB := TaskData.mk "B" descB notesB None filesB guideB critB in
  let idA := uuidv4 (uuidCalls w) in
  let idB := uuidv4 (S (uuidCalls w)) in
  let now := dateCalls w in
  let taskA :=
    {| id := idA; name := "A"; description := descA; notes := notesA;
       status := PENDING; dependencies := [TaskDependency.mk idB];
       createdAt := Date_now now; updatedAt := Date_now (S now);
       completedAt := None; summary := None; relatedFiles := filesA;
       analysisResult := analysis; implementationGuide := guideA;
       verificationCriteria := critA |} in
  let taskB :=
    {| id := idB; name := "B"; description := descB; notes := notesB;
       status := PENDING; dependencies := [];
       createdAt := Date_now (S (S now)); updatedAt := Date_now (S (S (S now)));
       completedAt := None; summary := None; relatedFiles := filesB;
       analysisResult := analysis; implementationGuide := guideB;
       verificationCriteria := critB |} in
  let r := batchCreateOrUpdateTasks uuidv4 Date_now [specA; specB] append analysis w in
  r.1 = Returned [taskA; taskB] /\
  storedTasks r.2 = [taskA; taskB] /\
  map TaskDependency.taskId (dependencies taskA) = [id taskB].
Proof.
  intros Hempty. cbv zeta.
  destruct w as [file memory uuids dates]. unfold storedTasks in Hempty.
  simpl in Hempty.
  destruct file as [[|? ?]|]; [|done|]; by vm_compute.
Qed.

Variable updateMode : UpdateMode.
Variable existingTasks : list Task.
Variable globalAnalysisResult : option string.

Local Abbreviation step :=
  (materialize uuidv4 Date_now updateMode existingTasks globalAnalysisResult).
Local Abbreviation Round :=
  (Round uuidv4 Date_now updateMode existingTasks globalAnalysisResult).

Lemma materialize_round st taskData : Round st taskData (step st taskData).
Proof.
  unfold materialize.
  destruct (decide (updateMode = selective)) as [Hsel|Hsel].
  - rewrite bool_decide_eq_true_2 by done.
    destruct (taskNameToIdMap st !! TaskData.name taskData) as [eid|] eqn:Hknown.
    + destruct (findIndex _ existingTasks) as [[i t]|] eqn:Hfind.
      * case_bool_decide as Hstatus.
        -- by eapply RoundUpdate.
        -- eapply RoundSkip; [done|done|]. right. exists i, t. split; [done|].
           by destruct (decide (status t = COMPLETED)).
      * eapply RoundSkip; [done|done|by left].
    + apply RoundCreate. by right.
  - rewrite bool_decide_eq_false_2 by done. apply RoundCreate. by left.
Qed.

Local Abbreviation after :=
  (stateAfter uuidv4 Date_now updateMode existingTasks globalAnalysisResult).
Local Abbreviation pushes :=
  (materializedBy uuidv4 Date_now updateMode existingTasks globalAnalysisResult).
Local Abbreviation skips :=
  (skippedAt uuidv4 Date_now updateMode existingTasks globalAnalysisResult).
Local Abbreviation namesResolve := (namesResolve updateMode).

Lemma round_newTasks st taskData st' :
  Round st taskData st' ->
  newTasks st' = newTasks st \/ exists task, newTasks st' = newTasks st ++ [task].
Proof. intros [| |]; simpl; eauto. Qed.

Lemma round_map_stable st taskData st' (n v : string) :
  updateMode = selective -> Round st taskData st' ->
  taskNameToIdMap st !! n = Some v -> taskNameToIdMap st' !! n = Some v.
Proof.
  intros Hsel [[Hmode|Hnew]| |] Hn; simpl; try done.
  rewrite lookup_insert_ne; [done|]. intros <-. congruence.
Qed.

Lemma run_map_stable (l : list TaskData.t) st (n v : string) :
  updateMode = selective ->
  taskNameToIdMap st !! n = Some v ->
  taskNameToIdMap (foldl step st l) !! n = Some v.
Proof.
  intros Hsel. revert st. induction l as [|taskData l IH]; intros st Hn; [done|].
  simpl. apply IH. eapply round_map_stable; [done|apply materialize_round|done].
Qed.

Lemma run_newTasks_prefix (l : list TaskData.t) st :
  newTasks st `prefix_of` newTasks (foldl step st l).
Proof.
  revert st. induction l as [|taskData l IH]; intros st; [done|].
  simpl. etrans; [|apply IH].
  destruct (round_newTasks _ _ _ (materialize_round st taskData)) as [->|[u ->]].
  - done.
  - by apply prefix_app_r.
Qed.

Lemma run_newTasks_length (l : list TaskData.t) st :
  length (newTasks (foldl step st l)) <= length (newTasks st) + length l.
Proof.
  revert st. induction l as [|taskData l IH]; intros st; simpl; [lia|].
  specialize (IH (step st taskData)).
  destruct (round_newTasks _ _ _ (materialize_round st taskData)) as [E|[u E]];
    rewrite E in IH; rewrite ?length_app in IH; simpl in IH; lia.
Qed.

Lemma stateAfter_S (taskDataList : list TaskData.t) w k taskData :
  taskDataList !! k = Some taskData ->
  after taskDataList w (S k) = step (after taskDataList w k) taskData.
Proof.
  intros Hk. unfold stateAfter, materializeAll.
  by rewrite (take_S_r _ _ _ Hk), foldl_snoc.
Qed.

Lemma stateAfter_all (taskDataList : list TaskData.t) w k :
  length taskDataList <= k ->
  after taskDataList w k =
  materializeAll uuidv4 Date_now updateMode existingTasks globalAnalysisResult
    taskDataList taskDataList w.
Proof. intros Hk. unfold stateAfter. by rewrite take_ge. Qed.

Lemma stateAfter_run (taskDataList : list TaskData.t) w j k :
  j <= k ->
  after taskDataList w k =
  foldl step (after taskDataList w j) (take (k - j) (drop j taskDataList)).
Proof.
  intros Hjk. unfold stateAfter, materializeAll.
  rewrite <- foldl_app. f_equal.
  rewrite take_drop_commute. replace (j + (k - j)) with k by lia.
  rewrite <- (take_drop j (take k taskDataList)) at 1.
  by rewrite take_take, Nat.min_l by lia.
Qed.

Lemma stateAfter_newTasks_length (taskDataList : list TaskData.t) w k :
  length (newTasks (after taskDataList w k)) <= k.
Proof.
  unfold stateAfter, materializeAll.
  etrans; [apply run_newTasks_length|]. simpl. rewrite length_take. lia.
Qed.

Lemma stateAfter_newTasks_step (taskDataList : list TaskData.t) w j k :
  j <= k ->
  length (newTasks (after taskDataList w k)) <=
  length (newTasks (after taskDataList w j)) + (k - j).
Proof.
  intros Hjk. rewrite (stateAfter_run _ _ j k Hjk).
  etrans; [apply run_newTasks_length|]. rewrite length_take. lia.
Qed.

Lemma stateAfter_newTasks_prefix (taskDataList : list TaskData.t) w j k :
  j <= k ->
  newTasks (after taskDataList w j) `prefix_of` newTasks (after taskDataList w k).
Proof.
  intros Hjk. rewrite (stateAfter_run _ _ j k Hjk). apply run_newTasks_prefix.
Qed.

Lemma materialize_update st taskData i taskToUpdate :
  updateMode = selective ->
  taskNameToIdMap st !! TaskData.name taskData = Some (id taskToUpdate) ->
  findIndex (fun task => id task = id taskToUpdate) existingTasks =
    Some (i, taskToUpdate) ->
  status taskToUpdate <> COMPLETED ->
  newTasks (step st taskData) =
    newTasks st ++
    [makeUpdatedTask taskToUpdate taskData globalAnalysisResult
       (Date_now (dateCalls (world st)))].
Proof.
  intros Hsel Hknown Hfind Hstatus. unfold materialize.
  rewrite bool_decide_eq_true_2, Hknown, Hfind by done.
  by rewrite bool_decide_eq_true_2.
Qed.

Lemma materialize_skip st taskData i taskToUpdate :
  updateMode = selective ->
  taskNameToIdMap st !! TaskData.name taskData = Some (id taskToUpdate) ->
  findIndex (fun task => id task = id taskToUpdate) existingTasks =
    Some (i, taskToUpdate) ->
  status taskToUpdate = COMPLETED ->
  step st taskData = st.
Proof.
  intros Hsel Hknown Hfind Hstatus. unfold materialize.
  rewrite bool_decide_eq_true_2, Hknown, Hfind by done.
  rewrite bool_decide_eq_false_2; [done|]. by intros [].
Qed.

Lemma recordNames_snoc (m : gmap string string) (tasks : list Task) (task : Task) :
  recordNames m (tasks ++ [task]) = <[name task := id task]> (recordNames m tasks).
Proof. unfold recordNames. by rewrite foldl_snoc. Qed.

(** After [recordNames], a name maps to the identifier of the last task that
    bears it, or to what it mapped to before. *)
Lemma recordNames_lookup (m : gmap string string) (tasks : list Task) (n : string) :
  recordNames m tasks !! n =
  match last (filter (fun task => name task = n) tasks) with
  | Some task => Some (id task)
  | None => m !! n
  end.
Proof.
  induction tasks as [|task tasks IH] using rev_ind; [done|].
  rewrite recordNames_snoc, filter_app.
  destruct (decide (name task = n)) as [Hn|Hn].
  - rewrite filter_cons_True, filter_nil by done.
    rewrite last_snoc. subst n. by rewrite lookup_insert_eq.
  - rewrite filter_cons_False, filter_nil, app_nil_r by done.
    by rewrite lookup_insert_ne.
Qed.

Lemma last_unique {A} (l : list A) (x : A) :
  x ∈ l -> (forall y, y ∈ l -> y = x) -> last l = Some x.
Proof.
  intros Hin Hall. destruct (last l) as [y|] eqn:E.
  - f_equal. apply Hall. apply last_Some in E as [l' ->]. in_list.
  - apply last_None in E. subst l. by apply elem_of_nil in Hin.
Qed.

Lemma findIndex_unique (tasks : list Task) (task : Task) :
  task ∈ tasks -> NoDup (map id tasks) ->
  exists i, findIndex (fun other => id other = id task) tasks = Some (i, task).
Proof.
  intros Hin Hnodup. destruct (firstWithId_distinct _ _ Hin Hnodup) as [i Hi].
  exists i. by apply findIndex_first.
Qed.

Lemma lastNamed_Some (tasks : list Task) (n : string) (task : Task) :
  lastNamed tasks n = Some task -> task ∈ tasks /\ name task = n.
Proof.
  unfold lastNamed. intros [l E]%last_Some.
  assert (task ∈ filter (fun t => name t = n) tasks) as Hin by (rewrite E; in_list).
  apply list_elem_of_filter in Hin. tauto.
Qed.

Lemma lastNamed_unique (tasks : list Task) (task : Task) :
  task ∈ tasks ->
  (forall other, other ∈ tasks -> name other = name task -> other = task) ->
  lastNamed tasks (name task) = Some task.
Proof.
  intros Hin Hunique. unfold lastNamed. apply last_unique.
  - by apply list_elem_of_filter.
  - intros other [Hname Hother]%list_elem_of_filter. by apply Hunique.
Qed.

(** In selective mode a name of the batch that some existing task bears maps
    to the identifier of the last such task during the whole first loop. *)
Lemma selective_name_lookup (taskDataList : list TaskData.t) w k (n : string)
    (task : Task) :
  updateMode = selective ->
  lastNamed existingTasks n = Some task ->
  n ∈ map TaskData.name taskDataList ->
  taskNameToIdMap (after taskDataList w k) !! n = Some (id task).
Proof.
  intros Hsel Hlast Hlisted. unfold stateAfter, materializeAll.
  apply run_map_stable; [done|]. simpl. unfold initialNameMap.
  rewrite bool_decide_eq_true_2 by done. rewrite recordNames_lookup.
  destruct (last (filter _ (initialTasksToKeep _ _ _))) as [other|] eqn:E.
  - exfalso. apply last_Some in E as [l E].
    assert (other ∈ filter (fun t => name t = n)
              (initialTasksToKeep updateMode existingTasks taskDataList)) as Hother
      by (rewrite E; in_list).
    apply list_elem_of_filter in Hother as [Hname Hkept].
    rewrite Hsel in Hkept. simpl in Hkept.
    apply list_elem_of_filter in Hkept as [Hnot _]. apply Hnot.
    rewrite elem_of_list_to_set, Hname. done.
  - rewrite recordNames_lookup. unfold lastNamed in Hlast. by rewrite Hlast.
Qed.

Lemma recordNames_absent (m : gmap string string) (tasks : list Task) (n : string) :
  (forall task, task ∈ tasks -> name task <> n) ->
  recordNames m tasks !! n = m !! n.
Proof.
  induction tasks as [|task tasks IH] using rev_ind; intros Hall; [done|].
  rewrite recordNames_snoc, lookup_insert_ne.
  - apply IH. intros other Hin. apply Hall. apply elem_of_app. by left.
  - apply Hall. in_list.
Qed.

Lemma round_map_absent st taskData st' (n : string) :
  Round st taskData st' -> TaskData.name taskData <> n ->
  taskNameToIdMap st !! n = None -> taskNameToIdMap st' !! n = None.
Proof. intros [| |] Hne Hn; simpl; [|done|done]. by rewrite lookup_insert_ne. Qed.

Lemma run_map_absent (l : list TaskData.t) st (n : string) :
  n ∉ map TaskData.name l ->
  taskNameToIdMap st !! n = None ->
  taskNameToIdMap (foldl step st l) !! n = None.
Proof.
  revert st. induction l as [|taskData l IH]; intros st Hnot Hn; [done|].
  simpl. apply IH.
  - intros Hin. apply Hnot. by right.
  - eapply round_map_absent; [apply materialize_round| |done].
    intros <-. apply Hnot. by left.
Qed.

(** A name that no existing task and no earlier specification bears is not
    in the name map when the round of a specification starts. *)
Lemma stateAfter_name_absent (taskDataList : list TaskData.t) w k (n : string) :
  (forall task, task ∈ existingTasks -> name task <> n) ->
  n ∉ map TaskData.name (take k taskDataList) ->
  taskNameToIdMap (after taskDataList w k) !! n = None.
Proof.
  intros Hall Hnot. unfold stateAfter, materializeAll.
  apply run_map_absent; [done|]. simpl. unfold initialNameMap.
  rewrite recordNames_absent.
  - case_bool_decide; [|done]. by rewrite recordNames_absent.
  - intros task Hin. apply Hall.
    destruct updateMode; simpl in Hin;
      [done|by apply list_elem_of_filter in Hin as [_ ?]..
      |by apply elem_of_nil in Hin].
Qed.

Lemma materialize_create st taskData :
  taskNameToIdMap st !! TaskData.name taskData = None ->
  newTasks (step st taskData) =
    newTasks st ++
    [makeNewTask (uuidv4 (uuidCalls (world st))) taskData globalAnalysisResult
       (Date_now (dateCalls (world st))) (Date_now (S (dateCalls (world st))))].
Proof. intros Hn. unfold materialize. rewrite Hn. by case_bool_decide. Qed.

(** A specification with a name that no existing task and no earlier
    specification bears gets a new task. *)
Lemma fresh_name_round (taskDataList : list TaskData.t) w k taskData :
  taskDataList !! k = Some taskData ->
  (forall task, task ∈ existingTasks -> name task <> TaskData.name taskData) ->
  TaskData.name taskData ∉ map TaskData.name (take k taskDataList) ->
  pushes taskDataList w k
    (makeNewTask (uuidv4 (uuidCalls (world (after taskDataList w k)))) taskData
       globalAnalysisResult
       (Date_now (dateCalls (world (after taskDataList w k))))
       (Date_now (S (dateCalls (world (after taskDataList w k)))))).
Proof.
  intros Hk Hall Hnot. unfold materializedBy. rewrite (stateAfter_S _ _ _ _ Hk).
  apply materialize_create. by apply stateAfter_name_absent.
Qed.

Lemma elem_of_names (taskDataList : list TaskData.t) k taskData :
  taskDataList !! k = Some taskData ->
  TaskData.name taskData ∈ map TaskData.name taskDataList.
Proof.
  intros Hk. change (map TaskData.name taskDataList)
    with (TaskData.name <$> taskDataList).
  apply list_elem_of_fmap. exists taskData. split; [done|].
  by eapply list_elem_of_lookup_2.
Qed.

(** What the round of a specification does in selective mode when an
    existing task bears its name: the name map sends the name to the
    identifier of the last such task, [named], and the round works on the
    first existing task that has this identifier, [task]. *)
Lemma selective_round (taskDataList : list TaskData.t) w k taskData
    (named : Task) i (task : Task) :
  updateMode = selective ->
  taskDataList !! k = Some taskData ->
  lastNamed existingTasks (TaskData.name taskData) = Some named ->
  firstWithId (id named) existingTasks i task ->
  (status task <> COMPLETED ->
   pushes taskDataList w k
     (makeUpdatedTask task taskData globalAnalysisResult
        (Date_now (dateCalls (world (after taskDataList w k)))))) /\
  (status task = COMPLETED -> skips taskDataList w k).
Proof.
  intros Hsel Hk Hlast Hfirst.
  assert (id task = id named) as Hid by apply Hfirst.
  pose proof (findIndex_first _ _ _ _ Hfirst) as Hfind. rewrite <- Hid in Hfind.
  assert (taskNameToIdMap (after taskDataList w k) !! TaskData.name taskData =
          Some (id task)) as Hknown.
  { rewrite Hid. apply selective_name_lookup; try done. by eapply elem_of_names. }
  unfold materializedBy, skippedAt. rewrite (stateAfter_S _ _ _ _ Hk). split.
  - intros Hstatus. by eapply materialize_update.
  - intros Hstatus. by erewrite materialize_skip.
Qed.

(** *** The dependency fix-up loop *)

Lemma existsb_id (tasks : list Task) (d : string) :
  existsb (fun task => bool_decide (id task = d)) tasks =
  bool_decide (d ∈ map id tasks).
Proof.
  induction tasks as [|task tasks IH]; [done|]. cbn [existsb map].
  rewrite IH. destruct (decide (id task = d)) as [<-|Hne].
  - rewrite (bool_decide_eq_true_2 (id task = id task)) by done.
    symmetry. apply bool_decide_eq_true_2. left.
  - rewrite (bool_decide_eq_false_2 (id task = d)) by done. simpl.
    apply bool_decide_ext. rewrite elem_of_cons. naive_solver.
Qed.

Lemma resolveDependency_ids (m : gmap string string) (l1 l2 : list Task) d :
  map id l1 = map id l2 -> resolveDependency m l1 d = resolveDependency m l2 d.
Proof. intros Hids. unfold resolveDependency. by rewrite !existsb_id, Hids. Qed.

Lemma assignDependencies_ids (m : gmap string string) (l1 l2 : list Task)
    taskData task :
  map id l1 = map id l2 ->
  assignDependencies m l1 taskData task = assignDependencies m l2 taskData task.
Proof.
  intros Hids. unfold assignDependencies.
  destruct (TaskData.dependencies taskData) as [[|d deps]|]; try done.
  f_equal. apply (list_omap_ext _ _ (d :: deps) (d :: deps)).
  apply Forall2_same_length_lookup_2; [done|].
  intros i x y Hx Hy. rewrite Hx in Hy. injection Hy as <-.
  by apply resolveDependency_ids.
Qed.

Lemma assignDependencies_id (m : gmap string string) all taskData task :
  id (assignDependencies m all taskData task) = id task.
Proof.
  unfold assignDependencies.
  by destruct (TaskData.dependencies taskData) as [[|d deps]|].
Qed.

Lemma map_id_insert (tasks : list Task) i (task task' : Task) :
  tasks !! i = Some task -> id task' = id task ->
  map id (<[i := task']> tasks) = map id tasks.
Proof.
  intros Hi Hid. change (map id ?l) with (id <$> l).
  rewrite list_fmap_insert, Hid. apply list_insert_id.
  by rewrite list_lookup_fmap, Hi.
Qed.

Lemma handleDependencies_returned (m : gmap string string) (kept : list Task)
    (rest : list TaskData.t) (i0 : nat) (news news' : list Task) :
  handleDependencies m kept rest i0 news = Returned news' ->
  map id news' = map id news /\
  forall p task, news !! p = Some task ->
    news' !! p =
      Some (if decide (p < i0) then task
            else match rest !! (p - i0) with
                 | Some taskData => assignDependencies m (kept ++ news) taskData task
                 | None => task
                 end).
Proof.
  revert i0 news. induction rest as [|taskData rest IH]; intros i0 news Hret.
  - simpl in Hret. injection Hret as <-. split; [done|].
    intros p task Hp. rewrite Hp. by case_decide.
  - simpl in Hret.
    assert (forall news1,
      map id news1 = map id news ->
      (forall p task, news !! p = Some task ->
         news1 !! p = Some (if decide (p = i0)
                            then assignDependencies m (kept ++ news) taskData task
                            else task)) ->
      handleDependencies m kept rest (S i0) news1 = Returned news' ->
      map id news' = map id news /\
      forall p task, news !! p = Some task ->
        news' !! p =
          Some (if decide (p < i0) then task
                else match (taskData :: rest) !! (p - i0) with
                     | Some taskData => assignDependencies m (kept ++ news) taskData task
                     | None => task
                     end)) as Hstep.
    { intros news1 Hids Hnews1 Hret1.
      destruct (IH _ _ Hret1) as [Hids' Hlook]. split; [congruence|].
      intros p task Hp. rewrite (Hlook _ _ (Hnews1 _ _ Hp)).
      f_equal. destruct (decide (p = i0)) as [->|Hne].
      - rewrite decide_True by lia. rewrite decide_False by lia.
        by rewrite Nat.sub_diag.
      - destruct (decide (p < i0)).
        + by rewrite decide_True by lia.
        + rewrite decide_False by lia.
          replace (p - i0) with (S (p - S i0)) by lia. simpl.
          destruct (rest !! (p - S i0)); [|done].
          apply assignDependencies_ids.
          change (map id ?l) with (id <$> l). rewrite !fmap_app. f_equal.
          exact Hids. }
    destruct (TaskData.dependencies taskData) as [[|d deps]|] eqn:Hdeps.
    + apply (Hstep news); [done| |done].
      intros p task Hp. rewrite Hp. f_equal. case_decide; [|done].
      unfold assignDependencies. by rewrite Hdeps.
    + destruct (news !! i0) as [newTask|] eqn:Hi0; [|done].
      eapply Hstep; [| |exact Hret].
      * by apply map_id_insert with newTask.
      * intros p task Hp. destruct (decide (p = i0)) as [->|Hne].
        -- rewrite list_lookup_insert_eq by (by eapply lookup_lt_Some).
           rewrite Hp in Hi0. injection Hi0 as ->.
           unfold assignDependencies. by rewrite Hdeps.
        -- by rewrite list_lookup_insert_ne.
    + apply (Hstep news); [done| |done].
      intros p task Hp. rewrite Hp. f_equal. case_decide; [|done].
      unfold assignDependencies. by rewrite Hdeps.
Qed.

Lemma hasDependencies_cons (taskData : TaskData.t) :
  hasDependencies taskData <->
  exists d deps, TaskData.dependencies taskData = Some (d :: deps).
Proof.
  unfold hasDependencies.
  destruct (TaskData.dependencies taskData) as [[|d deps]|]; split;
    try done; try (by intros (? & ? & [=])). eauto.
Qed.

Lemma handleDependencies_thrown (m : gmap string string) (kept : list Task)
    (rest : list TaskData.t) (i0 : nat) (news : list Task) o taskData :
  rest !! o = Some taskData -> hasDependencies taskData ->
  length news <= i0 + o ->
  handleDependencies m kept rest i0 news = Thrown TypeError.
Proof.
  revert i0 news o. induction rest as [|first rest IH]; intros i0 news o Ho Hdeps Hlen;
    [done|].
  simpl. destruct o as [|o].
  - injection Ho as ->. apply hasDependencies_cons in Hdeps as (d & deps & ->).
    by rewrite lookup_ge_None_2 by lia.
  - simpl in Ho.
    destruct (TaskData.dependencies first) as [[|d deps]|].
    + eapply IH; [done|done|lia].
    + destruct (news !! i0); [|done].
      eapply IH; [done|done|]. rewrite length_insert. lia.
    + eapply IH; [done|done|lia].
Qed.

Lemma handleDependencies_total (m : gmap string string) (kept : list Task)
    (rest : list TaskData.t) (i0 : nat) (news : list Task) :
  (forall o taskData, rest !! o = Some taskData -> hasDependencies taskData ->
                      i0 + o < length news) ->
  exists news', handleDependencies m kept rest i0 news = Returned news'.
Proof.
  revert i0 news. induction rest as [|first rest IH]; intros i0 news Hin; simpl.
  - eauto.
  - assert (forall news1, length news1 = length news ->
              exists news', handleDependencies m kept rest (S i0) news1 = Returned news')
      as Hnext.
    { intros news1 Hlen. apply IH. intros o taskData Ho Hdeps.
      specialize (Hin (S o) taskData Ho Hdeps). lia. }
    destruct (TaskData.dependencies first) as [[|d deps]|] eqn:Hdeps; [by apply Hnext| |by apply Hnext].
    assert (i0 + 0 < length news) as Hi0.
    { apply (Hin 0 first); [done|]. apply hasDependencies_cons. eauto. }
    destruct (lookup_lt_is_Some_2 news i0 ltac:(lia)) as [newTask ->].
    apply Hnext. by rewrite length_insert.
Qed.

(** *** Where the tasks of [newTasks] come from *)

Lemma newTasks_origin (taskDataList : list TaskData.t) w n p task :
  n <= length taskDataList ->
  newTasks (after taskDataList w n) !! p = Some task ->
  exists k, k < n /\ pushes taskDataList w k task /\
            length (newTasks (after taskDataList w k)) = p.
Proof.
  induction n as [|n IH]; intros Hn Hp.
  - unfold stateAfter, materializeAll in Hp. by rewrite take_0 in Hp.
  - destruct (lookup_lt_is_Some_2 taskDataList n ltac:(lia)) as [taskData Hspec].
    pose proof (stateAfter_S _ w _ _ Hspec) as HS.
    destruct (round_newTasks _ _ _
                (materialize_round (after taskDataList w n) taskData)) as [E|[x E]];
      rewrite <- HS in E.
    + rewrite E in Hp. destruct (IH ltac:(lia) Hp) as (k & ? & ? & ?).
      exists k. split_and!; [lia|done|done].
    + rewrite E in Hp.
      destruct (decide (p < length (newTasks (after taskDataList w n)))) as [Hlt|Hge].
      * rewrite lookup_app_l in Hp by done.
        destruct (IH ltac:(lia) Hp) as (k & ? & ? & ?).
        exists k. split_and!; [lia|done|done].
      * rewrite lookup_app_r in Hp by lia.
        destruct (p - length (newTasks (after taskDataList w n))) as [|d] eqn:Ed;
          [|by destruct d].
        injection Hp as <-. exists n. split_and!; [lia|done|lia].
Qed.

(** A round that pushes nothing shifts everything that is pushed later to a
    smaller index. *)
Lemma skipped_then_shifted (taskDataList : list TaskData.t) w j k :
  skips taskDataList w j -> j < k ->
  length (newTasks (after taskDataList w k)) < k.
Proof.
  intros Hskip Hjk.
  pose proof (stateAfter_newTasks_step taskDataList w (S j) k ltac:(lia)) as Hstep.
  unfold skippedAt in Hskip. rewrite Hskip in Hstep.
  pose proof (stateAfter_newTasks_length taskDataList w j). lia.
Qed.

Lemma pushes_not_skips (taskDataList : list TaskData.t) w k task :
  pushes taskDataList w k task -> skips taskDataList w k -> False.
Proof.
  unfold materializedBy, skippedAt. intros -> Heq.
  apply (f_equal length) in Heq. rewrite length_app in Heq. simpl in Heq. lia.
Qed.

(** After a skipped round at [j], the task found at an index [i >= j] of
    [newTasks] was pushed by the round of a later specification. *)
Lemma skipped_then_misaligned (taskDataList : list TaskData.t) w j i task :
  skips taskDataList w j -> j <= i ->
  newTasks (after taskDataList w (length taskDataList)) !! i = Some task ->
  exists k, i < k /\ k < length taskDataList /\ pushes taskDataList w k task.
Proof.
  intros Hskip Hji Hi.
  destruct (newTasks_origin _ _ _ _ _ (Nat.le_refl _) Hi) as (k & Hk & Hpush & Hlen).
  exists k. split_and!; [|done|done].
  destruct (decide (i < k)) as [|Hge]; [done|]. exfalso.
  destruct (decide (j < k)) as [Hjk|Hkj].
  - pose proof (skipped_then_shifted _ _ _ _ Hskip Hjk). lia.
  - pose proof (stateAfter_newTasks_length taskDataList w k).
    assert (k = j) as -> by lia. by eapply pushes_not_skips.
Qed.

(** *** What the names of the map stand for *)

Lemma elem_of_ids_app (v : string) (l1 l2 : list Task) :
  v ∈ map id (l1 ++ l2) <-> v ∈ map id l1 \/ v ∈ map id l2.
Proof.
  change (map id ?l) with (id <$> l). by rewrite fmap_app, elem_of_app.
Qed.

Lemma elem_of_ids (v : string) (l : list Task) :
  v ∈ map id l <-> exists task, task ∈ l /\ id task = v.
Proof.
  change (map id ?l) with (id <$> l). rewrite list_elem_of_fmap. naive_solver.
Qed.

Lemma namesResolve_round st taskData rest st' :
  namesResolve st (taskData :: rest) ->
  Round st taskData st' ->
  length (newTasks st') = S (length (newTasks st)) ->
  namesResolve st' rest.
Proof.
  intros Hinv HR Hlen n v Hn. destruct HR as [Hnew|eid i t Hsel Hknown Hfind Hstatus|];
    simpl in *.
  - destruct (decide (n = TaskData.name taskData)) as [->|Hne].
    + rewrite lookup_insert_eq in Hn. injection Hn as <-.
      left. rewrite !elem_of_ids_app. right. right. simpl. left.
    + rewrite lookup_insert_ne in Hn by done.
      destruct (Hinv n v Hn) as [Hv|[Hsel Hrest]].
      * left. rewrite !elem_of_ids_app in *. tauto.
      * right. split; [done|]. simpl in Hrest.
        apply elem_of_cons in Hrest as [?|?]; done.
  - apply list_find_Some in Hfind as (_ & Hid & _).
    assert (v = eid -> v ∈ map id (filter (fun task => id task <> eid) (tasksToKeep st) ++
                                    newTasks st ++
                                    [makeUpdatedTask t taskData globalAnalysisResult
                                       (Date_now (dateCalls (world st)))])) as Heid.
    { intros ->. rewrite !elem_of_ids_app. right. right. simpl. rewrite Hid. left. }
    destruct (Hinv n v Hn) as [Hv|[_ Hrest]].
    + left. destruct (decide (v = eid)) as [Hv'|Hv']; [by apply Heid|].
      rewrite !elem_of_ids_app in *. destruct Hv as [Hv|Hv]; [|tauto].
      left. apply elem_of_ids in Hv as (task & Hin & <-).
      apply elem_of_ids. exists task. split; [|done].
      by apply list_elem_of_filter.
    + simpl in Hrest. apply elem_of_cons in Hrest as [->|Hrest].
      * left. apply Heid. congruence.
      * right. done.
  - lia.
Qed.

Lemma namesResolve_run (rest : list TaskData.t) st :
  namesResolve st rest ->
  length (newTasks (foldl step st rest)) = length (newTasks st) + length rest ->
  namesResolve (foldl step st rest) [].
Proof.
  revert st. induction rest as [|taskData rest IH]; intros st Hinv Hlen; [done|].
  simpl in *.
  pose proof (run_newTasks_length rest (step st taskData)) as Hrun.
  pose proof (round_newTasks _ _ _ (materialize_round st taskData)) as Hround.
  assert (length (newTasks (step st taskData)) = S (length (newTasks st))) as Hone.
  { destruct Hround as [E|[x E]]; rewrite E in *; rewrite ?length_app in *;
      simpl in *; lia. }
  apply IH; [|lia].
  eapply namesResolve_round; [done|apply materialize_round|done].
Qed.

Lemma namesResolve_initial (taskDataList : list TaskData.t) w :
  namesResolve (after taskDataList w 0) taskDataList.
Proof.
  intros n v. unfold stateAfter, materializeAll. rewrite take_0. simpl.
  rewrite app_nil_r. unfold initialNameMap. rewrite recordNames_lookup.
  destruct (last (filter _ (initialTasksToKeep _ _ _))) as [task|] eqn:Ekept.
  - intros [= <-]. left. apply elem_of_ids. exists task. split; [|done].
    apply last_Some in Ekept as [l Ekept].
    assert (task ∈ filter (fun t => name t = n)
              (initialTasksToKeep updateMode existingTasks taskDataList)) as Hin
      by (rewrite Ekept; in_list).
    by apply list_elem_of_filter in Hin as [_ Hin].
  - case_bool_decide as Hsel; [|by rewrite lookup_empty].
    rewrite recordNames_lookup, lookup_empty.
    destruct (last (filter _ existingTasks)) as [task|] eqn:Eall; [|done].
    intros [= <-]. right. split; [done|].
    apply last_Some in Eall as [l Eall].
    assert (task ∈ filter (fun t => name t = n) existingTasks) as Hin
      by (rewrite Eall; in_list).
    apply list_elem_of_filter in Hin as [Hname Hin].
    destruct (decide (n ∈ map TaskData.name taskDataList)) as [|Hnot]; [done|].
    exfalso. apply last_None in Ekept.
    assert (task ∈ filter (fun t => name t = n)
              (initialTasksToKeep updateMode existingTasks taskDataList)) as Hkept.
    { apply list_elem_of_filter. split; [done|]. rewrite Hsel. simpl.
      apply list_elem_of_filter. split; [|done].
      rewrite elem_of_list_to_set, Hname. done. }
    rewrite Ekept in Hkept. by apply elem_of_nil in Hkept.
Qed.

Lemma namesResolve_final (taskDataList : list TaskData.t) w :
  let st := after taskDataList w (length taskDataList) in
  length (newTasks st) = length taskDataList ->
  forall n v, taskNameToIdMap st !! n = Some v ->
    v ∈ map id (tasksToKeep st ++ newTasks st).
Proof.
  intros st Hlen n v Hn.
  assert (namesResolve st []) as Hinv.
  { subst st. rewrite (stateAfter_run _ _ 0) in * by lia.
    rewrite Nat.sub_0_r, drop_0, firstn_all in *.
    apply namesResolve_run; [apply namesResolve_initial|].
    rewrite Hlen. unfold stateAfter, materializeAll. by rewrite take_0. }
  destruct (Hinv n v Hn) as [?|[_ Hnil]]; [done|]. by apply elem_of_nil in Hnil.
Qed.

Lemma resolveDependency_within (m : gmap string string) (all : list Task) d dep :
  (forall n v, m !! n = Some v -> v ∈ map id all) ->
  resolveDependency m all d = Some dep ->
  TaskDependency.taskId dep ∈ map id all.
Proof.
  intros Hm. unfold resolveDependency. destruct (JS.looksLikeUUID d); simpl.
  - rewrite existsb_id. case_bool_decide; [|done]. by intros [= <-].
  - destruct (m !! d) as [v|] eqn:E; [|done]. intros [= <-]. by eapply Hm.
Qed.

(** *** Kept tasks, and the modes that always create *)

Lemma round_kept_sublist st taskData st' :
  Round st taskData st' -> tasksToKeep st' `sublist_of` tasksToKeep st.
Proof. intros [| |]; simpl; [done|apply sublist_filter|done]. Qed.

Lemma run_kept_sublist (l : list TaskData.t) st :
  tasksToKeep (foldl step st l) `sublist_of` tasksToKeep st.
Proof.
  revert st. induction l as [|taskData l IH]; intros st; [done|].
  simpl. etrans; [apply IH|].
  exact (round_kept_sublist _ _ _ (materialize_round st taskData)).
Qed.

Lemma kept_sublist_existing (taskDataList : list TaskData.t) w k :
  tasksToKeep (after taskDataList w k) `sublist_of` existingTasks.
Proof.
  unfold stateAfter, materializeAll. etrans; [apply run_kept_sublist|]. simpl.
  destruct updateMode; simpl;
    [done|apply sublist_filter|apply sublist_filter|apply sublist_nil_l].
Qed.

(** In selective mode no kept task bears the name of a specification. *)
Lemma kept_outside_batch (taskDataList : list TaskData.t) w k (other : Task) :
  updateMode = selective ->
  other ∈ tasksToKeep (after taskDataList w k) ->
  other ∈ existingTasks /\ name other ∉ map TaskData.name taskDataList.
Proof.
  intros Hsel Hin. unfold stateAfter, materializeAll in Hin.
  eapply elem_of_sublist in Hin; [|apply run_kept_sublist]. simpl in Hin.
  rewrite Hsel in Hin. simpl in Hin.
  apply list_elem_of_filter in Hin as [Hname Hin].
  split; [done|]. by rewrite elem_of_list_to_set in Hname.
Qed.

Lemma creating_run (l : list TaskData.t) st :
  updateMode <> selective ->
  length (newTasks (foldl step st l)) = length (newTasks st) + length l /\
  forall task, task ∈ newTasks (foldl step st l) ->
    task ∈ newTasks st \/ dependencies task = [].
Proof.
  intros Hmode. revert st. induction l as [|taskData l IH]; intros st; simpl.
  - split; [lia|tauto].
  - destruct (IH (step st taskData)) as [Hlen Hdeps].
    destruct (materialize_round st taskData) as [_|? ? ? Hsel|? Hsel]; [|done|done].
    simpl in *. rewrite length_app in Hlen. simpl in Hlen. split; [lia|].
    intros task Hin. destruct (Hdeps task Hin) as [Hold|?]; [|by right].
    apply elem_of_app in Hold as [?|Hnew]; [by left|].
    apply list_elem_of_singleton in Hnew as ->. by right.
Qed.

Lemma batch_unfold (taskDataList : list TaskData.t) w :
  storedTasks w = existingTasks ->
  let st := after taskDataList (ensureDataDir w) (length taskDataList) in
  batchCreateOrUpdateTasks uuidv4 Date_now taskDataList updateMode
    globalAnalysisResult w =
  match handleDependencies (taskNameToIdMap st) (tasksToKeep st) taskDataList 0
          (newTasks st) with
  | Returned news =>
      (Returned news, writeTasks (tasksToKeep st ++ news) (world st))
  | Thrown e => (Thrown e, world st)
  end.
Proof.
  intros Hstored st. unfold batchCreateOrUpdateTasks.
  rewrite readTasks_eq, Hstored. subst st. by rewrite stateAfter_all.
Qed.

Lemma round_world_disk st taskData st' :
  Round st taskData st' ->
  tasksFile (world st') = tasksFile (world st) /\
  memoryDir (world st') = memoryDir (world st).
Proof. by intros [| |]. Qed.

Lemma run_world_disk (l : list TaskData.t) st :
  tasksFile (world (foldl step st l)) = tasksFile (world st) /\
  memoryDir (world (foldl step st l)) = memoryDir (world st).
Proof.
  revert st. induction l as [|taskData l IH]; intros st; [done|]. simpl.
  destruct (IH (step st taskData)) as [-> ->].
  exact (round_world_disk _ _ _ (materialize_round st taskData)).
Qed.

Lemma round_dateCalls st taskData st' :
  Round st taskData st' -> dateCalls (world st) <= dateCalls (world st').
Proof. intros [| |]; simpl; lia. Qed.

Lemma run_dateCalls (l : list TaskData.t) st :
  dateCalls (world st) <= dateCalls (world (foldl step st l)).
Proof.
  revert st. induction l as [|taskData l IH]; intros st; [done|]. simpl.
  etrans; [|apply IH].
  exact (round_dateCalls _ _ _ (materialize_round st taskData)).
Qed.

Lemma stateAfter_dateCalls (taskDataList : list TaskData.t) w k :
  dateCalls w <= dateCalls (world (after taskDataList w k)).
Proof.
  unfold stateAfter, materializeAll.
  etrans; [|apply run_dateCalls]. done.
Qed.

Lemma stateAfter_disk (taskDataList : list TaskData.t) w k :
  tasksFile (world (after taskDataList w k)) = tasksFile w /\
  memoryDir (world (after taskDataList w k)) = memoryDir w.
Proof.
  unfold stateAfter, materializeAll.
  by destruct (run_world_disk (take k taskDataList)
                 {| taskNameToIdMap :=
                      initialNameMap updateMode existingTasks
                        (initialTasksToKeep updateMode existingTasks taskDataList);
                    tasksToKeep :=
                      initialTasksToKeep updateMode existingTasks taskDataList;
                    newTasks := []; world := w |}) as [-> ->].
Qed.

End Batch.

Lemma withDependencies_same (task : Task) :
  withDependencies task (dependencies task) = task.
Proof. by destruct task. Qed.

Lemma withDependencies_twice (task : Task) deps deps' :
  withDependencies (withDependencies task deps) deps' = withDependencies task deps'.
Proof. done. Qed.

Lemma assignDependencies_with (m : gmap string string) all taskData task :
  assignDependencies m all taskData task =
  withDependencies task (dependencies (assignDependencies m all taskData task)).
Proof.
  unfold assignDependencies.
  destruct (TaskData.dependencies taskData) as [[|d deps]|]; simpl;
    by rewrite ?withDependencies_same.
Qed.

Lemma stored_existing (w : World) (task : Task) :
  task ∈ storedTasks w -> ensureDataDir w = w.
Proof.
  intros Hin. destruct (storedTasks w) eqn:E; [by apply elem_of_nil in Hin|].
  by eapply stored_nonempty_existing.
Qed.

(** *** The reconciliation theorems *)

(** C4. In selective mode the name of a specification that an existing task
    bears stands for the first existing task, [task], that carries the
    identifier of the last existing task of that name, [named] (in a store
    of distinct identifiers and names, the one task of that name). When
    [task] is not COMPLETED, the round of the specification pushes an
    updated task with the identifier and [createdAt] of [task], with [name],
    [description], [notes], [implementationGuide] and [verificationCriteria]
    taken from the specification, [analysisResult] from the batch, and
    [updatedAt] read from the clock during the call. When the call returns,
    that task, up to its dependency list, is in the returned list and in the
    store, and the store holds, besides the returned tasks, only existing
    tasks whose name is that of no specification: an existing task of the
    same name that is not the one the name stands for is not kept. *)
Theorem selective_update_keeps_identity
    (uuidv4 : nat -> string) (Date_now : nat -> Z)
    (taskDataList : list TaskData.t) (globalAnalysisResult : option string)
    (w : World) (k : nat) (taskData : TaskData.t)
    (named : Task) (i : nat) (task : Task) :
  taskDataList !! k = Some taskData ->
  lastNamed (storedTasks w) (TaskData.name taskData) = Some named ->
  firstWithId (id named) (storedTasks w) i task ->
  status task <> COMPLETED ->
  exists updatedTask tick,
    materializedBy uuidv4 Date_now selective (storedTasks w) globalAnalysisResult
      taskDataList w k updatedTask /\
    id updatedTask = id task /\
    createdAt updatedTask = createdAt task /\
    name updatedTask = TaskData.name taskData /\
    description updatedTask = TaskData.description taskData /\
    notes updatedTask = TaskData.notes taskData /\
    implementationGuide updatedTask = TaskData.implementationGuide taskData /\
    verificationCriteria updatedTask = TaskData.verificationCriteria taskData /\
    analysisResult updatedTask = globalAnalysisResult /\
    updatedAt updatedTask = Date_now tick /\ dateCalls w <= tick /\
    forall news,
      let r := batchCreateOrUpdateTasks uuidv4 Date_now taskDataList selective
                 globalAnalysisResult w in
      r.1 = Returned news ->
      (exists written,
         written ∈ news /\ written ∈ storedTasks r.2 /\
         written = withDependencies updatedTask (dependencies written)) /\
      (forall other, other ∈ storedTasks r.2 ->
         other ∈ news \/
         (other ∈ storedTasks w /\
          name other ∉ map TaskData.name taskDataList)).
Proof.
  intros Hk Hlast Hfirst Hstatus.
  destruct (lastNamed_Some _ _ _ Hlast) as [Hin Hname].
  pose proof (stored_existing _ _ Hin) as Hw.
  destruct (selective_round uuidv4 Date_now selective (storedTasks w)
              globalAnalysisResult taskDataList w k taskData named i task
              eq_refl Hk Hlast Hfirst) as [Hpush _].
  specialize (Hpush Hstatus).
  set (st := stateAfter uuidv4 Date_now selective (storedTasks w)
               globalAnalysisResult taskDataList w k) in *.
  exists (makeUpdatedTask task taskData globalAnalysisResult
            (Date_now (dateCalls (world st)))), (dateCalls (world st)).
  split_and!; try done.
  { apply stateAfter_dateCalls. }
  intros news r Hret. subst r.
  rewrite (batch_unfold uuidv4 Date_now selective (storedTasks w)) in * by done.
  rewrite Hw in *.
  set (final := stateAfter uuidv4 Date_now selective (storedTasks w)
                  globalAnalysisResult taskDataList w (length taskDataList)) in *.
  destruct (handleDependencies _ _ _ _ _) as [news'|] eqn:Hfix; [|done].
  simpl in Hret. injection Hret as ->.
  apply handleDependencies_returned in Hfix as [_ Hlook].
  pose proof (lookup_lt_Some _ _ _ Hk) as Hlt.
  assert (newTasks final !! length (newTasks st) =
          Some (makeUpdatedTask task taskData globalAnalysisResult
                  (Date_now (dateCalls (world st))))) as Hp.
  { pose proof (stateAfter_newTasks_prefix uuidv4 Date_now selective (storedTasks w)
                  globalAnalysisResult taskDataList w (S k) (length taskDataList)
                  ltac:(lia)) as [rest Hrest].
    fold final in Hrest. rewrite Hrest, Hpush.
    rewrite <- (assoc_L (++)). simpl. by apply list_lookup_middle. }
  specialize (Hlook _ _ Hp). rewrite decide_False in Hlook by lia.
  split.
  - eexists. split_and!.
    + by eapply list_elem_of_lookup_2.
    + simpl. apply elem_of_app. right. by eapply list_elem_of_lookup_2.
    + case_match; [apply assignDependencies_with|].
      by rewrite withDependencies_same.
  - intros other Hother. simpl in Hother.
    apply elem_of_app in Hother as [Hkept|Hnew]; [right|by left].
    by apply (kept_outside_batch uuidv4 Date_now selective (storedTasks w)
                globalAnalysisResult taskDataList w (length taskDataList)).
Qed.

(** C3. The fix-up loop indexes [newTasks] by the position of the
    specification. In selective mode, when the name of the specification at
    index [j] stands for an existing COMPLETED task (the first existing
    task, [task], that carries the identifier of the last existing task of
    that name, [named]), its round pushes nothing and [newTasks] is shorter
    than [taskDataList], while a specification whose name no existing task
    and no earlier specification bears gets a new task. Then, when every
    specification that lists dependencies has an index below
    [newTasks.length], the call returns the tasks of [newTasks], which are
    written after the kept ones, and the resolved dependencies of every
    specification at an index [i >= j] that lists dependencies have been
    assigned to a task that the round of a later specification (index above
    [i], within the batch) pushed; and when a specification that lists dependencies has an
    index of at least [newTasks.length], the call throws the TypeError and
    writes nothing. *)
Theorem selective_completed_match_misaligns
    (uuidv4 : nat -> string) (Date_now : nat -> Z)
    (taskDataList : list TaskData.t) (globalAnalysisResult : option string)
    (w : World) (j : nat) (taskData : TaskData.t)
    (named : Task) (i0 : nat) (task : Task) :
  taskDataList !! j = Some taskData ->
  lastNamed (storedTasks w) (TaskData.name taskData) = Some named ->
  firstWithId (id named) (storedTasks w) i0 task ->
  status task = COMPLETED ->
  let st :=
    materializeAll uuidv4 Date_now selective (storedTasks w) globalAnalysisResult
      taskDataList taskDataList w in
  let r :=
    batchCreateOrUpdateTasks uuidv4 Date_now taskDataList selective
      globalAnalysisResult w in
  skippedAt uuidv4 Date_now selective (storedTasks w) globalAnalysisResult
    taskDataList w j /\
  length (newTasks st) < length taskDataList /\
  (forall l spec,
     taskDataList !! l = Some spec ->
     (forall other, other ∈ storedTasks w -> name other <> TaskData.name spec) ->
     TaskData.name spec ∉ map TaskData.name (take l taskDataList) ->
     let before :=
       stateAfter uuidv4 Date_now selective (storedTasks w) globalAnalysisResult
         taskDataList w l in
     materializedBy uuidv4 Date_now selective (storedTasks w)
       globalAnalysisResult taskDataList w l
       (makeNewTask (uuidv4 (uuidCalls (world before))) spec globalAnalysisResult
          (Date_now (dateCalls (world before)))
          (Date_now (S (dateCalls (world before)))))) /\
  ((forall i later,
      taskDataList !! i = Some later -> hasDependencies later ->
      i < length (newTasks st)) ->
   exists news,
     r.1 = Returned news /\
     length news = length (newTasks st) /\
     storedTasks r.2 = tasksToKeep st ++ news /\
     forall i later,
       j <= i -> taskDataList !! i = Some later -> hasDependencies later ->
       exists l pushed,
         i < l /\ l < length taskDataList /\
         materializedBy uuidv4 Date_now selective (storedTasks w)
           globalAnalysisResult taskDataList w l pushed /\
         news !! i =
           Some (assignDependencies (taskNameToIdMap st)
                   (tasksToKeep st ++ newTasks st) later pushed)) /\
  (forall i later,
     taskDataList !! i = Some later -> hasDependencies later ->
     length (newTasks st) <= i ->
     r.1 = Thrown TypeError /\
     tasksFile r.2 = tasksFile w /\ memoryDir r.2 = memoryDir w).
Proof.
  intros Hj Hlast Hfirst Hstatus st r.
  destruct (lastNamed_Some _ _ _ Hlast) as [Hin Hname].
  pose proof (stored_existing _ _ Hin) as Hw.
  destruct (selective_round uuidv4 Date_now selective (storedTasks w)
              globalAnalysisResult taskDataList w j taskData named i0 task
              eq_refl Hj Hlast Hfirst) as [_ Hskip].
  specialize (Hskip Hstatus).
  pose proof (lookup_lt_Some _ _ _ Hj) as Hlt.
  assert (st = stateAfter uuidv4 Date_now selective (storedTasks w)
                 globalAnalysisResult taskDataList w (length taskDataList)) as Hst
    by (subst st; by rewrite stateAfter_all).
  assert (r = match handleDependencies (taskNameToIdMap st) (tasksToKeep st)
                      taskDataList 0 (newTasks st) with
              | Returned news =>
                  (Returned news, writeTasks (tasksToKeep st ++ news) (world st))
              | Thrown e => (Thrown e, world st)
              end) as Hr.
  { subst r. rewrite (batch_unfold uuidv4 Date_now selective (storedTasks w)) by done.
    by rewrite Hw, <- Hst. }
  split_and!.
  - done.
  - rewrite Hst.
    destruct (decide (S j = length taskDataList)) as [E|E].
    + rewrite <- E, Hskip.
      pose proof (stateAfter_newTasks_length uuidv4 Date_now selective (storedTasks w)
                    globalAnalysisResult taskDataList w j). lia.
    + eapply skipped_then_shifted; [exact Hskip|lia].
  - intros l spec Hl Hnew Hfresh before. by apply fresh_name_round.
  - intros Hfits.
    destruct (handleDependencies_total (taskNameToIdMap st) (tasksToKeep st)
                taskDataList 0 (newTasks st)) as [news Hfix].
    { intros o later Ho Hdeps. simpl. by eapply Hfits. }
    exists news. rewrite Hr, Hfix. cbn [fst snd].
    apply handleDependencies_returned in Hfix as [Hids Hlook].
    split_and!; [done| |done|].
    + apply (f_equal length) in Hids. by rewrite !length_map in Hids.
    + intros i later Hji Hi Hdeps.
      destruct (lookup_lt_is_Some_2 (newTasks st) i) as [pushed Hpushed];
        [by eapply Hfits|].
      specialize (Hlook _ _ Hpushed). rewrite decide_False in Hlook by lia.
      rewrite Nat.sub_0_r, Hi in Hlook. rewrite Hst in Hpushed.
      destruct (skipped_then_misaligned _ _ _ _ _ _ _ _ _ _ Hskip Hji Hpushed)
        as (l & Hil & Hl & Hpush).
      by exists l, pushed.
  - intros i later Hi Hdeps Hlen. rewrite Hr.
    rewrite (handleDependencies_thrown _ _ _ _ _ i later); [|done..|lia].
    simpl. split; [done|]. rewrite Hst. apply stateAfter_disk.
Qed.

Lemma assigned_within (m : gmap string string) (kept news news' : list Task)
    (taskData : TaskData.t) (task : Task) :
  (forall n v, m !! n = Some v -> v ∈ map id (kept ++ news)) ->
  map id news' = map id news ->
  hasDependencies taskData ->
  dependenciesWithin (kept ++ news')
    (assignDependencies m (kept ++ news) taskData task).
Proof.
  intros Hm Hids Hdeps dep Hdep.
  apply hasDependencies_cons in Hdeps as (d & deps & Hdeps).
  unfold assignDependencies in Hdep. rewrite Hdeps in Hdep. simpl in Hdep.
  change (dep ∈ omap (resolveDependency m (kept ++ news)) (d :: deps)) in Hdep.
  apply list_elem_of_omap in Hdep as (x & _ & Hx).
  apply (resolveDependency_within _ _ _ _ Hm) in Hx.
  apply elem_of_ids. apply elem_of_ids_app. apply elem_of_ids_app in Hx.
  by rewrite Hids.
Qed.

(** C1, as the code has it. In append, overwrite and clearAllTasks modes the
    call returns one task for each specification, and every dependency of
    every returned task is the identifier of a task of the persisted set. In
    every mode, when the call returns one task for each specification, the
    same holds for the returned task of every specification that lists
    dependencies. The persisted set is the kept tasks followed by the
    returned ones, and the kept tasks are tasks of the previous store,
    written back as they were. *)
Theorem reconciliation_dependencies_resolve
    (uuidv4 : nat -> string) (Date_now : nat -> Z)
    (taskDataList : list TaskData.t) (updateMode : UpdateMode)
    (globalAnalysisResult : option string) (w : World) :
  let r :=
    batchCreateOrUpdateTasks uuidv4 Date_now taskDataList updateMode
      globalAnalysisResult w in
  (updateMode <> selective ->
   exists news,
     r.1 = Returned news /\ length news = length taskDataList /\
     forall task, task ∈ news -> dependenciesWithin (storedTasks r.2) task) /\
  (forall news,
     r.1 = Returned news -> length news = length taskDataList ->
     forall i taskData task,
       taskDataList !! i = Some taskData -> hasDependencies taskData ->
       news !! i = Some task ->
       dependenciesWithin (storedTasks r.2) task) /\
  (forall news,
     r.1 = Returned news ->
     exists kept,
       storedTasks r.2 = kept ++ news /\ kept `sublist_of` storedTasks w).
Proof.
  intros r.
  set (st := stateAfter uuidv4 Date_now updateMode (storedTasks w)
               globalAnalysisResult taskDataList (ensureDataDir w)
               (length taskDataList)).
  assert (r = match handleDependencies (taskNameToIdMap st) (tasksToKeep st)
                      taskDataList 0 (newTasks st) with
              | Returned news =>
                  (Returned news, writeTasks (tasksToKeep st ++ news) (world st))
              | Thrown e => (Thrown e, world st)
              end) as Hr
    by (subst r; by rewrite (batch_unfold uuidv4 Date_now updateMode (storedTasks w))).
  assert (forall news,
            handleDependencies (taskNameToIdMap st) (tasksToKeep st) taskDataList 0
              (newTasks st) = Returned news ->
            length news = length taskDataList ->
            forall i taskData task,
              taskDataList !! i = Some taskData -> hasDependencies taskData ->
              news !! i = Some task ->
              dependenciesWithin (tasksToKeep st ++ news) task) as Haligned.
  { intros news Hfix Hlen i taskData task Hi Hdeps Htask.
    apply handleDependencies_returned in Hfix as [Hids Hlook].
    assert (length (newTasks st) = length taskDataList) as Hlen'.
    { rewrite <- Hlen, <- (length_map id news), Hids. by rewrite length_map. }
    pose proof (lookup_lt_Some _ _ _ Hi) as Hlt.
    destruct (lookup_lt_is_Some_2 (newTasks st) i ltac:(lia)) as [pushed Hpushed].
    specialize (Hlook _ _ Hpushed). rewrite decide_False in Hlook by lia.
    rewrite Nat.sub_0_r, Hi, Htask in Hlook. injection Hlook as ->.
    apply assigned_within; [|done|done].
    by apply namesResolve_final. }
  split_and!.
  - intros Hmode.
    destruct (creating_run uuidv4 Date_now updateMode (storedTasks w)
                globalAnalysisResult (take (length taskDataList) taskDataList)
                {| taskNameToIdMap :=
                     initialNameMap updateMode (storedTasks w)
                       (initialTasksToKeep updateMode (storedTasks w) taskDataList);
                   tasksToKeep :=
                     initialTasksToKeep updateMode (storedTasks w) taskDataList;
                   newTasks := []; world := ensureDataDir w |} Hmode)
      as [Hlen Hfresh].
    change (foldl _ _ _) with st in Hlen, Hfresh.
    simpl in Hlen. rewrite firstn_all in Hlen.
    destruct (handleDependencies_total (taskNameToIdMap st) (tasksToKeep st)
                taskDataList 0 (newTasks st)) as [news Hfix].
    { intros o taskData Ho _. apply lookup_lt_Some in Ho. lia. }
    pose proof (handleDependencies_returned _ _ _ _ _ _ Hfix) as [Hids Hlook].
    assert (length news = length taskDataList) as Hnews.
    { rewrite <- Hlen, <- (length_map id news), Hids. by rewrite length_map. }
    exists news. rewrite Hr, Hfix. simpl. split_and!; [done|done|].
    intros task [p Hp]%list_elem_of_lookup.
    pose proof (lookup_lt_Some _ _ _ Hp) as Hlt.
    destruct (lookup_lt_is_Some_2 taskDataList p ltac:(lia)) as [taskData Hspec].
    destruct (TaskData.dependencies taskData) as [[|d deps]|] eqn:Hdeps.
    2:{ eapply Haligned; try done. apply hasDependencies_cons. eauto. }
    all: destruct (lookup_lt_is_Some_2 (newTasks st) p ltac:(lia)) as [pushed Hpushed].
    all: specialize (Hlook _ _ Hpushed); rewrite decide_False in Hlook by lia.
    all: rewrite Nat.sub_0_r, Hspec, Hp in Hlook; injection Hlook as ->.
    all: unfold assignDependencies; rewrite Hdeps.
    all: destruct (Hfresh pushed) as [Hnil|Hnone];
      [by eapply list_elem_of_lookup_2|by apply elem_of_nil in Hnil|].
    all: intros dep Hdep; rewrite Hnone in Hdep; by apply elem_of_nil in Hdep.
  - intros news Hret Hlen. rewrite Hr in *.
    destruct (handleDependencies _ _ _ _ _) as [news'|] eqn:Hfix; [|done].
    simpl in Hret. injection Hret as ->. simpl. by apply Haligned.
  - intros news Hret. rewrite Hr in *.
    destruct (handleDependencies _ _ _ _ _) as [news'|] eqn:Hfix; [|done].
    simpl in Hret. injection Hret as ->. simpl.
    exists (tasksToKeep st). split; [done|]. apply kept_sublist_existing.
Qed.

(** * Worked examples *)

Lemma first_at_head (task : Task) (tasks : list Task) :
  firstWithId (id task) (task :: tasks) 0 task.
Proof. split_and!; [done|done|]. intros j other _ Hlt. lia. Qed.

(** C6 at a store whose first task is COMPLETED: a status update is
    rejected and a summary update is accepted. *)
Lemma completed_task_update_guard_witness :
  firstWithId idX (storedTasks (sampleWorld [doneX; openY])) 0 doneX /\
  status doneX = COMPLETED /\
  (updateTaskStatus sampleClock idX IN_PROGRESS (sampleWorld [doneX; openY])).1 = None /\
  summary <$> (updateTaskSummary sampleClock idX "all done"
                 (sampleWorld [doneX; openY])).1 = Some (Some "all done").
Proof.
  pose proof (completed_task_update_guard sampleClock idX
                (sampleWorld [doneX; openY]) 0 doneX
                (first_at_head doneX [openY]) eq_refl) as (_ & _ & Hstatus & Hsummary).
  split_and!.
  - apply (first_at_head doneX [openY]).
  - reflexivity.
  - apply (Hstatus IN_PROGRESS).
  - unfold updateTaskSummary.
    destruct (Hsummary (TaskUpdates.mk None None None None None None None None None
                          (Some "all done") None None None None)) as [-> _];
      [|reflexivity].
    intros field Hin. vm_compute in Hin.
    apply list_elem_of_singleton in Hin. by left.
Defined.

(** C7 at a store where two other tasks depend on the task to delete: the
    message is the one below, and the name and identifier of the dependent
    "Z" occur in it. *)
Lemma deleteTask_outcomes_witness :
  deleteTask idY (sampleWorld [needsY; openY; openZ]) =
    (DeleteResult.mk false
       ("Cannot delete this task because the following tasks depend on it: " +:+
        doubleQuote +:+ "X" +:+ doubleQuote +:+
        " (ID: 11111111-1111-4111-8111-111111111111), " +:+
        doubleQuote +:+ "Z" +:+ doubleQuote +:+
        " (ID: 33333333-3333-4333-8333-333333333333)"),
     sampleWorld [needsY; openY; openZ]) /\
  occursIn "Z"
    (DeleteResult.message (deleteTask idY (sampleWorld [needsY; openY; openZ])).1) /\
  occursIn idZ
    (DeleteResult.message (deleteTask idY (sampleWorld [needsY; openY; openZ])).1) /\
  (deleteTask idZ (sampleWorld [needsY; openY; openZ])).1 =
    DeleteResult.mk true "Task deleted successfully" /\
  storedTasks (deleteTask idZ (sampleWorld [needsY; openY; openZ])).2 =
    [needsY; openY].
Proof.
  assert (firstWithId idY (storedTasks (sampleWorld [needsY; openY; openZ]))
            1 openY) as Hfirst.
  { split_and!; [done|done|].
    intros j other Hj Hlt. assert (j = 0) as -> by lia.
    injection Hj as <-. discriminate. }
  destruct (deleteTask_outcomes idY (sampleWorld [needsY; openY; openZ]))
    as [_ Hblocked].
  destruct (Hblocked 1 openY Hfirst) as (_ & _ & Href & _).
  destruct Href as [Hr Hnames]; [discriminate|vm_compute; discriminate|].
  destruct (Hnames 2 openZ) as (Hname & Hid & _);
    [reflexivity|lia|by apply Exists_cons_hd|].
  split; [rewrite Hr; by vm_compute|].
  split; [exact Hname|]. split; [exact Hid|].
  split.
  - destruct (deleteTask_outcomes idZ (sampleWorld [needsY; openY; openZ]))
      as [_ Hfound].
    destruct (Hfound 2 openZ) as (_ & _ & _ & Hdel).
    + split_and!; [done|done|].
      intros j other Hj Hlt. destruct j as [|[|j]]; [| |lia];
        injection Hj as <-; discriminate.
    + destruct Hdel as (H1 & H2 & _); [discriminate|by vm_compute|].
      exact H1.
  - destruct (deleteTask_outcomes idZ (sampleWorld [needsY; openY; openZ]))
      as [_ Hfound].
    destruct (Hfound 2 openZ) as (_ & _ & _ & Hdel).
    + split_and!; [done|done|].
      intros j other Hj Hlt. destruct j as [|[|j]]; [| |lia];
        injection Hj as <-; discriminate.
    + destruct Hdel as (H1 & H2 & _); [discriminate|by vm_compute|].
      exact H2.
Defined.

(** C8 at a store with one COMPLETED and one PENDING task. *)
Lemma clearAllTasks_archives_completed_witness :
  storedTasks (sampleWorld [doneX; openY]) <> [] /\
  ClearResult.backupFile
    (clearAllTasks sampleClock sampleISO (sampleWorld [doneX; openY])).1 =
    Some "tasks_memory_2025-01-02T03-04-05.json" /\
  memoryDir (clearAllTasks sampleClock sampleISO (sampleWorld [doneX; openY])).2
    !! "tasks_memory_2025-01-02T03-04-05.json" = Some [doneX] /\
  tasksFile (clearAllTasks sampleClock sampleISO (sampleWorld [doneX; openY])).2 =
    Some [].
Proof.
  assert (storedTasks (sampleWorld [doneX; openY]) <> []) as Hne by discriminate.
  destruct (clearAllTasks_archives_completed sampleClock sampleISO
              (sampleWorld [doneX; openY])) as [_ Hfull].
  destruct (Hfull Hne) as (_ & Hfile & _ & Harchive & _ & Hlive).
  split_and!; [exact Hne|exact Hfile|exact Harchive|exact Hlive].
Defined.

(** C9 at a store of twelve matching tasks. *)
Lemma search_pagination_witness :
  length (combinedResults [] "login" false (storedTasks (sampleWorld twelveTasks))) = 12 /\
  Pagination.currentPage
    (SearchResult.pagination
       (searchTasksWithCommand [] "login" false 99 5 (sampleWorld twelveTasks)).1) = 3%Z /\
  length (SearchResult.tasks
            (searchTasksWithCommand [] "login" false 99 5 (sampleWorld twelveTasks)).1) = 2.
Proof.
  assert (length (combinedResults [] "login" false
                    (storedTasks (sampleWorld twelveTasks))) = 12) as Hlen
    by (vm_compute; reflexivity).
  destruct (search_pagination [] "login" false (sampleWorld twelveTasks))
    as [Htwelve _].
  destruct (Htwelve Hlen) as (_ & _ & H3 & Hlen3 & H99).
  split_and!; [exact Hlen| |].
  - rewrite H99, H3. reflexivity.
  - rewrite H99. exact Hlen3.
Defined.

(** C10 at the store of the specification's example. *)
Lemma keyword_search_matches_every_token_witness :
  filterCurrentTasks [loginBug; loginOnly] "login bug" false = [loginBug].
Proof.
  destruct (keyword_search_matches_every_token [] EmptyString loginBug)
    as [_ Hexample].
  apply Hexample.
  - apply includes_spec. vm_compute. reflexivity.
  - apply includes_spec. vm_compute. reflexivity.
  - intros field Hin Hocc. apply includes_spec in Hocc.
    vm_compute in Hin.
    apply elem_of_cons in Hin as [->|Hin]; [vm_compute in Hocc; discriminate|].
    apply list_elem_of_singleton in Hin as ->. vm_compute in Hocc. discriminate.
Defined.

(** C5 at a store that does not exist yet. *)
Lemma forward_name_reference_resolves_witness :
  map (fun task => (name task, map TaskDependency.taskId (dependencies task)))
    (storedTasks
       (batchCreateOrUpdateTasks sampleUuid sampleClock
          [sampleSpec "A" (Some ["B"]); sampleSpec "B" None] append None
          {| tasksFile := None; memoryDir := ∅; uuidCalls := 0; dateCalls := 0 |}).2) =
  [("A", [sampleUuid 1]); ("B", [])].
Proof.
  destruct (forward_name_reference_resolves sampleUuid sampleClock
              {| tasksFile := None; memoryDir := ∅; uuidCalls := 0; dateCalls := 0 |}
              "a description of the work" "a description of the work"
              None None None None None None None None None eq_refl)
    as (_ & Hstored & _).
  unfold sampleSpec. rewrite Hstored. reflexivity.
Defined.

(** C4 at a store with one task in progress, updated by name. *)
Lemma selective_update_keeps_identity_witness :
  exists written,
    (batchCreateOrUpdateTasks sampleUuid sampleClock
       [sampleSpec "X" None; sampleSpec "W" (Some ["X"])] selective
       (Some "analysis") (sampleWorld [staleX; openY])).1 =
      Returned
        [written;
         withDependencies
           (makeNewTask (sampleUuid 0) (sampleSpec "W" (Some ["X"]))
              (Some "analysis") (sampleClock 1) (sampleClock 2))
           [TaskDependency.mk idX]] /\
    id written = idX /\ createdAt written = createdAt staleX /\
    description written = "a description of the work" /\
    updatedAt written = sampleClock 0 /\
    analysisResult written = Some "analysis".
Proof.
  destruct (selective_update_keeps_identity sampleUuid sampleClock
              [sampleSpec "X" None; sampleSpec "W" (Some ["X"])] (Some "analysis")
              (sampleWorld [staleX; openY]) 0 (sampleSpec "X" None)
              staleX 0 staleX)
    as (updatedTask & tick & Hpush & Hid & Hcreated & _ & Hdesc & _ & _ & _ & _ &
        Hupdated & _ & Hret).
  - reflexivity.
  - reflexivity.
  - apply (first_at_head staleX [openY]).
  - discriminate.
  - exists updatedTask.
    assert (updatedTask =
            makeUpdatedTask staleX (sampleSpec "X" None) (Some "analysis")
              (sampleClock 0)) as ->.
    { unfold materializedBy in Hpush. vm_compute in Hpush.
      injection Hpush as <-. by vm_compute. }
    by vm_compute.
Defined.

(** C4 as stated fails: the task "X" in progress bears the name of the
    specification and is not COMPLETED, but the name stands for the
    COMPLETED task of that name stored after it. No task is updated, and
    the task in progress is not kept either. *)
Lemma selective_update_misses_earlier_namesake :
  name openX = TaskData.name (sampleSpec "X" None) /\
  status openX = IN_PROGRESS /\
  batchCreateOrUpdateTasks sampleUuid sampleClock [sampleSpec "X" None] selective
    None (sampleWorld [openX; doneTwinX; openY]) =
  (Returned [], sampleWorld [openY]).
Proof. by vm_compute. Qed.

(** C3 at a store with one COMPLETED task whose name is reused by the
    batch. With the specifications "X", "W" (which depends on "V") and "V",
    the call returns two tasks: the dependency of "W" on "V" lands on the
    task made for "V", which then depends on itself, and "W" has none. With
    the specifications "X" and "W" (which depends on "X"), the second
    specification has no task at its position and the call throws. *)
Lemma selective_completed_match_misaligns_witness :
  (batchCreateOrUpdateTasks sampleUuid sampleClock
     [sampleSpec "X" None; sampleSpec "W" (Some ["V"]); sampleSpec "V" None]
     selective None (sampleWorld [doneX])).1 =
  Returned
    [makeNewTask (sampleUuid 0) (sampleSpec "W" (Some ["V"])) None
       (sampleClock 0) (sampleClock 1);
     withDependencies
       (makeNewTask (sampleUuid 1) (sampleSpec "V" None) None
          (sampleClock 2) (sampleClock 3))
       [TaskDependency.mk (sampleUuid 1)]] /\
  (batchCreateOrUpdateTasks sampleUuid sampleClock
     [sampleSpec "X" None; sampleSpec "W" (Some ["X"])] selective None
     (sampleWorld [doneX; openY])).1 = Thrown TypeError /\
  storedTasks
    (batchCreateOrUpdateTasks sampleUuid sampleClock
       [sampleSpec "X" None; sampleSpec "W" (Some ["X"])] selective None
       (sampleWorld [doneX; openY])).2 = [doneX; openY].
Proof.
  split.
  - destruct (selective_completed_match_misaligns sampleUuid sampleClock
                [sampleSpec "X" None; sampleSpec "W" (Some ["V"]); sampleSpec "V" None]
                None (sampleWorld [doneX]) 0 (sampleSpec "X" None) doneX 0 doneX)
      as (_ & _ & Hnew & Hret & _).
    + reflexivity.
    + reflexivity.
    + apply (first_at_head doneX []).
    + reflexivity.
    + destruct Hret as (news & Hr & Hlen & _ & Hassigned).
      { intros [|[|[|i]]] later Hi Hdeps; try discriminate Hi;
          injection Hi as <-; try (by destruct Hdeps).
        vm_compute. lia. }
      destruct (Hassigned 1 (sampleSpec "W" (Some ["V"])))
        as (l & pushed & Hl & Hlast & Hpush & Hat); [lia|reflexivity|exact I|].
      assert (l = 2) as -> by (simpl in Hlast; lia).
      unfold materializedBy in Hpush. vm_compute in Hpush.
      injection Hpush as <-.
      destruct news as [|first [|second [|? ?]]]; try discriminate Hlen.
      injection Hat as ->.
      rewrite Hr. clear Hassigned Hlen Hnew. vm_compute in Hr.
      injection Hr as <-. by vm_compute.
  - destruct (selective_completed_match_misaligns sampleUuid sampleClock
                [sampleSpec "X" None; sampleSpec "W" (Some ["X"])] None
                (sampleWorld [doneX; openY]) 0 (sampleSpec "X" None) doneX 0 doneX)
      as (_ & _ & _ & _ & Hthrow).
    + reflexivity.
    + reflexivity.
    + apply (first_at_head doneX [openY]).
    + reflexivity.
    + destruct (Hthrow 1 (sampleSpec "W" (Some ["X"]))) as (Hr & Hfile & _).
      * reflexivity.
      * exact I.
      * vm_compute. lia.
      * split; [exact Hr|]. unfold storedTasks. by rewrite Hfile.
Defined.

(** C3 as stated fails: the name of the first specification is that of the
    COMPLETED task stored first, but it stands for the task in progress
    stored after it. That task is updated and pushed, [newTasks] is as long
    as the batch, and the dependency of "W" on "X" is assigned to the task
    made for "W". *)
Lemma selective_completed_namesake_is_updated :
  name doneTwinX = TaskData.name (sampleSpec "X" None) /\
  status doneTwinX = COMPLETED /\
  length
    (newTasks
       (materializeAll sampleUuid sampleClock selective [doneTwinX; openX] None
          [sampleSpec "X" None; sampleSpec "W" (Some ["X"])]
          [sampleSpec "X" None; sampleSpec "W" (Some ["X"])]
          (sampleWorld [doneTwinX; openX]))) = 2 /\
  (batchCreateOrUpdateTasks sampleUuid sampleClock
     [sampleSpec "X" None; sampleSpec "W" (Some ["X"])] selective None
     (sampleWorld [doneTwinX; openX])).1 =
  Returned
    [makeUpdatedTask openX (sampleSpec "X" None) None (sampleClock 0);
     withDependencies
       (makeNewTask (sampleUuid 0) (sampleSpec "W" (Some ["X"])) None
          (sampleClock 1) (sampleClock 2))
       [TaskDependency.mk idX]] /\
  storedTasks
    (batchCreateOrUpdateTasks sampleUuid sampleClock
       [sampleSpec "X" None; sampleSpec "W" (Some ["X"])] selective None
       (sampleWorld [doneTwinX; openX])).2 =
  [makeUpdatedTask openX (sampleSpec "X" None) None (sampleClock 0);
   withDependencies
     (makeNewTask (sampleUuid 0) (sampleSpec "W" (Some ["X"])) None
        (sampleClock 1) (sampleClock 2))
     [TaskDependency.mk idX]].
Proof. by vm_compute. Qed.

(** C2 on the code: in selective mode a specification named like the only
    existing task, which is COMPLETED, yields no task at all, and the
    completed task is dropped from the store. *)
Theorem selective_completed_match_creates_nothing :
  batchCreateOrUpdateTasks sampleUuid sampleClock [sampleSpec "X" None] selective
    None (sampleWorld [doneX]) =
  (Returned [], sampleWorld []).
Proof. by vm_compute. Qed.

(** C1 as stated fails: in overwrite mode the kept COMPLETED task "X" still
    depends on "Y", which is not kept. *)
Lemma overwrite_leaves_dangling_dependency :
  storedTasks
    (batchCreateOrUpdateTasks sampleUuid sampleClock [sampleSpec "N" None]
       overwrite None (sampleWorld [doneX; openY])).2 =
    [doneX;
     makeNewTask (sampleUuid 0) (sampleSpec "N" None) None
       (sampleClock 0) (sampleClock 1)] /\
  ~ (forall task,
       task ∈ storedTasks
                (batchCreateOrUpdateTasks sampleUuid sampleClock
                   [sampleSpec "N" None] overwrite None
                   (sampleWorld [doneX; openY])).2 ->
       dependenciesWithin
         (storedTasks
            (batchCreateOrUpdateTasks sampleUuid sampleClock
               [sampleSpec "N" None] overwrite None
               (sampleWorld [doneX; openY])).2) task).
Proof.
  assert (storedTasks
            (batchCreateOrUpdateTasks sampleUuid sampleClock [sampleSpec "N" None]
               overwrite None (sampleWorld [doneX; openY])).2 =
          [doneX;
           makeNewTask (sampleUuid 0) (sampleSpec "N" None) None
             (sampleClock 0) (sampleClock 1)]) as E by (by vm_compute).
  split; [exact E|]. rewrite E. intros Hall.
  destruct (Hall doneX ltac:(left) (TaskDependency.mk idY) ltac:(left))
    as (target & Hin & Hid).
  apply elem_of_cons in Hin as [->|Hin]; [discriminate|].
  apply list_elem_of_singleton in Hin as ->. discriminate.
Qed.

(** C1 as amended, at the forward reference of C5 in append mode. *)
Lemma reconciliation_dependencies_resolve_witness :
  exists news,
    (batchCreateOrUpdateTasks sampleUuid sampleClock
       [sampleSpec "A" (Some ["B"]); sampleSpec "B" None] append None
       (sampleWorld [doneX; openY])).1 = Returned news /\
    length news = 2 /\
    forall task, task ∈ news ->
      dependenciesWithin
        (storedTasks
           (batchCreateOrUpdateTasks sampleUuid sampleClock
              [sampleSpec "A" (Some ["B"]); sampleSpec "B" None] append None
              (sampleWorld [doneX; openY])).2) task.
Proof.
  destruct (reconciliation_dependencies_resolve sampleUuid sampleClock
              [sampleSpec "A" (Some ["B"]); sampleSpec "B" None] append None
              (sampleWorld [doneX; openY])) as (Hcreate & _ & _).
  apply Hcreate. discriminate.
Defined.

(** * More properties of the task model *)

(** ** Lookups *)

Lemma getTaskById_eq (taskId : string) (w : World) :
  getTaskById taskId w =
  (snd <$> findIndex (fun task => id task = taskId) (storedTasks w),
   ensureDataDir w).
Proof. unfold getTaskById. by rewrite readTasks_eq. Qed.

Lemma findIndex_cases (taskId : string) (tasks : list Task) :
  (findIndex (fun task => id task = taskId) tasks = None /\
   forall task, task ∈ tasks -> id task <> taskId) \/
  (exists i task, findIndex (fun task => id task = taskId) tasks = Some (i, task) /\
                  firstWithId taskId tasks i task).
Proof.
  unfold findIndex.
  destruct (list_find _ tasks) as [[i task]|] eqn:E.
  - right. exists i, task. split; [done|].
    apply list_find_Some in E as (Hi & Hid & Hfirst). by split_and!.
  - left. split; [done|]. apply list_find_None in E.
    by rewrite Forall_forall in E.
Qed.

Lemma firstWithId_elem_of taskId tasks i task :
  firstWithId taskId tasks i task -> task ∈ tasks.
Proof. intros (Hi & _). by eapply list_elem_of_lookup_2. Qed.

Lemma firstWithId_existing taskId w i task :
  firstWithId taskId (storedTasks w) i task -> ensureDataDir w = w.
Proof. intros H. eapply stored_existing, firstWithId_elem_of, H. Qed.

Lemma firstWithId_unique taskId tasks i j task other :
  firstWithId taskId tasks i task -> firstWithId taskId tasks j other ->
  i = j /\ task = other.
Proof.
  intros (Hi & Hid & Hfirst) (Hj & Hid' & Hfirst').
  assert (i = j) as ->.
  { destruct (Nat.lt_trichotomy i j) as [Hlt|[->|Hlt]]; [|done|].
    - by destruct (Hfirst' _ _ Hi Hlt).
    - by destruct (Hfirst _ _ Hj Hlt). }
  split; [done|]. congruence.
Qed.

Lemma getTaskById_first taskId w i task :
  firstWithId taskId (storedTasks w) i task ->
  getTaskById taskId w = (Some task, w).
Proof.
  intros Hfirst. rewrite getTaskById_eq, (findIndex_first _ _ _ _ Hfirst).
  by rewrite (firstWithId_existing _ _ _ _ Hfirst).
Qed.

Lemma getTaskById_absent taskId w :
  (forall task, task ∈ storedTasks w -> id task <> taskId) ->
  getTaskById taskId w = (None, ensureDataDir w).
Proof. intros Habs. by rewrite getTaskById_eq, (findIndex_absent _ _ Habs). Qed.

Lemma ensureDataDir_uuidCalls w : uuidCalls (ensureDataDir w) = uuidCalls w.
Proof. unfold ensureDataDir. by destruct (tasksFile w). Qed.

Lemma ensureDataDir_dateCalls w : dateCalls (ensureDataDir w) = dateCalls w.
Proof. unfold ensureDataDir. by destruct (tasksFile w). Qed.

Lemma filter_none {A} (P : A -> Prop) `{!forall x, Decision (P x)} (l : list A) :
  (forall x, x ∈ l -> ~ P x) -> filter P l = [].
Proof.
  induction l as [|x l IH]; intros Hnone; [done|].
  rewrite filter_cons_False by (apply Hnone; left).
  apply IH. intros y Hy. apply Hnone. by right.
Qed.

Lemma delete_last {A} (l : list A) (x : A) : delete (length l) (l ++ [x]) = l.
Proof. induction l as [|y l IH]; [done|]. simpl. by rewrite IH. Qed.

Lemma deleteTask_removes (taskId : string) (w : World) (i : nat) (task : Task) :
  firstWithId taskId (storedTasks w) i task ->
  status task <> COMPLETED ->
  filter (dependsOn taskId) (delete i (storedTasks w)) = [] ->
  deleteTask taskId w =
    (DeleteResult.mk true "Task deleted successfully",
     writeTasks (delete i (storedTasks w)) w).
Proof.
  intros Hfirst Hstatus Hnone. unfold deleteTask.
  rewrite readTasks_eq, (findIndex_first _ _ _ _ Hfirst).
  rewrite (firstWithId_existing _ _ _ _ Hfirst).
  rewrite bool_decide_eq_false_2 by done. by rewrite Hnone.
Qed.

Section StoreOperations.
Variable uuidv4 : nat -> string.
Variable Date_now : nat -> Z.

(** ** createTask *)

Lemma createTask_appends (taskName text : string) (taskNotes : option string)
    (deps : list string) (files : option (list RelatedFile.t)) (w : World) :
  let r := createTask uuidv4 Date_now taskName text taskNotes deps files w in
  storedTasks r.2 = storedTasks w ++ [r.1] /\
  memoryDir r.2 = memoryDir w /\
  id r.1 = uuidv4 (uuidCalls w) /\
  status r.1 = PENDING /\
  map TaskDependency.taskId (dependencies r.1) = deps.
Proof.
  intros r. subst r. unfold createTask. rewrite readTasks_eq. simpl.
  rewrite storedTasks_writeTasks, !ensureDataDir_memoryDir.
  rewrite ensureDataDir_uuidCalls. split_and!; try done.
  - change (map ?f ?l) with (f <$> l). rewrite <- list_fmap_compose.
    apply list_fmap_id.
Qed.

(** X1. [createTask] appends one PENDING task to the stored collection; its
    identifier is the next value of [uuidv4()]. When no stored task has that
    identifier, [getTaskById] finds the new task under it, and every other
    identifier is looked up as before. The archive is not touched. *)
Theorem createTask_then_getTaskById (taskName text : string)
    (taskNotes : option string) (deps : list string)
    (files : option (list RelatedFile.t)) (w : World) :
  let r := createTask uuidv4 Date_now taskName text taskNotes deps files w in
  (forall task, task ∈ storedTasks w -> id task <> uuidv4 (uuidCalls w)) ->
  storedTasks r.2 = storedTasks w ++ [r.1] /\
  memoryDir r.2 = memoryDir w /\
  id r.1 = uuidv4 (uuidCalls w) /\
  status r.1 = PENDING /\
  (getTaskById (id r.1) r.2).1 = Some r.1 /\
  forall other, other <> id r.1 ->
    (getTaskById other r.2).1 = (getTaskById other w).1.
Proof.
  intros r Hfresh.
  destruct (createTask_appends taskName text taskNotes deps files w)
    as (Hstored & Hmem & Hid & Hstatus & _).
  fold r in Hstored, Hmem, Hid, Hstatus.
  split_and!; try done.
  - rewrite Hid, getTaskById_eq, Hstored. simpl. unfold findIndex.
    rewrite list_find_app_r
      by (apply list_find_None, Forall_forall; exact Hfresh).
    simpl. by rewrite decide_True.
  - intros other Hother. rewrite !getTaskById_eq, Hstored. simpl. unfold findIndex.
    destruct (list_find (fun task => id task = other) (storedTasks w))
      as [[i task]|] eqn:E.
    + by rewrite (list_find_app_l _ _ _ _ _ E).
    + rewrite list_find_app_r by done. simpl. by rewrite decide_False.
Qed.

(** X2. Deleting a task right after creating it restores the stored
    collection, provided the generated identifier is new to the store and
    no stored task already lists it as a dependency. *)
Theorem createTask_then_deleteTask (taskName text : string)
    (taskNotes : option string) (deps : list string)
    (files : option (list RelatedFile.t)) (w : World) :
  (forall task, task ∈ storedTasks w -> id task <> uuidv4 (uuidCalls w)) ->
  (forall task, task ∈ storedTasks w -> ~ dependsOn (uuidv4 (uuidCalls w)) task) ->
  let created := createTask uuidv4 Date_now taskName text taskNotes deps files w in
  let r := deleteTask (id created.1) created.2 in
  DeleteResult.success r.1 = true /\
  storedTasks r.2 = storedTasks w /\
  memoryDir r.2 = memoryDir w.
Proof.
  intros Hfresh Hunref created r.
  destruct (createTask_appends taskName text taskNotes deps files w)
    as (Hstored & Hmem & Hid & Hstatus & _).
  fold created in Hstored, Hmem, Hid, Hstatus.
  assert (firstWithId (id created.1) (storedTasks created.2)
            (length (storedTasks w)) created.1) as Hfirst.
  { rewrite Hstored. split_and!.
    - by apply list_lookup_middle.
    - done.
    - intros j other Hj Hlt. rewrite lookup_app_l in Hj by done.
      rewrite Hid. apply Hfresh. by eapply list_elem_of_lookup_2. }
  subst r. rewrite (deleteTask_removes _ _ _ _ Hfirst).
  - cbn [fst snd]. rewrite storedTasks_writeTasks, memoryDir_writeTasks.
    by rewrite Hstored, delete_last.
  - by rewrite Hstatus.
  - rewrite Hstored, delete_last, Hid.
    apply filter_none. exact Hunref.
Qed.

End StoreOperations.

(** ** updateTask and its callers *)

Lemma firstWithId_insert taskId (tasks : list Task) i task updated :
  firstWithId taskId tasks i task -> id updated = taskId ->
  firstWithId taskId (<[i := updated]> tasks) i updated.
Proof.
  intros (Hi & Hid & Hfirst) Hid'. split_and!; [|done|].
  - apply list_lookup_insert_eq. by eapply lookup_lt_Some.
  - intros j other Hj Hlt. rewrite list_lookup_insert_ne in Hj by lia.
    by eapply Hfirst.
Qed.

Lemma firstWithId_insert_other taskId (tasks : list Task) i task j updated :
  firstWithId taskId tasks i task -> j <> i -> id updated <> taskId ->
  firstWithId taskId (<[j := updated]> tasks) i task.
Proof.
  intros (Hi & Hid & Hfirst) Hj Hid'. split_and!; [|done|].
  - by rewrite list_lookup_insert_ne.
  - intros k other Hk Hlt. destruct (decide (k = j)) as [->|Hne].
    + destruct (decide (j < length tasks)) as [Hlen|Hlen].
      * rewrite list_lookup_insert_eq in Hk by done. by injection Hk as <-.
      * rewrite list_insert_ge in Hk by lia. by eapply Hfirst.
    + rewrite list_lookup_insert_ne in Hk by done. by eapply Hfirst.
Qed.

Lemma firstWithId_delete_other taskId (tasks : list Task) i task j :
  firstWithId taskId tasks i task -> j <> i ->
  firstWithId taskId (delete j tasks) (if decide (j < i) then pred i else i) task.
Proof.
  intros (Hi & Hid & Hfirst) Hj. split_and!; [|done|].
  - destruct (decide (j < i)) as [Hlt|Hge].
    + rewrite list_lookup_delete_ge by lia. by replace (S (pred i)) with i by lia.
    + by rewrite list_lookup_delete_lt by lia.
  - intros k other Hk Hlt. destruct (decide (k < j)) as [Hkj|Hkj].
    + rewrite list_lookup_delete_lt in Hk by done.
      eapply Hfirst; [done|]. destruct (decide (j < i)); lia.
    + rewrite list_lookup_delete_ge in Hk by lia.
      eapply Hfirst; [done|]. destruct (decide (j < i)); lia.
Qed.

Lemma firstWithId_app taskId (tasks more : list Task) i task :
  firstWithId taskId tasks i task -> firstWithId taskId (tasks ++ more) i task.
Proof.
  intros (Hi & Hid & Hfirst). split_and!; [|done|].
  - by apply lookup_app_l_Some.
  - intros k other Hk Hlt. apply lookup_lt_Some in Hi.
    rewrite lookup_app_l in Hk by lia. by eapply Hfirst.
Qed.

Section UpdateCallers.
Variable Date_now : nat -> Z.

Lemma updateTask_absent taskId updates w :
  (forall task, task ∈ storedTasks w -> id task <> taskId) ->
  updateTask Date_now taskId updates w = (None, ensureDataDir w).
Proof.
  intros Habs. unfold updateTask.
  by rewrite readTasks_eq, (findIndex_absent _ _ Habs).
Qed.

(** The three ways a call of [updateTask] can go. *)
Lemma updateTask_cases taskId updates w :
  let r := updateTask Date_now taskId updates w in
  ((forall task, task ∈ storedTasks w -> id task <> taskId) /\
   r = (None, ensureDataDir w)) \/
  (exists i task field,
     firstWithId taskId (storedTasks w) i task /\ status task = COMPLETED /\
     field ∈ TaskUpdates.keys updates /\ (field ∉ allowedFields) /\
     r = (None, w)) \/
  (exists i task,
     firstWithId taskId (storedTasks w) i task /\
     (status task = COMPLETED ->
      forall field, field ∈ TaskUpdates.keys updates -> field ∈ allowedFields) /\
     r.1 = Some (applyUpdates task updates (Date_now (dateCalls w))) /\
     storedTasks r.2 =
       <[i := applyUpdates task updates (Date_now (dateCalls w))]> (storedTasks w) /\
     memoryDir r.2 = memoryDir w).
Proof.
  intros r. destruct (findIndex_cases taskId (storedTasks w))
    as [[_ Habs]|(i & task & _ & Hfirst)].
  { left. split; [done|]. by apply updateTask_absent. }
  right.
  destruct (decide (status task = COMPLETED /\
                    Exists (fun field => field ∉ allowedFields)
                      (TaskUpdates.keys updates))) as [[Hdone Hbad]|Hok].
  - left. apply Exists_exists in Hbad as (field & Hin & Hbad).
    exists i, task, field. split_and!; try done. subst r.
    rewrite (updateTask_rejected _ _ _ _ _ _ _ Hfirst Hdone Hin Hbad).
    by rewrite (firstWithId_existing _ _ _ _ Hfirst).
  - right. exists i, task.
    assert (status task = COMPLETED ->
            forall field, field ∈ TaskUpdates.keys updates -> field ∈ allowedFields)
      as Hallowed.
    { intros Hdone field Hin. destruct (decide (field ∈ allowedFields)); [done|].
      destruct Hok. split; [done|]. apply Exists_exists. by exists field. }
    split; [done|]. split; [done|].
    exact (updateTask_accepted Date_now _ _ _ _ _ Hfirst Hallowed).
Qed.


(** *** updateTaskContent and updateTaskRelatedFiles *)

Lemma contentKeys_none (content : ContentUpdates.t) :
  content <> ContentUpdates.mk None None None None None None None ->
  length (TaskUpdates.keys
    (TaskUpdates.mk None
       (ContentUpdates.name content) (ContentUpdates.description content)
       (ContentUpdates.notes content) None
       (map TaskDependency.mk <$> ContentUpdates.dependencies content)
       None None None None (ContentUpdates.relatedFiles content) None
       (ContentUpdates.implementationGuide content)
       (ContentUpdates.verificationCriteria content))) <> 0.
Proof.
  destruct content as [[?|] [?|] [?|] [?|] [?|] [?|] [?|]]; intros Hne; try done.
Qed.

(** X4. [updateTaskContent] on a stored task that is not COMPLETED always
    succeeds: with no field given it reports that there is nothing to
    update, returns the stored task and writes nothing; otherwise the
    fields given replace those of the task (dependencies become references
    to the listed identifiers), [updatedAt] becomes the time of the call,
    the fields not given and the identifier, status, creation and
    completion times, summary and analysis result are kept, and the task is
    written back at its position. *)
Theorem updateTaskContent_on_open_task (taskId : string)
    (content : ContentUpdates.t) (w : World) (i : nat) (task : Task) :
  firstWithId taskId (storedTasks w) i task ->
  status task <> COMPLETED ->
  let r := updateTaskContent Date_now taskId content w in
  (content = ContentUpdates.mk None None None None None None None ->
   r = (ContentResult.mk true "No updates provided" (Some task), w)) /\
  (content <> ContentUpdates.mk None None None None None None None ->
   exists updated,
     r.1 = ContentResult.mk true "Task content updated successfully" (Some updated) /\
     storedTasks r.2 = <[i := updated]> (storedTasks w) /\
     memoryDir r.2 = memoryDir w /\
     name updated = default (name task) (ContentUpdates.name content) /\
     description updated =
       default (description task) (ContentUpdates.description content) /\
     notes updated = from_option Some (notes task) (ContentUpdates.notes content) /\
     dependencies updated =
       default (dependencies task)
         (map TaskDependency.mk <$> ContentUpdates.dependencies content) /\
     relatedFiles updated =
       from_option Some (relatedFiles task) (ContentUpdates.relatedFiles content) /\
     implementationGuide updated =
       from_option Some (implementationGuide task)
         (ContentUpdates.implementationGuide content) /\
     verificationCriteria updated =
       from_option Some (verificationCriteria task)
         (ContentUpdates.verificationCriteria content) /\
     updatedAt updated = Date_now (dateCalls w) /\
     id updated = id task /\ status updated = status task /\
     createdAt updated = createdAt task /\ completedAt updated = completedAt task /\
     summary updated = summary task /\ analysisResult updated = analysisResult task).
Proof.
  intros Hfirst Hopen r. subst r. unfold updateTaskContent.
  rewrite (getTaskById_first _ _ _ _ Hfirst).
  rewrite bool_decide_eq_false_2 by done. split.
  - by intros ->.
  - intros Hsome. rewrite bool_decide_eq_false_2 by by apply contentKeys_none.
    match goal with |- context [updateTask _ _ ?u _] => set (updateObj := u) end.
    destruct (updateTask_accepted Date_now taskId updateObj w i task Hfirst)
      as (Hr1 & Hstored & Hmem); [done|].
    destruct (updateTask Date_now taskId updateObj w) as [found w'].
    simpl in Hr1, Hstored, Hmem. subst found.
    eexists. split; [reflexivity|]. by split_and!.
Qed.

(** X5. [updateTaskRelatedFiles] fails for an unknown identifier and for a
    COMPLETED task (although [updateTask] itself accepts [relatedFiles] on
    a completed task), without writing; on any other stored task it
    succeeds, reports the number of files, and replaces the related files
    and [updatedAt] of the task and nothing else. Its last failure message,
    for an update that [updateTask] rejects, is never produced. *)
Theorem updateTaskRelatedFiles_outcomes (taskId : string)
    (files : list RelatedFile.t) (w : World) :
  let r := updateTaskRelatedFiles Date_now taskId files w in
  ((forall task, task ∈ storedTasks w -> id task <> taskId) ->
   r.1 = ContentResult.mk false "Task not found" None /\
   storedTasks r.2 = storedTasks w /\ memoryDir r.2 = memoryDir w) /\
  (forall i task, firstWithId taskId (storedTasks w) i task ->
   (status task = COMPLETED ->
    r = (ContentResult.mk false "Cannot update completed task" None, w)) /\
   (status task <> COMPLETED ->
    let updated :=
      {| id := id task; name := name task; description := description task;
         notes := notes task; status := status task;
         dependencies := dependencies task; createdAt := createdAt task;
         updatedAt := Date_now (dateCalls w); completedAt := completedAt task;
         summary := summary task; relatedFiles := Some files;
         analysisResult := analysisResult task;
         implementationGuide := implementationGuide task;
         verificationCriteria := verificationCriteria task |} in
    r.1 = ContentResult.mk true
            ("Successfully updated task related files, total " +:+
             JS.showNat (length files) +:+ " files") (Some updated) /\
    storedTasks r.2 = <[i := updated]> (storedTasks w) /\
    memoryDir r.2 = memoryDir w)) /\
  ContentResult.message r.1 <> "Error updating task related files".
Proof.
  intros r. subst r. unfold updateTaskRelatedFiles.
  destruct (findIndex_cases taskId (storedTasks w))
    as [[_ Habs]|(i & task & _ & Hfirst)].
  - rewrite (getTaskById_absent _ _ Habs). simpl.
    rewrite ensureDataDir_stored, ensureDataDir_memoryDir. split_and!; try done.
    intros i task Hfirst. destruct (Habs task); [by eapply firstWithId_elem_of|].
    by destruct Hfirst as (_ & ? & _).
  - rewrite (getTaskById_first _ _ _ _ Hfirst).
    destruct (decide (status task = COMPLETED)) as [Hdone|Hopen].
    + rewrite bool_decide_eq_true_2 by done. split_and!; try done.
      * intros Habs. destruct (Habs task); [by eapply firstWithId_elem_of|].
        by destruct Hfirst as (_ & ? & _).
      * intros i' task' Hfirst'.
        destruct (firstWithId_unique _ _ _ _ _ _ Hfirst Hfirst') as [<- <-].
        by split.
    + rewrite bool_decide_eq_false_2 by done.
      match goal with |- context [updateTask _ _ ?u _] => set (updateObj := u) end.
      destruct (updateTask_accepted Date_now taskId updateObj w i task Hfirst)
        as (Hr1 & Hstored & Hmem); [done|].
      destruct (updateTask Date_now taskId updateObj w) as [found w'].
      simpl in Hr1, Hstored, Hmem. subst found. split_and!.
      * intros Habs. destruct (Habs task); [by eapply firstWithId_elem_of|].
        by destruct Hfirst as (_ & ? & _).
      * intros i' task' Hfirst'.
        destruct (firstWithId_unique _ _ _ _ _ _ Hfirst Hfirst') as [<- <-].
        split; [done|]. intros _. by split_and!.
      * simpl. discriminate.
Qed.

End UpdateCallers.

(** *** A completed task is frozen *)

Lemma sameButSummary_refl (task : Task) : sameButSummary task task.
Proof. exists (summary task), (updatedAt task). by destruct task. Qed.

Lemma sameButSummary_trans (a b c : Task) :
  sameButSummary a b -> sameButSummary b c -> sameButSummary a c.
Proof. intros (s & u & ->) (s' & u' & ->). by exists s', u'. Qed.

Section Frozen.
Variable uuidv4 : nat -> string.
Variable Date_now : nat -> Z.

Lemma updateTask_keeps_completed taskId w i task target updates :
  firstWithId taskId (storedTasks w) i task ->
  status task = COMPLETED ->
  TaskUpdates.id updates = None ->
  let r := updateTask Date_now target updates w in
  exists task',
    firstWithId taskId (storedTasks r.2) i task' /\
    (task' = task \/
     target = taskId /\
     (forall field, field ∈ TaskUpdates.keys updates -> field ∈ allowedFields) /\
     task' = applyUpdates task updates (Date_now (dateCalls w))).
Proof.
  intros Hfirst Hdone Hid r.
  destruct (updateTask_cases Date_now target updates w)
    as [[Habs Hr]|[(j & other & field & Hother & _ & _ & _ & Hr)|
                   (j & other & Hother & Hok & Hr1 & Hstored & Hmem)]];
    fold r in Hr || fold r in Hr1, Hstored, Hmem.
  - exists task. rewrite Hr. simpl. rewrite ensureDataDir_stored. by split; [|left].
  - exists task. rewrite Hr. by split; [|left].
  - destruct (decide (target = taskId)) as [->|Hne].
    + destruct (firstWithId_unique _ _ _ _ _ _ Hfirst Hother) as [<- <-].
      exists (applyUpdates task updates (Date_now (dateCalls w))). split.
      * rewrite Hstored. apply (firstWithId_insert _ _ _ task); [done|].
        simpl. rewrite Hid. simpl. by destruct Hfirst as (_ & ? & _).
      * right. split_and!; [done|by apply Hok|done].
    + exists task. split; [|by left]. rewrite Hstored.
      apply firstWithId_insert_other; [done| |].
      * intros ->. destruct Hfirst as (Hi & Hi' & _), Hother as (Hj & Hj' & _).
        congruence.
      * simpl. rewrite Hid. simpl. by destruct Hother as (_ & -> & _).
Qed.

Lemma status_not_allowed (updates : TaskUpdates.t) :
  is_Some (TaskUpdates.status updates) ->
  ~ (forall field, field ∈ TaskUpdates.keys updates -> field ∈ allowedFields).
Proof.
  intros Hsome Hall. assert ("status" ∈ allowedFields) as Hin.
  { apply Hall, elem_of_keys. do 4 right. by left. }
  unfold allowedFields in Hin. set_solver.
Qed.

Lemma mutate_keeps_completed taskId w i task (m : Mutation) :
  firstWithId taskId (storedTasks w) i task ->
  status task = COMPLETED ->
  exists i' task',
    firstWithId taskId (storedTasks (mutate uuidv4 Date_now w m)) i' task' /\
    i' <= i /\ sameButSummary task task'.
Proof.
  intros Hfirst Hdone.
  assert (forall w', storedTasks w' = storedTasks w ->
            exists i' task', firstWithId taskId (storedTasks w') i' task' /\
                             i' <= i /\ sameButSummary task task') as Hsame.
  { intros w' ->. exists i, task. split_and!; [done|lia|apply sameButSummary_refl]. }
  assert (forall target updates w',
            storedTasks w' = storedTasks w ->
            TaskUpdates.id updates = None ->
            (target = taskId ->
             is_Some (TaskUpdates.status updates) \/
             exists text, applyUpdates task updates (Date_now (dateCalls w')) =
               {| id := id task; name := name task; description := description task;
                  notes := notes task; status := status task;
                  dependencies := dependencies task; createdAt := createdAt task;
                  updatedAt := Date_now (dateCalls w'); completedAt := completedAt task;
                  summary := text; relatedFiles := relatedFiles task;
                  analysisResult := analysisResult task;
                  implementationGuide := implementationGuide task;
                  verificationCriteria := verificationCriteria task |}) ->
            exists i' task',
              firstWithId taskId
                (storedTasks (updateTask Date_now target updates w').2) i' task' /\
              i' <= i /\ sameButSummary task task') as Hupdate.
  { intros target updates w' Hw' Hid Hkind.
    assert (firstWithId taskId (storedTasks w') i task) as Hfirst' by by rewrite Hw'.
    destruct (updateTask_keeps_completed taskId w' i task target updates
                Hfirst' Hdone Hid) as (task' & Hfirst'' & [->|(-> & Hall & ->)]).
    - exists i, task. split_and!; [done|lia|apply sameButSummary_refl].
    - eexists i, _. split_and!; [done|lia|].
      destruct (Hkind eq_refl) as [Hstatus|[text ->]].
      + by destruct (status_not_allowed updates Hstatus).
      + by eexists _, _. }
  destruct m as [n d nt deps files|target s|target text|target content|target files
                 |target]; cbn [mutate].
  - destruct (createTask_appends uuidv4 Date_now n d nt deps files w) as (-> & _).
    exists i, task. split_and!; [by apply firstWithId_app|lia|apply sameButSummary_refl].
  - unfold updateTaskStatus. case_bool_decide.
    + apply Hupdate; [done|done|]. intros _. left. by eexists.
    + apply Hupdate; [done|done|]. intros _. left. by eexists.
  - unfold updateTaskSummary. apply Hupdate; [done|done|].
    intros _. right. by exists (Some text).
  - unfold updateTaskContent. rewrite getTaskById_eq.
    destruct (findIndex_cases target (storedTasks w))
      as [[-> _]|(j & other & -> & Hother)]; simpl.
    { apply Hsame, ensureDataDir_stored. }
    rewrite (firstWithId_existing _ _ _ _ Hother).
    case_bool_decide as Hstatus; [by apply Hsame|].
    case_bool_decide; [by apply Hsame|].
    match goal with |- context [updateTask _ _ ?u _] => set (updateObj := u) end.
    destruct (Hupdate target updateObj w eq_refl eq_refl) as (i' & task' & H').
    { intros ->. destruct (firstWithId_unique _ _ _ _ _ _ Hfirst Hother) as [_ <-].
      by destruct Hstatus. }
    exists i', task'. by destruct (updateTask Date_now target updateObj w) as [[?|] ?].
  - unfold updateTaskRelatedFiles. rewrite getTaskById_eq.
    destruct (findIndex_cases target (storedTasks w))
      as [[-> _]|(j & other & -> & Hother)]; simpl.
    { apply Hsame, ensureDataDir_stored. }
    rewrite (firstWithId_existing _ _ _ _ Hother).
    case_bool_decide as Hstatus; [by apply Hsame|].
    match goal with |- context [updateTask _ _ ?u _] => set (updateObj := u) end.
    destruct (Hupdate target updateObj w eq_refl eq_refl) as (i' & task' & H').
    { intros ->. destruct (firstWithId_unique _ _ _ _ _ _ Hfirst Hother) as [_ <-].
      by destruct Hstatus. }
    exists i', task'. by destruct (updateTask Date_now target updateObj w) as [[?|] ?].
  - unfold deleteTask. rewrite readTasks_eq.
    destruct (findIndex_cases target (storedTasks w))
      as [[-> _]|(j & other & -> & Hother)]; simpl.
    { apply Hsame, ensureDataDir_stored. }
    rewrite (firstWithId_existing _ _ _ _ Hother).
    case_bool_decide as Hstatus; [by apply Hsame|].
    case_bool_decide; [by apply Hsame|]. simpl.
    rewrite storedTasks_writeTasks.
    assert (j <> i) as Hne.
    { intros ->. destruct Hfirst as (Hi & _), Hother as (Hj & _).
      destruct Hstatus. congruence. }
    eexists _, task. split_and!;
      [by apply firstWithId_delete_other| |apply sameButSummary_refl].
    destruct (decide (j < i)); lia.
Qed.

(** X6. A completed task is frozen under the functions of the model that
    change one task. After any sequence of calls of [createTask],
    [updateTaskStatus], [updateTaskSummary], [updateTaskContent],
    [updateTaskRelatedFiles] and [deleteTask], with any arguments, the task
    that is found first for the identifier of a COMPLETED task is still
    there, never at a later position, and it is the same task but for its
    summary and [updatedAt]; in particular it is still COMPLETED. *)
Theorem completed_task_is_frozen (taskId : string) (w : World) (i : nat)
    (task : Task) (calls : list Mutation) :
  firstWithId taskId (storedTasks w) i task ->
  status task = COMPLETED ->
  exists i' task',
    firstWithId taskId (storedTasks (foldl (mutate uuidv4 Date_now) w calls)) i' task' /\
    i' <= i /\ sameButSummary task task' /\ status task' = COMPLETED.
Proof.
  revert w i task. induction calls as [|m calls IH]; intros w i task Hfirst Hdone.
  - exists i, task. split_and!; [done|lia|apply sameButSummary_refl|done].
  - simpl. destruct (mutate_keeps_completed taskId w i task m Hfirst Hdone)
      as (j & next & Hnext & Hle & Hsame).
    assert (status next = COMPLETED) as Hdone'.
    { destruct Hsame as (s & u & ->). done. }
    destruct (IH _ j next Hnext Hdone') as (i' & task' & Hfirst' & Hle' & Hsame' & Hst).
    exists i', task'. split_and!; [done|lia| |done].
    by eapply sameButSummary_trans.
Qed.

End Frozen.

(** ** deleteTask and the references between tasks *)

Lemma deleteTask_cases (taskId : string) (w : World) :
  let r := deleteTask taskId w in
  (DeleteResult.success r.1 = false /\ storedTasks r.2 = storedTasks w /\
   memoryDir r.2 = memoryDir w) \/
  (exists i task,
     firstWithId taskId (storedTasks w) i task /\ status task <> COMPLETED /\
     filter (dependsOn taskId) (delete i (storedTasks w)) = [] /\
     r = (DeleteResult.mk true "Task deleted successfully",
          writeTasks (delete i (storedTasks w)) w)).
Proof.
  intros r. subst r. unfold deleteTask. rewrite readTasks_eq.
  destruct (findIndex_cases taskId (storedTasks w))
    as [[-> _]|(i & task & -> & Hfirst)].
  { left. simpl. by rewrite ensureDataDir_stored, ensureDataDir_memoryDir. }
  rewrite (firstWithId_existing _ _ _ _ Hfirst).
  case_bool_decide as Hstatus; [by left|].
  destruct (filter (dependsOn taskId) (delete i (storedTasks w))) eqn:E.
  - right. exists i, task. by rewrite E.
  - left. by rewrite bool_decide_eq_true_2 by (simpl; lia).
Qed.

Lemma elem_of_delete_other {A} (l : list A) (i : nat) (x y : A) :
  x ∈ l -> l !! i = Some y -> x <> y -> x ∈ delete i l.
Proof.
  intros Hx Hi Hne. apply list_elem_of_lookup in Hx as [j Hj].
  assert (j <> i) as Hji by (intros ->; congruence).
  destruct (decide (j < i)).
  - apply (list_elem_of_lookup_2 _ j). by rewrite list_lookup_delete_lt.
  - apply (list_elem_of_lookup_2 _ (pred j)).
    rewrite list_lookup_delete_ge by lia. by replace (S (pred j)) with j by lia.
Qed.

Lemma elem_of_delete {A} (l : list A) (i : nat) (x : A) :
  x ∈ delete i l -> x ∈ l.
Proof. apply list_elem_of_delete_inv. Qed.

Lemma findIndex_delete_other (P : Task -> Prop) `{!forall t, Decision (P t)}
    (tasks : list Task) (i : nat) (task : Task) :
  tasks !! i = Some task -> ~ P task ->
  snd <$> findIndex P (delete i tasks) = snd <$> findIndex P tasks.
Proof.
  unfold findIndex. revert i.
  induction tasks as [|first tasks IH]; intros i Hi Hnot; [done|].
  destruct i as [|i]; simpl in Hi.
  - injection Hi as ->. simpl. rewrite decide_False by done.
    by destruct (list_find P tasks) as [[? ?]|].
  - simpl. destruct (decide (P first)); [done|].
    specialize (IH i Hi Hnot).
    destruct (list_find P (delete i tasks)) as [[? ?]|],
             (list_find P tasks) as [[? ?]|]; simpl in *; congruence.
Qed.

(** X7. [deleteTask] keeps the references between tasks resolved: when every
    dependency of every stored task is the identifier of a stored task
    before the call, the same holds after it, whatever the outcome. *)
Theorem deleteTask_keeps_dependencies_within (taskId : string) (w : World) :
  (forall task, task ∈ storedTasks w -> dependenciesWithin (storedTasks w) task) ->
  let r := deleteTask taskId w in
  forall task, task ∈ storedTasks r.2 -> dependenciesWithin (storedTasks r.2) task.
Proof.
  intros Hclosed r.
  destruct (deleteTask_cases taskId w)
    as [(_ & Hstored & _)|(i & removed & Hfirst & _ & Hnone & Hr)]; fold r in Hstored || fold r in Hr.
  - rewrite Hstored. exact Hclosed.
  - rewrite Hr. cbn [snd]. rewrite storedTasks_writeTasks.
    intros task Hin dep Hdep.
    destruct (Hclosed task (elem_of_delete _ _ _ Hin) dep Hdep) as (target & Htarget & Hid).
    exists target. split; [|done].
    destruct Hfirst as (Hi & Hremoved & _).
    apply (elem_of_delete_other _ _ _ removed); [done|done|].
    intros ->. eapply (filter_nil_not_elem_of _ _ task); [exact Hnone| |exact Hin].
    unfold dependsOn. apply Exists_exists. exists dep. split; [done|congruence].
Qed.

(** X8. In a store with distinct identifiers, a successful [deleteTask]
    makes the identifier unknown to [getTaskById], leaves the lookup of
    every other identifier as it was, and keeps the identifiers distinct. *)
Theorem deleteTask_then_getTaskById (taskId : string) (w : World) :
  NoDup (map id (storedTasks w)) ->
  let r := deleteTask taskId w in
  DeleteResult.success r.1 = true ->
  (getTaskById taskId r.2).1 = None /\
  (forall other, other <> taskId ->
     (getTaskById other r.2).1 = (getTaskById other w).1) /\
  NoDup (map id (storedTasks r.2)).
Proof.
  intros Hdistinct r Hsuccess.
  destruct (deleteTask_cases taskId w)
    as [(Hfailed & _)|(i & removed & Hfirst & _ & _ & Hr)];
    fold r in Hfailed || fold r in Hr.
  { congruence. }
  rewrite Hr. cbn [snd]. destruct Hfirst as (Hi & Hremoved & _).
  assert (NoDup (map id (delete i (storedTasks w)))) as Hdistinct'.
  { eapply sublist_NoDup; [exact Hdistinct|].
    change (map id ?l) with (id <$> l). rewrite list_fmap_delete.
    apply sublist_delete. }
  split_and!.
  - rewrite getTaskById_eq, storedTasks_writeTasks. cbn [fst].
    rewrite findIndex_absent; [done|]. intros task Hin Hid.
    apply list_elem_of_lookup in Hin as [j Hj].
    assert (exists k, k <> i /\ storedTasks w !! k = Some task) as (k & Hk & Hlookup).
    { destruct (decide (j < i)).
      - exists j. split; [lia|]. by rewrite list_lookup_delete_lt in Hj.
      - exists (S j). split; [lia|]. by rewrite list_lookup_delete_ge in Hj by lia. }
    apply Hk. eapply (NoDup_lookup (map id (storedTasks w))); [done| |].
    + change (map id ?l) with (id <$> l). by rewrite list_lookup_fmap, Hlookup; simpl; rewrite Hid.
    + change (map id ?l) with (id <$> l). by rewrite list_lookup_fmap, Hi; simpl; rewrite Hremoved.
  - intros other Hother. rewrite !getTaskById_eq, storedTasks_writeTasks. cbn [fst].
    apply (findIndex_delete_other _ _ _ removed); [done|congruence].
  - by rewrite storedTasks_writeTasks.
Qed.

(** ** canExecuteTask *)

Lemma dependency_test (tasks : list Task) (dep : TaskDependency.t) :
  let test :=
    match snd <$> findIndex (fun t => id t = TaskDependency.taskId dep) tasks with
    | Some dependencyTask =>
        if bool_decide (status dependencyTask ≠ COMPLETED)
        then Some (TaskDependency.taskId dep) else None
    | None => Some (TaskDependency.taskId dep)
    end in
  dependencyCompleted tasks dep /\ test = None \/
  ~ dependencyCompleted tasks dep /\ test = Some (TaskDependency.taskId dep).
Proof.
  destruct (findIndex_cases (TaskDependency.taskId dep) tasks)
    as [[-> Habs]|(i & task & -> & Hfirst)]; simpl.
  - right. split; [|done]. intros (i & task & Hfirst & _).
    destruct (Habs task); [by eapply firstWithId_elem_of|].
    by destruct Hfirst as (_ & ? & _).
  - case_bool_decide as Hstatus.
    + right. split; [|done]. intros (i' & task' & Hfirst' & Hdone).
      destruct (firstWithId_unique _ _ _ _ _ _ Hfirst Hfirst') as [_ ->]. done.
    + left. split; [|done]. exists i, task. split; [done|].
      by destruct (decide (status task = COMPLETED)); [|destruct Hstatus].
Qed.

Lemma blocked_dependencies (tasks : list Task) (deps : list TaskDependency.t) :
  let blocked :=
    omap
      (fun dependency =>
         match
           snd <$> findIndex
             (fun t => id t = TaskDependency.taskId dependency) tasks
         with
         | Some dependencyTask =>
             if bool_decide (status dependencyTask ≠ COMPLETED)
             then Some (TaskDependency.taskId dependency) else None
         | None => Some (TaskDependency.taskId dependency)
         end) deps in
  blocked `sublist_of` map TaskDependency.taskId deps /\
  forall dep, dep ∈ deps ->
    (TaskDependency.taskId dep ∈ blocked <-> ~ dependencyCompleted tasks dep).
Proof.
  intros blocked. split.
  - subst blocked. induction deps as [|dep deps IH]; [done|]. simpl.
    destruct (dependency_test tasks dep) as [[_ ->]|[_ ->]].
    + by apply sublist_cons.
    + by apply sublist_skip.
  - intros dep Hdep. subst blocked. rewrite list_elem_of_omap. split.
    + intros (dep' & _ & Hsome).
      destruct (dependency_test tasks dep') as [[_ Htest]|[Hnot Htest]];
        cbn zeta in Htest; rewrite Htest in Hsome; [done|].
      injection Hsome as Heq. destruct dep, dep'. simpl in Heq. by subst.
    + intros Hnot. exists dep. split; [done|].
      by destruct (dependency_test tasks dep) as [[? _]|[_ ->]].
Qed.

(** X9. [canExecuteTask] answers yes exactly when the identifier is that of
    a stored task that is not COMPLETED and each of whose dependencies is
    found, first for its identifier, as a COMPLETED task. [blockedBy] is
    only given with the answer no; it is then not empty and lists, in the
    order of the dependencies, the identifiers of those that are missing
    from the store or not COMPLETED. A task that is not COMPLETED and gets
    the answer no always comes with [blockedBy]; a task that lists itself
    as a dependency is never executable. The call writes nothing. *)
Theorem canExecuteTask_characterised (taskId : string) (w : World) :
  let r := canExecuteTask taskId w in
  r.2 = ensureDataDir w /\
  (CanExecute.canExecute r.1 = true <->
   exists i task,
     firstWithId taskId (storedTasks w) i task /\ status task <> COMPLETED /\
     forall dep, dep ∈ dependencies task -> dependencyCompleted (storedTasks w) dep) /\
  (forall ids, CanExecute.blockedBy r.1 = Some ids ->
   CanExecute.canExecute r.1 = false /\ ids <> [] /\
   exists i task,
     firstWithId taskId (storedTasks w) i task /\
     ids `sublist_of` map TaskDependency.taskId (dependencies task) /\
     forall dep, dep ∈ dependencies task ->
       (TaskDependency.taskId dep ∈ ids <-> ~ dependencyCompleted (storedTasks w) dep)) /\
  (forall i task,
   firstWithId taskId (storedTasks w) i task -> status task <> COMPLETED ->
   CanExecute.canExecute r.1 = false -> is_Some (CanExecute.blockedBy r.1)) /\
  (forall i task,
   firstWithId taskId (storedTasks w) i task -> dependsOn taskId task ->
   CanExecute.canExecute r.1 = false).
Proof.
  intros r. subst r. unfold canExecuteTask. rewrite getTaskById_eq.
  destruct (findIndex_cases taskId (storedTasks w))
    as [[-> Habs]|(i & task & -> & Hfirst)]; cbn [fmap option_fmap option_map snd].
  { assert (forall i task, ~ firstWithId taskId (storedTasks w) i task) as Hnone.
    { intros i task Hfirst. destruct (Habs task); [by eapply firstWithId_elem_of|].
      by destruct Hfirst as (_ & ? & _). }
    split_and!; try done.
    - split; [done|]. intros (i & task & Hfirst & _). by destruct (Hnone i task).
    - intros i task Hfirst. by destruct (Hnone i task). }
  assert (forall i' task', firstWithId taskId (storedTasks w) i' task' ->
                           i' = i /\ task' = task) as Hunique.
  { intros i' task' Hfirst'.
    by destruct (firstWithId_unique _ _ _ _ _ _ Hfirst Hfirst') as [-> ->]. }
  rewrite (firstWithId_existing _ _ _ _ Hfirst).
  case_bool_decide as Hstatus.
  { split_and!; try done.
    - split; [done|]. intros (i' & task' & Hfirst' & Hopen & _).
      destruct (Hunique _ _ Hfirst') as [-> ->]. done.
    - intros i' task' Hfirst' Hopen. destruct (Hunique _ _ Hfirst') as [-> ->]. done. }
  case_bool_decide as Hdeps.
  { apply length_zero_iff_nil in Hdeps. split_and!; try done.
    - split; [|done]. intros _. exists i, task. split_and!; try done.
      intros dep Hdep. rewrite Hdeps in Hdep. by apply elem_of_nil in Hdep.
    - intros i' task' Hfirst' Hself. destruct (Hunique _ _ Hfirst') as [-> ->].
      unfold dependsOn in Hself. rewrite Hdeps in Hself. by apply Exists_nil in Hself. }
  rewrite readTasks_eq, (firstWithId_existing _ _ _ _ Hfirst).
  destruct (blocked_dependencies (storedTasks w) (dependencies task))
    as [Hsub Hblocked].
  cbn zeta in Hsub, Hblocked.
  match goal with |- context [length ?l = 0] => set (blocked := l) in * end.
  cbn [fst snd CanExecute.canExecute CanExecute.blockedBy].
  split_and!.
  - done.
  - rewrite bool_decide_eq_true, length_zero_iff_nil. split.
    + intros Hnil. exists i, task. split_and!; try done. intros dep Hdep.
      destruct (dependency_test (storedTasks w) dep) as [[? _]|[Hnot _]]; [done|].
      apply (Hblocked dep Hdep) in Hnot. rewrite Hnil in Hnot.
      by apply elem_of_nil in Hnot.
    + intros (i' & task' & Hfirst' & _ & Hall).
      destruct (Hunique _ _ Hfirst') as [-> ->].
      destruct blocked as [|d rest] eqn:E; [done|].
      assert (d ∈ map TaskDependency.taskId (dependencies task)) as Hd.
      { eapply elem_of_sublist; [left|exact Hsub]. }
      change (map ?f ?l) with (f <$> l) in Hd.
      apply list_elem_of_fmap in Hd as (dep & -> & Hdep).
      destruct (proj1 (Hblocked dep Hdep)); [left|by apply Hall].
  - intros ids Hids. case_bool_decide as Hlen; [|done]. injection Hids as <-.
    split_and!.
    + apply bool_decide_eq_false_2. lia.
    + intros Hnil. rewrite Hnil in Hlen. simpl in Hlen. lia.
    + by exists i, task.
  - intros i' task' _ _ Hno. apply bool_decide_eq_false in Hno.
    rewrite bool_decide_eq_true_2 by lia. by eexists.
  - intros i' task' Hfirst' Hself. destruct (Hunique _ _ Hfirst') as [-> ->].
    apply bool_decide_eq_false_2. unfold dependsOn in Hself.
    apply Exists_exists in Hself as (dep & Hdep & Hid).
    assert (TaskDependency.taskId dep ∈ blocked) as Hin.
    { apply (Hblocked dep Hdep). intros (j & other & Hother & Hdone).
      rewrite Hid in Hother. destruct (Hunique _ _ Hother) as [-> ->]. done. }
    destruct blocked; [by apply elem_of_nil in Hin|simpl; lia].
Qed.

(** ** assessTaskComplexity *)

Lemma thresholdsReached_eq (count medium high veryHigh : nat) :
  medium <= high -> high <= veryHigh ->
  thresholdsReached count medium high veryHigh =
  if (veryHigh <=? count)%nat then 3
  else if (high <=? count)%nat then 2
  else if (medium <=? count)%nat then 1 else 0.
Proof.
  intros Hmh Hhv. unfold thresholdsReached.
  rewrite !filter_cons, filter_nil.
  destruct (Nat.leb_spec veryHigh count), (Nat.leb_spec high count),
    (Nat.leb_spec medium count); repeat case_decide; simpl; lia.
Qed.

Lemma thresholdsReached_le (count medium high veryHigh : nat) :
  thresholdsReached count medium high veryHigh <= 3.
Proof.
  unfold thresholdsReached. rewrite !filter_cons, filter_nil.
  repeat case_decide; simpl; lia.
Qed.

Lemma thresholdsReached_none (count medium high veryHigh : nat) :
  medium <= high -> high <= veryHigh ->
  thresholdsReached count medium high veryHigh = 0 <-> count < medium.
Proof.
  intros Hmh Hhv. unfold thresholdsReached. rewrite !filter_cons, filter_nil.
  repeat case_decide; simpl; lia.
Qed.

Lemma thresholdsReached_all (count medium high veryHigh : nat) :
  medium <= high -> high <= veryHigh ->
  thresholdsReached count medium high veryHigh = 3 <-> veryHigh <= count.
Proof.
  intros Hmh Hhv. unfold thresholdsReached. rewrite !filter_cons, filter_nil.
  repeat case_decide; simpl; lia.
Qed.

Lemma levelAfter_rank (count medium high veryHigh : nat)
    (level : TaskComplexityLevel) :
  medium <= high -> high <= veryHigh ->
  levelRank (levelAfter count medium high veryHigh level) =
  Nat.max (thresholdsReached count medium high veryHigh) (levelRank level).
Proof.
  intros Hmh Hhv. rewrite thresholdsReached_eq by done. unfold levelAfter.
  destruct (Nat.leb_spec veryHigh count), (Nat.leb_spec high count),
    (Nat.leb_spec medium count), level; simpl; lia.
Qed.

(** X10. [assessTaskComplexity] returns null for an unknown identifier. For
    a stored task it measures the length of the description, the number of
    dependencies and the length of the notes, and its level is the highest
    of the three levels that these reach on their own thresholds: the rank
    of the level is the largest number of thresholds reached by one
    measure. So the level is LOW exactly when every measure is below its
    MEDIUM threshold, and VERY_HIGH exactly when some measure reaches its
    VERY_HIGH threshold. Some recommendation is always given. The call
    writes nothing. *)
Theorem assessTaskComplexity_level_is_highest (taskId : string) (w : World) :
  let r := assessTaskComplexity taskId w in
  r.2 = ensureDataDir w /\
  ((forall task, task ∈ storedTasks w -> id task <> taskId) -> r.1 = None) /\
  forall i task, firstWithId taskId (storedTasks w) i task ->
    exists assessment,
      r.1 = Some assessment /\
      let measures := ComplexityAssessment.metrics assessment in
      let descriptionLength := ComplexityMetrics.descriptionLength measures in
      let dependenciesCount := ComplexityMetrics.dependenciesCount measures in
      let notesLength := ComplexityMetrics.notesLength measures in
      descriptionLength = String.length (description task) /\
      dependenciesCount = length (dependencies task) /\
      notesLength = String.length (default EmptyString (notes task)) /\
      levelRank (ComplexityAssessment.level assessment) =
        Nat.max
          (thresholdsReached descriptionLength
             TaskComplexityThresholds.DESCRIPTION_LENGTH.MEDIUM
             TaskComplexityThresholds.DESCRIPTION_LENGTH.HIGH
             TaskComplexityThresholds.DESCRIPTION_LENGTH.VERY_HIGH)
          (Nat.max
             (thresholdsReached dependenciesCount
                TaskComplexityThresholds.DEPENDENCIES_COUNT.MEDIUM
                TaskComplexityThresholds.DEPENDENCIES_COUNT.HIGH
                TaskComplexityThresholds.DEPENDENCIES_COUNT.VERY_HIGH)
             (thresholdsReached notesLength
                TaskComplexityThresholds.NOTES_LENGTH.MEDIUM
                TaskComplexityThresholds.NOTES_LENGTH.HIGH
                TaskComplexityThresholds.NOTES_LENGTH.VERY_HIGH)) /\
      (ComplexityAssessment.level assessment = LOW <->
       descriptionLength < 500 /\ dependenciesCount < 2 /\ notesLength < 200) /\
      (ComplexityAssessment.level assessment = VERY_HIGH <->
       2000 <= descriptionLength \/ 10 <= dependenciesCount \/ 1000 <= notesLength) /\
      ComplexityAssessment.recommendations assessment <> [].
Proof.
  intros r. subst r. unfold assessTaskComplexity. rewrite getTaskById_eq.
  destruct (findIndex_cases taskId (storedTasks w))
    as [[-> Habs]|(i & task & -> & Hfirst)]; cbn [fmap option_fmap option_map snd].
  { split_and!; try done. intros i task Hfirst.
    destruct (Habs task); [by eapply firstWithId_elem_of|].
    by destruct Hfirst as (_ & ? & _). }
  split_and!; [done| |].
  { intros Habs. destruct (Habs task); [by eapply firstWithId_elem_of|].
    by destruct Hfirst as (_ & ? & _). }
  intros i' task' Hfirst'.
  destruct (firstWithId_unique _ _ _ _ _ _ Hfirst Hfirst') as [<- <-].
  eexists. split; [reflexivity|].
  cbn [fst ComplexityAssessment.metrics ComplexityAssessment.level
       ComplexityAssessment.recommendations ComplexityMetrics.descriptionLength
       ComplexityMetrics.dependenciesCount ComplexityMetrics.notesLength].
  set (d := String.length (description task)).
  set (n := length (dependencies task)).
  set (m := match notes task with Some text => String.length text | None => 0 end).
  set (level0 :=
    if (TaskComplexityThresholds.DESCRIPTION_LENGTH.VERY_HIGH <=? d)%nat then VERY_HIGH
    else if (TaskComplexityThresholds.DESCRIPTION_LENGTH.HIGH <=? d)%nat then HIGH
    else if (TaskComplexityThresholds.DESCRIPTION_LENGTH.MEDIUM <=? d)%nat then MEDIUM
    else LOW).
  assert (levelRank level0 =
          thresholdsReached d TaskComplexityThresholds.DESCRIPTION_LENGTH.MEDIUM
            TaskComplexityThresholds.DESCRIPTION_LENGTH.HIGH
            TaskComplexityThresholds.DESCRIPTION_LENGTH.VERY_HIGH) as Hlevel0.
  { rewrite thresholdsReached_eq by (vm_compute; lia). subst level0.
    by repeat destruct (_ <=? d)%nat. }
  set (level := levelAfter m _ _ _ (levelAfter n _ _ _ level0)).
  assert (levelRank level =
          Nat.max
            (thresholdsReached d TaskComplexityThresholds.DESCRIPTION_LENGTH.MEDIUM
               TaskComplexityThresholds.DESCRIPTION_LENGTH.HIGH
               TaskComplexityThresholds.DESCRIPTION_LENGTH.VERY_HIGH)
            (Nat.max
               (thresholdsReached n TaskComplexityThresholds.DEPENDENCIES_COUNT.MEDIUM
                  TaskComplexityThresholds.DEPENDENCIES_COUNT.HIGH
                  TaskComplexityThresholds.DEPENDENCIES_COUNT.VERY_HIGH)
               (thresholdsReached m TaskComplexityThresholds.NOTES_LENGTH.MEDIUM
                  TaskComplexityThresholds.NOTES_LENGTH.HIGH
                  TaskComplexityThresholds.NOTES_LENGTH.VERY_HIGH))) as Hrank.
  { subst level. rewrite !levelAfter_rank by (vm_compute; lia). rewrite Hlevel0. lia. }
  split_and!.
  - done.
  - done.
  - subst m. by destruct (notes task).
  - done.
  - rewrite <- (thresholdsReached_none d 500 1000 2000) by lia.
    rewrite <- (thresholdsReached_none n 2 5 10) by lia.
    rewrite <- (thresholdsReached_none m 200 500 1000) by lia.
    unfold TaskComplexityThresholds.DESCRIPTION_LENGTH.VERY_HIGH,
      TaskComplexityThresholds.DESCRIPTION_LENGTH.HIGH,
      TaskComplexityThresholds.DESCRIPTION_LENGTH.MEDIUM,
      TaskComplexityThresholds.DEPENDENCIES_COUNT.VERY_HIGH,
      TaskComplexityThresholds.DEPENDENCIES_COUNT.HIGH,
      TaskComplexityThresholds.DEPENDENCIES_COUNT.MEDIUM,
      TaskComplexityThresholds.NOTES_LENGTH.VERY_HIGH,
      TaskComplexityThresholds.NOTES_LENGTH.HIGH,
      TaskComplexityThresholds.NOTES_LENGTH.MEDIUM in Hrank.
    clearbody level. destruct level; simpl in Hrank; split; try done; lia.
  - rewrite <- (thresholdsReached_all d 500 1000 2000) by lia.
    rewrite <- (thresholdsReached_all n 2 5 10) by lia.
    rewrite <- (thresholdsReached_all m 200 500 1000) by lia.
    unfold TaskComplexityThresholds.DESCRIPTION_LENGTH.VERY_HIGH,
      TaskComplexityThresholds.DESCRIPTION_LENGTH.HIGH,
      TaskComplexityThresholds.DESCRIPTION_LENGTH.MEDIUM,
      TaskComplexityThresholds.DEPENDENCIES_COUNT.VERY_HIGH,
      TaskComplexityThresholds.DEPENDENCIES_COUNT.HIGH,
      TaskComplexityThresholds.DEPENDENCIES_COUNT.MEDIUM,
      TaskComplexityThresholds.NOTES_LENGTH.VERY_HIGH,
      TaskComplexityThresholds.NOTES_LENGTH.HIGH,
      TaskComplexityThresholds.NOTES_LENGTH.MEDIUM in Hrank.
    pose proof (thresholdsReached_le d 500 1000 2000).
    pose proof (thresholdsReached_le n 2 5 10).
    pose proof (thresholdsReached_le m 200 500 1000).
    clearbody level. destruct level; simpl in Hrank; split; try done; lia.
  - clearbody level. by destruct level.
Qed.

(** ** escapeShellArg and generateSearchCommand *)

Lemma isControlChar_spec (c : ascii) : isControlChar c = true <-> isControl c.
Proof.
  unfold isControlChar, isControl.
  rewrite orb_true_iff, Nat.leb_le, Nat.eqb_eq. done.
Qed.

Lemma isShellSpecial_spec (c : ascii) :
  isShellSpecial c = bool_decide (c ∈ shellSpecialChars).
Proof.
  destruct c as [[] [] [] [] [] [] [] []]; vm_compute; reflexivity.
Qed.

Lemma shellSafe_spec (c : ascii) :
  shellSafe c <-> isControlChar c = false /\ isShellSpecial c = false.
Proof.
  unfold shellSafe. rewrite isShellSpecial_spec, bool_decide_eq_false.
  rewrite <- isControlChar_spec. by destruct (isControlChar c); intuition.
Qed.

Lemma removeChars_filter (class : ascii -> bool) (s : string) :
  list_ascii_of_string (removeChars class s) =
  filter (fun c => class c = false) (list_ascii_of_string s).
Proof.
  induction s as [|c s IH]; [done|]. simpl. rewrite filter_cons.
  destruct (class c) eqn:E; simpl; by rewrite ?IH.
Qed.

Lemma escapeShellArg_filter (arg : string) :
  list_ascii_of_string (escapeShellArg arg) =
  filter shellSafe (list_ascii_of_string arg).
Proof.
  destruct arg as [|c arg]; [done|]. unfold escapeShellArg.
  rewrite !removeChars_filter, list_filter_filter.
  apply list_filter_iff. intros x. rewrite shellSafe_spec. tauto.
Qed.

Lemma filter_all {A} (P : A -> Prop) `{!forall x, Decision (P x)} (l : list A) :
  Forall P l -> filter P l = l.
Proof.
  induction 1 as [|x l Hx _ IH]; [done|]. by rewrite filter_cons_True, IH.
Qed.

Lemma escapeShellArg_safe_input (arg : string) :
  Forall shellSafe (list_ascii_of_string arg) -> escapeShellArg arg = arg.
Proof.
  intros Hsafe. rewrite <- (string_of_list_ascii_of_string (escapeShellArg arg)).
  rewrite escapeShellArg_filter, filter_all by done.
  apply string_of_list_ascii_of_string.
Qed.

Lemma escapeShellArg_output_safe (arg : string) :
  Forall shellSafe (list_ascii_of_string (escapeShellArg arg)).
Proof.
  rewrite escapeShellArg_filter. apply Forall_forall. intros c Hc.
  by apply list_elem_of_filter in Hc as [? _].
Qed.

(** X11. [escapeShellArg] keeps, in their order, exactly the code units of
    its argument that are neither control codes nor one of the nine
    characters it treats as special for a shell. So its result contains
    none of them, a string without them is returned as it is, and escaping
    twice is escaping once. *)
Theorem escapeShellArg_keeps_the_safe_characters (arg : string) :
  list_ascii_of_string (escapeShellArg arg) =
    filter shellSafe (list_ascii_of_string arg) /\
  (forall c, c ∈ list_ascii_of_string (escapeShellArg arg) ->
     ~ isControl c /\ c ∉ shellSpecialChars) /\
  (Forall shellSafe (list_ascii_of_string arg) -> escapeShellArg arg = arg) /\
  escapeShellArg (escapeShellArg arg) = escapeShellArg arg.
Proof.
  split_and!.
  - apply escapeShellArg_filter.
  - intros c Hc.
    exact (proj1 (Forall_forall _ _) (escapeShellArg_output_safe arg) c Hc).
  - apply escapeShellArg_safe_input.
  - apply escapeShellArg_safe_input, escapeShellArg_output_safe.
Qed.



(** ** The two tests for an identifier *)

Lemma hexRun_S (n : nat) (s : string) :
  JS.hexRun (S n) s =
  match JS.hexRun 1 s with Some r => JS.hexRun n r | None => None end.
Proof. destruct s as [|c s]; [done|]. simpl. by destruct (JS.isHexDigit c). Qed.

Lemma hexRun_length (n : nat) (s r : string) :
  JS.hexRun n s = Some r -> String.length s = n + String.length r.
Proof.
  revert s. induction n as [|n IH]; intros s; simpl.
  - by intros [= ->].
  - destruct s as [|c s]; [done|]. destruct (JS.isHexDigit c); [|done].
    intros Hrun. simpl. by rewrite (IH _ Hrun).
Qed.

Lemma hyphen_length (s r : string) :
  JS.hyphen s = Some r -> String.length s = 1 + String.length r.
Proof.
  destruct s as [|c s]; [done|]. simpl. case_bool_decide; [|done].
  by intros [= ->].
Qed.

Lemma versionDigit_hexRun (s r : string) :
  versionDigit s = Some r -> JS.hexRun 1 s = Some r.
Proof.
  destruct s as [|c s]; [done|]. simpl. case_bool_decide as Hc; [|done].
  by subst c.
Qed.

Lemma variantDigit_hexRun (s r : string) :
  variantDigit s = Some r -> JS.hexRun 1 s = Some r.
Proof.
  destruct s as [|c s]; [done|]. simpl. case_bool_decide as Hc; [|done].
  intros [= ->]. repeat (apply elem_of_cons in Hc as [->|Hc]; [reflexivity|]).
  by apply elem_of_nil in Hc.
Qed.

(** X13. Every string that [UUID_V4_REGEX] accepts as a task identifier has
    36 code units and passes the test by which [batchCreateOrUpdateTasks]
    tells an identifier from a task name in a dependency list. The
    converse fails: that test also passes strings whose version digit is
    not 4. *)
Theorem UUID_V4_REGEX_looksLikeUUID :
  (forall s, UUID_V4_REGEX s = true ->
     JS.looksLikeUUID s = true /\ String.length s = 36) /\
  exists s, JS.looksLikeUUID s = true /\ UUID_V4_REGEX s = false.
Proof.
  split.
  - intros s. unfold UUID_V4_REGEX, JS.looksLikeUUID.
    cbv beta zeta iota delta [foldl].
    destruct (JS.hexRun 8 s) as [s1|] eqn:E1; [|done].
    destruct (JS.hyphen s1) as [s2|] eqn:E2; [|done].
    destruct (JS.hexRun 4 s2) as [s3|] eqn:E3; [|done].
    destruct (JS.hyphen s3) as [s4|] eqn:E4; [|done].
    destruct (versionDigit s4) as [s5|] eqn:E5; [|done].
    destruct (JS.hexRun 3 s5) as [s6|] eqn:E6; [|done].
    destruct (JS.hyphen s6) as [s7|] eqn:E7; [|done].
    destruct (variantDigit s7) as [s8|] eqn:E8; [|done].
    destruct (JS.hexRun 3 s8) as [s9|] eqn:E9; [|done].
    destruct (JS.hyphen s9) as [s10|] eqn:E10; [|done].
    destruct (JS.hexRun 12 s10) as [s11|] eqn:E11; [|done].
    destruct s11; [|done]. intros _.
    rewrite (hexRun_S 3 s4), (versionDigit_hexRun _ _ E5), E6, E7.
    rewrite (hexRun_S 3 s7), (variantDigit_hexRun _ _ E8), E9, E10.
    split; [by rewrite E11|].
    apply versionDigit_hexRun in E5. apply variantDigit_hexRun in E8.
    apply hexRun_length in E1, E3, E5, E6, E8, E9, E11.
    apply hyphen_length in E2, E4, E7, E10. simpl in E11. lia.
  - exists "11111111-1111-1111-8111-111111111111". by vm_compute.
Qed.

(** ** Search: the archive filter *)

Lemma filterCurrentTasks_app (l1 l2 : list Task) (query : string) (isId : bool) :
  filterCurrentTasks (l1 ++ l2) query isId =
  filterCurrentTasks l1 query isId ++ filterCurrentTasks l2 query isId.
Proof.
  unfold filterCurrentTasks. destruct isId; [apply filter_app|].
  case_bool_decide; [done|apply filter_app].
Qed.

Lemma filterMemoryTasks_eq (tasks : list Task) (query : string) (isId : bool) :
  filterMemoryTasks tasks query isId = filterCurrentTasks tasks query isId.
Proof.
  unfold filterMemoryTasks, filterCurrentTasks. destruct isId; [done|].
  case_bool_decide as Hnone; [|done].
  apply filter_all, Forall_forall. done.
Qed.

Lemma collectMemoryTasks_eq (documents : list (list Task)) (query : string)
    (isId : bool) :
  collectMemoryTasks documents query isId =
  filterCurrentTasks (concat documents) query isId.
Proof.
  unfold collectMemoryTasks.
  assert (forall found,
    foldl (fun memoryTasks tasks => memoryTasks ++ filterMemoryTasks tasks query isId)
      found documents =
    found ++ filterCurrentTasks (concat documents) query isId) as Hgen.
  { induction documents as [|tasks documents IH]; intros found; simpl.
    - unfold filterCurrentTasks.
      destruct isId; [|case_bool_decide]; by rewrite ?filter_nil, app_nil_r.
    - rewrite IH, filterCurrentTasks_app, filterMemoryTasks_eq.
      by rewrite <- app_assoc. }
  apply Hgen.
Qed.

Lemma filterCurrentTasks_answers (tasks : list Task) (query : string)
    (isId : bool) (task : Task) :
  task ∈ filterCurrentTasks tasks query isId <->
  task ∈ tasks /\ answers query isId task.
Proof.
  unfold filterCurrentTasks, answers. destruct isId.
  - rewrite list_elem_of_filter. tauto.
  - case_bool_decide as Hnone.
    + split; [|tauto]. intros Hin. split; [done|].
      intros token Htoken. apply splitWhitespace_spec in Htoken.
      destruct (JS.splitWhitespace query); [by apply elem_of_nil in Htoken|done].
    + rewrite list_elem_of_filter, keywords_match_spec. tauto.
Qed.

Lemma elem_of_concat {A} (x : A) (ls : list (list A)) :
  x ∈ concat ls <-> exists l, l ∈ ls /\ x ∈ l.
Proof.
  induction ls as [|l ls IH]; simpl.
  - split; [by intros ?%elem_of_nil|]. by intros (l & ?%elem_of_nil & _).
  - rewrite elem_of_app, IH. split.
    + intros [Hx|(l' & Hl' & Hx)]; [exists l; split; [left|done]|].
      exists l'. split; [by right|done].
    + intros (l' & Hl' & Hx). apply elem_of_cons in Hl' as [->|Hl']; [by left|].
      right. by exists l'.
Qed.

(** X14. The filter that the search applies to the tasks of an archive
    document is the filter it applies to the live tasks, although the two
    are written separately; so the archive matches collected from the
    documents that were read are the tasks of those documents, in order,
    that the live filter accepts. *)
Theorem archive_filter_is_live_filter (documents : list (list Task))
    (query : string) (isId : bool) :
  (forall tasks,
     filterMemoryTasks tasks query isId = filterCurrentTasks tasks query isId) /\
  collectMemoryTasks documents query isId =
    filterCurrentTasks (concat documents) query isId /\
  (forall task,
     task ∈ collectMemoryTasks documents query isId <->
     (exists tasks, tasks ∈ documents /\ task ∈ tasks) /\ answers query isId task).
Proof.
  split_and!.
  - intros tasks. apply filterMemoryTasks_eq.
  - apply collectMemoryTasks_eq.
  - intros task. rewrite collectMemoryTasks_eq, filterCurrentTasks_answers.
    by rewrite elem_of_concat.
Qed.

(** ** Search: the merge of live and archived matches *)

Lemma mapSet_keys (key : string) (task : Task) (m : list (string * Task)) :
  map fst (mapSet key task m) =
  if decide (key ∈ map fst m) then map fst m else map fst m ++ [key].
Proof.
  induction m as [|[k v] m IH]; simpl.
  - destruct (decide (key ∈ [])) as [Hin|]; [by apply elem_of_nil in Hin|done].
  - case_bool_decide as Hk; simpl.
    + subst k. destruct (decide (key ∈ key :: map fst m)) as [|Hnot]; [done|].
      destruct Hnot. left.
    + rewrite IH.
      destruct (decide (key ∈ map fst m)), (decide (key ∈ k :: map fst m));
        try done; set_solver.
Qed.

Lemma mapSet_fresh (key : string) (task : Task) (m : list (string * Task)) :
  key ∉ map fst m -> mapSet key task m = m ++ [(key, task)].
Proof.
  induction m as [|[k v] m IH]; intros Hfresh; simpl; [done|].
  simpl in Hfresh. rewrite bool_decide_eq_false_2 by set_solver.
  rewrite IH; [done|set_solver].
Qed.

Lemma elem_of_mapSet (key : string) (task : Task) (m : list (string * Task))
    (entry : string * Task) :
  entry ∈ mapSet key task m -> entry = (key, task) \/ entry ∈ m.
Proof.
  induction m as [|[k v] m IH]; simpl.
  - intros ?%list_elem_of_singleton. by left.
  - case_bool_decide as Hk.
    + subst k. intros [->|?]%elem_of_cons; [by left|right; by right].
    + intros [->|Hin]%elem_of_cons; [right; left|].
      destruct (IH Hin) as [?|?]; [by left|right; by right].
Qed.

Lemma mapHas_spec (key : string) (m : list (string * Task)) :
  mapHas key m = true <-> key ∈ map fst m.
Proof.
  unfold mapHas. rewrite existsb_exists. change (map ?f ?l) with (f <$> l).
  rewrite list_elem_of_fmap. split.
  - intros ([k v] & Hin & Heq). apply bool_decide_eq_true in Heq.
    exists (k, v). split; [done|]. by apply list_elem_of_In.
  - intros ([k v] & -> & Hin). exists (k, v).
    split; [by apply list_elem_of_In|]. by apply bool_decide_eq_true.
Qed.

(** The invariant of the two loops that fill [taskMap]: the keys are
    distinct, every entry is filed under its identifier and satisfies [Q],
    and the keys cover the identifiers [ids]. *)
Lemma taskMap_set_invariant (Q : Task -> Prop) (ids : list string)
    (m : list (string * Task)) (task : Task) :
  NoDup (map fst m) ->
  (forall k t, (k, t) ∈ m -> id t = k /\ Q t) ->
  (forall k, k ∈ ids -> k ∈ map fst m) ->
  Q task ->
  let m' := mapSet (id task) task m in
  NoDup (map fst m') /\
  (forall k t, (k, t) ∈ m' -> id t = k /\ Q t) /\
  (forall k, k ∈ id task :: ids -> k ∈ map fst m').
Proof.
  intros Hdistinct Hentries Hcover Htask m'. subst m'. rewrite mapSet_keys.
  split_and!.
  - case_decide; [done|]. apply NoDup_app. split_and!; [done| |apply NoDup_singleton].
    intros k Hk ?%list_elem_of_singleton. by subst.
  - intros k t [[= -> ->]|Hin]%elem_of_mapSet; [done|by apply Hentries].
  - intros k [->|Hk]%elem_of_cons.
    + case_decide; [done|]. apply elem_of_app. right. left.
    + case_decide; [by apply Hcover|]. apply elem_of_app. left. by apply Hcover.
Qed.

Lemma mergeResults_live_first (live archived : list Task) :
  NoDup (map id live) ->
  exists rest,
    mergeResults live archived = live ++ rest /\ rest `sublist_of` archived.
Proof.
  intros Hdistinct. unfold mergeResults.
  assert (forall m,
            NoDup (map fst m ++ map id live) ->
            foldl (fun m task => mapSet (id task) task m) m live =
            m ++ map (fun task => (id task, task)) live) as Hfirst.
  { clear Hdistinct. induction live as [|task live IH]; intros m Hm; simpl.
    - by rewrite app_nil_r.
    - simpl in Hm. rewrite mapSet_fresh.
      + rewrite IH; [by rewrite <- app_assoc|].
        rewrite map_app. simpl. by rewrite <- app_assoc.
      + apply NoDup_app in Hm as (_ & Hm & _). intros Hin.
        apply (Hm _ Hin). left. }
  rewrite (Hfirst []) by done. simpl.
  assert (forall m,
            exists rest,
              foldl (fun m task =>
                       if mapHas (id task) m then m else mapSet (id task) task m)
                m archived =
              m ++ map (fun task => (id task, task)) rest /\
              rest `sublist_of` archived) as Hsecond.
  { induction archived as [|task archived IH]; intros m; simpl.
    - exists []. by rewrite app_nil_r.
    - destruct (mapHas (id task) m) eqn:Ehas.
      + destruct (IH m) as (rest & -> & Hsub). exists rest.
        split; [done|by apply sublist_cons].
      + rewrite mapSet_fresh.
        2:{ intros Hin. apply mapHas_spec in Hin. congruence. }
        destruct (IH (m ++ [(id task, task)])) as (rest & -> & Hsub).
        exists (task :: rest). rewrite <- app_assoc. split; [done|].
        by apply sublist_skip. }
  destruct (Hsecond (map (fun task => (id task, task)) live)) as (rest & -> & Hsub).
  exists rest. split; [|done].
  rewrite map_app, !map_map. simpl. by rewrite !map_id.
Qed.

Lemma mergeResults_sound (live archived : list Task) :
  let merged := mergeResults live archived in
  NoDup (map id merged) /\
  (forall task, task ∈ merged ->
     task ∈ live \/ task ∈ archived /\ id task ∉ map id live) /\
  (forall task, task ∈ live ++ archived -> id task ∈ map id merged).
Proof.
  intros merged. subst merged. unfold mergeResults.
  set (Q := fun task => task ∈ live \/ task ∈ archived /\ id task ∉ map id live).
  assert (forall l ids m,
            NoDup (map fst m) ->
            (forall k t, (k, t) ∈ m -> id t = k /\ Q t) ->
            (forall k, k ∈ ids -> k ∈ map fst m) ->
            (forall task, task ∈ l -> Q task) ->
            let m' := foldl (fun m task => mapSet (id task) task m) m l in
            NoDup (map fst m') /\
            (forall k t, (k, t) ∈ m' -> id t = k /\ Q t) /\
            (forall k, k ∈ map id l ++ ids -> k ∈ map fst m')) as Hfirst.
  { induction l as [|task l IH]; intros ids m Hdistinct Hentries Hcover HQ; simpl.
    - done.
    - destruct (taskMap_set_invariant Q ids m task Hdistinct Hentries Hcover)
        as (Hdistinct' & Hentries' & Hcover'); [apply HQ; left|].
      destruct (IH (id task :: ids) _ Hdistinct' Hentries' Hcover')
        as (H1 & H2 & H3); [intros t Ht; apply HQ; by right|].
      split_and!; [done|done|]. intros k Hk. apply H3. set_solver. }
  destruct (Hfirst live [] []) as (Hdistinct & Hentries & Hcover).
  { constructor. } { by intros k t ?%elem_of_nil. } { by intros k ?%elem_of_nil. }
  { intros task Hin. by left. }
  rewrite app_nil_r in Hcover.
  set (m1 := foldl (fun m task => mapSet (id task) task m) [] live) in *.
  assert (forall l ids m,
            NoDup (map fst m) ->
            (forall k t, (k, t) ∈ m -> id t = k /\ Q t) ->
            (forall k, k ∈ map id live ++ ids -> k ∈ map fst m) ->
            (forall task, task ∈ l -> task ∈ archived) ->
            let m' :=
              foldl (fun m task =>
                       if mapHas (id task) m then m else mapSet (id task) task m)
                m l in
            NoDup (map fst m') /\
            (forall k t, (k, t) ∈ m' -> id t = k /\ Q t) /\
            (forall k, k ∈ map id live ++ map id l ++ ids -> k ∈ map fst m'))
    as Hsecond.
  { induction l as [|task l IH]; intros ids m Hd He Hc Hl; simpl.
    - done.
    - destruct (mapHas (id task) m) eqn:Ehas.
      + destruct (IH (id task :: ids) m Hd He) as (H1 & H2 & H3).
        * intros k Hk. apply elem_of_app in Hk as [Hk|[->|Hk]%elem_of_cons].
          -- apply Hc. set_solver.
          -- by apply mapHas_spec.
          -- apply Hc. set_solver.
        * intros t Ht. apply Hl. by right.
        * split_and!; [done|done|]. intros k Hk. apply H3. set_solver.
      + assert (id task ∉ map fst m) as Hfresh.
        { intros Hin. apply mapHas_spec in Hin. congruence. }
        destruct (taskMap_set_invariant Q (map id live ++ ids) m task Hd He Hc)
          as (Hd' & He' & Hc').
        { right. split; [apply Hl; left|]. intros Hin. apply Hfresh, Hc. set_solver. }
        destruct (IH (id task :: ids) _ Hd' He') as (H1 & H2 & H3).
        * intros k Hk. apply Hc'. set_solver.
        * intros t Ht. apply Hl. by right.
        * split_and!; [done|done|]. intros k Hk. apply H3. set_solver. }
  destruct (Hsecond archived [] m1 Hdistinct Hentries) as (Hd & He & Hc).
  { intros k Hk. apply Hcover. set_solver. } { done. }
  set (m2 := foldl _ m1 archived) in *.
  assert (map id (map snd m2) = map fst m2) as Hids.
  { rewrite map_map. apply map_ext_in. intros [k t] Hin. simpl.
    apply list_elem_of_In in Hin. by destruct (He k t Hin). }
  rewrite Hids. split_and!.
  - done.
  - intros task Hin. change (map ?f ?l) with (f <$> l) in Hin.
    apply list_elem_of_fmap in Hin as ([k t] & -> & Hin). simpl.
    by destruct (He k t Hin).
  - intros task Hin. apply Hc. rewrite app_nil_r.
    change (map ?f ?l) with (f <$> l).
    apply elem_of_app in Hin as [Hin|Hin]; apply elem_of_app; [left|right];
      by apply list_elem_of_fmap_2.
Qed.

(** X15. The merge of the live matches with the archive matches holds each
    identifier once and takes every task from one of the two lists; an
    archived task is only taken when no live match has its identifier, and
    every identifier of either list is in the merge. When the identifiers
    of the live matches are distinct, the merge is the live matches in
    their order, followed by archived tasks in the order of the archive. *)
Theorem mergeResults_prefers_live (live archived : list Task) :
  let merged := mergeResults live archived in
  NoDup (map id merged) /\
  (forall task, task ∈ merged ->
     task ∈ live \/ task ∈ archived /\ id task ∉ map id live) /\
  (forall task, task ∈ live ++ archived -> id task ∈ map id merged) /\
  (NoDup (map id live) ->
   exists rest, merged = live ++ rest /\ rest `sublist_of` archived).
Proof.
  intros merged. destruct (mergeResults_sound live archived) as (H1 & H2 & H3).
  split_and!; [done|done|done|apply mergeResults_live_first].
Qed.

(** ** Search: the order of the results *)

Lemma compareTasks_notAfter (a b : Task) :
  (compareTasks a b <= 0)%Z <-> notAfter a b.
Proof.
  unfold compareTasks, notAfter.
  destruct (completedAt a), (completedAt b); lia.
Qed.

Lemma notAfter_total (a b : Task) : notAfter a b \/ notAfter b a.
Proof. unfold notAfter. destruct (completedAt a), (completedAt b); lia. Qed.

Lemma notAfter_trans (a b c : Task) : notAfter a b -> notAfter b c -> notAfter a c.
Proof.
  unfold notAfter. destruct (completedAt a), (completedAt b), (completedAt c); lia.
Qed.

Lemma compareTasks_antisym (a b : Task) :
  ~ (compareTasks a b < 0)%Z -> notAfter b a.
Proof.
  unfold compareTasks, notAfter. destruct (completedAt a), (completedAt b); lia.
Qed.

Lemma sortInsert_Permutation (task : Task) (sorted : list Task) :
  sortInsert task sorted ≡ₚ task :: sorted.
Proof.
  induction sorted as [|other sorted IH]; simpl; [done|].
  destruct (compareTasks other task <? 0)%Z; [|done].
  rewrite IH. apply Permutation_swap.
Qed.

Lemma sortInsert_sorted (task : Task) (sorted : list Task) :
  inResultOrder sorted -> inResultOrder (sortInsert task sorted).
Proof.
  induction sorted as [|other sorted IH]; intros Hsorted; simpl.
  - by split.
  - destruct Hsorted as [Hother Hsorted].
    destruct (Z.ltb_spec (compareTasks other task) 0) as [Hlt|Hge].
    + split; [|by apply IH].
      rewrite sortInsert_Permutation. constructor; [|done].
      apply compareTasks_notAfter. lia.
    + assert (notAfter task other) as Hfirst by (apply compareTasks_antisym; lia).
      split; [|by split]. constructor; [done|].
      eapply Forall_impl; [exact Hother|]. intros x Hx.
      by eapply notAfter_trans.
Qed.

Lemma sortTasks_Permutation (tasks : list Task) : sortTasks tasks ≡ₚ tasks.
Proof.
  unfold sortTasks. induction tasks as [|task tasks IH]; simpl; [done|].
  by rewrite sortInsert_Permutation, IH.
Qed.

(** X16. The sort of the search results rearranges them without loss: the
    sorted list is a permutation of the merged one, every task stands
    before all the tasks that it is not after, so the completed tasks come
    first, from the last completed to the first, and the other tasks
    follow, from the last updated to the first. *)
Theorem sortTasks_sorts (tasks : list Task) :
  sortTasks tasks ≡ₚ tasks /\
  forall i j a b,
    sortTasks tasks !! i = Some a -> sortTasks tasks !! j = Some b -> i < j ->
    notAfter a b /\
    (completedAt a = None -> completedAt b = None) /\
    (forall ca cb, completedAt a = Some ca -> completedAt b = Some cb -> (cb <= ca)%Z) /\
    (completedAt a = None -> completedAt b = None -> (updatedAt b <= updatedAt a)%Z).
Proof.
  assert (inResultOrder (sortTasks tasks)) as Hsorted.
  { unfold sortTasks. induction tasks as [|task tasks IH]; simpl; [done|].
    by apply sortInsert_sorted. }
  split; [apply sortTasks_Permutation|].
  intros i j a b Hi Hj Hlt.
  assert (notAfter a b) as Hab.
  { revert i j Hsorted Hi Hj Hlt.
    induction (sortTasks tasks) as [|x l IH]; intros i j Hordered Hi Hj Hlt.
    - done.
    - destruct Hordered as [Hx Hl].
      destruct i as [|i], j as [|j]; try lia; simpl in Hi, Hj.
      + injection Hi as ->. rewrite Forall_forall in Hx. apply Hx.
        by eapply list_elem_of_lookup_2.
      + eapply IH; [done|done|done|lia]. }
  split; [done|]. unfold notAfter in Hab.
  destruct (completedAt a), (completedAt b); split_and!; try done; congruence.
Qed.

(** ** Search: what is found *)

Lemma paginate_sublist (allTasks : list Task) (page pageSize : Z) :
  SearchResult.tasks (paginate allTasks page pageSize) `sublist_of` allTasks.
Proof.
  unfold paginate, JS.slice. cbn [SearchResult.tasks].
  etrans; [apply sublist_take|apply sublist_drop].
Qed.

Lemma searchTasks_eq (documents : list (list Task)) (query : string)
    (isId : bool) (page pageSize : Z) (w : World) :
  searchTasks documents query isId page pageSize w =
  (paginate
     (sortTasks
        (mergeResults (filterCurrentTasks (storedTasks w) query isId)
           (filterCurrentTasks (concat documents) query isId)))
     page pageSize,
   ensureDataDir w).
Proof.
  unfold searchTasks, searchTasksWithCommand, combinedResults.
  by rewrite readTasks_eq, collectMemoryTasks_eq.
Qed.

(** X17. Whatever page is asked for, the tasks that a search returns have
    distinct identifiers, each of them answers the query (it has the
    identifier searched for, or every keyword of the query occurs in it),
    and each is a live task or a task of one of the archive documents read;
    an archived task is only returned when no live task that answers the
    query has its identifier. The search writes nothing. *)
Theorem search_results_answer_the_query (documents : list (list Task))
    (query : string) (isId : bool) (page pageSize : Z) (w : World) :
  let r := searchTasks documents query isId page pageSize w in
  r.2 = ensureDataDir w /\
  NoDup (map id (SearchResult.tasks r.1)) /\
  forall task, task ∈ SearchResult.tasks r.1 ->
    answers query isId task /\
    (task ∈ storedTasks w \/
     (exists tasks, tasks ∈ documents /\ task ∈ tasks) /\
     forall live, live ∈ storedTasks w -> answers query isId live ->
                  id live <> id task).
Proof.
  intros r. subst r. rewrite searchTasks_eq. cbn [fst snd].
  set (live := filterCurrentTasks (storedTasks w) query isId).
  set (archived := filterCurrentTasks (concat documents) query isId).
  destruct (mergeResults_sound live archived) as (Hdistinct & Hfrom & _).
  cbn zeta in Hdistinct, Hfrom.
  pose proof (paginate_sublist (sortTasks (mergeResults live archived)) page pageSize)
    as Hsub.
  split_and!; [done| |].
  - eapply sublist_NoDup; [|apply (fmap_sublist id), Hsub].
    change (id <$> ?l) with (map id l).
    eapply NoDup_Permutation_proper; [|exact Hdistinct].
    apply Permutation_map, sortTasks_Permutation.
  - intros task Hin.
    assert (task ∈ mergeResults live archived) as Hmerged.
    { rewrite <- (sortTasks_Permutation (mergeResults live archived)).
      by eapply elem_of_sublist. }
    destruct (Hfrom task Hmerged) as [Hlive|[Harchived Hnew]].
    + apply filterCurrentTasks_answers in Hlive as [? ?]. split; [done|by left].
    + apply filterCurrentTasks_answers in Harchived as [Hdoc ?]. split; [done|].
      right. split; [by apply elem_of_concat|].
      intros other Hother Hanswers Hid. apply Hnew. rewrite <- Hid.
      change (map ?f ?l) with (f <$> l). apply list_elem_of_fmap_2.
      by apply filterCurrentTasks_answers.
Qed.

Lemma mergeResults_one_identifier (taskId : string) (live archived : list Task) :
  (forall task, task ∈ live -> id task = taskId) ->
  (forall task, task ∈ archived -> id task = taskId) ->
  mergeResults live archived =
  option_list (match last live with Some task => Some task | None => head archived end).
Proof.
  intros Hlive Harchived. unfold mergeResults.
  assert (forall l m,
            (forall task, task ∈ l -> id task = taskId) ->
            m = [] \/ (exists task, m = [(taskId, task)]) ->
            foldl (fun m task => mapSet (id task) task m) m l =
            match last l with Some task => [(taskId, task)] | None => m end) as Hfirst.
  { induction l as [|task l IH]; intros m Hl Hm; [done|].
    simpl foldl. rewrite (Hl task) by left.
    assert (mapSet taskId task m = [(taskId, task)]) as ->.
    { destruct Hm as [->|[other ->]]; [done|].
      simpl. by rewrite bool_decide_eq_true_2. }
    rewrite IH; [|intros t Ht; apply Hl; by right|right; by eexists].
    rewrite last_cons. by destruct (last l). }
  rewrite (Hfirst live []) by (done || by left).
  assert (forall l task,
            foldl (fun m task =>
                     if mapHas (id task) m then m else mapSet (id task) task m)
              [(taskId, task)] l = [(taskId, task)] \/ ~ (forall t, t ∈ l -> id t = taskId))
    as Hkeep.
  { induction l as [|t l IH]; intros task; [by left|].
    destruct (decide (id t = taskId)) as [Hid|Hid].
    - simpl. rewrite Hid. rewrite bool_decide_eq_true_2 by done. simpl.
      destruct (IH task) as [->|Hnot]; [by left|].
      right. intros Hall. apply Hnot. intros t' Ht'. apply Hall. by right.
    - right. intros Hall. apply Hid, Hall. left. }
  destruct (last live) as [task|].
  - by destruct (Hkeep archived task) as [->|Hnot].
  - destruct archived as [|first archived]; [done|].
    simpl. rewrite (Harchived first) by left.
    destruct (Hkeep archived first) as [->|Hnot]; [done|].
    destruct Hnot. intros t Ht. apply Harchived. by right.
Qed.

(** X18. [getTaskDetail] searches by identifier and asks for one result. It
    shows the live task of that identifier (the last one stored, should
    several bear it); only when the store has none does it show the first
    task of that identifier in the archive documents read; it reports that
    the task is not found exactly when neither exists. In a store with
    distinct identifiers the live task shown is the one that [getTaskById]
    returns. *)
Theorem getTaskDetail_finds_live_then_archived (documents : list (list Task))
    (taskId : string) (w : World) :
  let r := getTaskDetail documents taskId w in
  let live := filter (fun task => id task = taskId) (storedTasks w) in
  let archived := filter (fun task => id task = taskId) (concat documents) in
  r.2 = ensureDataDir w /\
  r.1 = match last live with
        | Some task => DetailTool.Found task
        | None =>
            match head archived with
            | Some task => DetailTool.Found task
            | None => DetailTool.NotFound
            end
        end /\
  (r.1 = DetailTool.NotFound <->
   (forall task, task ∈ storedTasks w -> id task <> taskId) /\
   (forall tasks task, tasks ∈ documents -> task ∈ tasks -> id task <> taskId)) /\
  (NoDup (map id (storedTasks w)) ->
   forall task, (getTaskById taskId w).1 = Some task -> r.1 = DetailTool.Found task).
Proof.
  intros r live archived.
  assert (r = (match last live with
               | Some task => DetailTool.Found task
               | None =>
                   match head archived with
                   | Some task => DetailTool.Found task
                   | None => DetailTool.NotFound
                   end
               end, ensureDataDir w)) as Hr.
  { subst r. unfold getTaskDetail. rewrite searchTasks_eq.
    unfold filterCurrentTasks. fold live. fold archived.
    rewrite (mergeResults_one_identifier taskId).
    2:{ intros task Hin. by apply list_elem_of_filter in Hin as [? _]. }
    2:{ intros task Hin. by apply list_elem_of_filter in Hin as [? _]. }
    destruct (last live) as [task|]; [done|].
    by destruct (head archived) as [task|]. }
  rewrite Hr. cbn [fst snd]. split_and!; [done|done| |].
  - split.
    + intros Hnone. destruct (last live) as [task|] eqn:Elast; [done|].
      destruct (head archived) as [task|] eqn:Ehead; [done|].
      apply last_None in Elast. apply head_None in Ehead. split.
      * intros task Hin Hid.
        assert (task ∈ live) as Hlive by by apply list_elem_of_filter.
        rewrite Elast in Hlive. by apply elem_of_nil in Hlive.
      * intros tasks task Htasks Hin Hid.
        assert (task ∈ archived) as Harchived.
        { apply list_elem_of_filter. split; [done|]. apply elem_of_concat. eauto. }
        rewrite Ehead in Harchived. by apply elem_of_nil in Harchived.
    + intros [Hlive Harchived].
      assert (live = []) as ->.
      { apply filter_none. intros task Hin. by apply Hlive. }
      assert (archived = []) as ->; [|done].
      apply filter_none. intros task Hin.
      apply elem_of_concat in Hin as (tasks & Htasks & Hin). by eapply Harchived.
  - intros Hdistinct task Hfound. rewrite getTaskById_eq in Hfound. cbn [fst] in Hfound.
    destruct (findIndex_cases taskId (storedTasks w))
      as [[E _]|(i & first & E & Hfirst)]; rewrite E in Hfound; [done|].
    injection Hfound as ->.
    assert (live = [task]) as ->; [|done].
    subst live. destruct Hfirst as (Hi & Hid & _).
    apply take_drop_middle in Hi. rewrite <- Hi in Hdistinct |- *.
    rewrite map_app in Hdistinct. simpl in Hdistinct.
    apply NoDup_app in Hdistinct as (_ & Hbefore & Hafter).
    apply NoDup_cons in Hafter as [Hafter _].
    rewrite filter_app, filter_cons_True by done.
    rewrite !filter_none; [done| |].
    + intros other Hin Hother. apply Hafter. rewrite Hid, <- Hother.
      change (map ?f ?l) with (f <$> l). by apply list_elem_of_fmap_2.
    + intros other Hin Hother. apply (Hbefore (id other)).
      * change (map ?f ?l) with (f <$> l). by apply list_elem_of_fmap_2.
      * rewrite Hother, <- Hid. left.
Qed.

(** ** Batch reconciliation in the modes that always create *)

Lemma uuidCalls_writeTasks tasks w : uuidCalls (writeTasks tasks w) = uuidCalls w.
Proof. unfold writeTasks. simpl. apply ensureDataDir_uuidCalls. Qed.

Lemma dateCalls_writeTasks tasks w : dateCalls (writeTasks tasks w) = dateCalls w.
Proof. unfold writeTasks. simpl. apply ensureDataDir_dateCalls. Qed.

Section BatchModes.
Variable uuidv4 : nat -> string.
Variable Date_now : nat -> Z.
Variable updateMode : UpdateMode.
Variable existingTasks : list Task.
Variable globalAnalysisResult : option string.

Lemma creating_run_tasks (l : list TaskData.t) (st : BatchState) :
  updateMode <> selective ->
  let st' :=
    foldl (materialize uuidv4 Date_now updateMode existingTasks globalAnalysisResult)
      st l in
  tasksToKeep st' = tasksToKeep st /\
  newTasks st' =
    newTasks st ++
    imap (fun k taskData =>
            makeNewTask (uuidv4 (uuidCalls (world st) + k)) taskData
              globalAnalysisResult
              (Date_now (dateCalls (world st) + 2 * k))
              (Date_now (S (dateCalls (world st) + 2 * k)))) l /\
  tasksFile (world st') = tasksFile (world st) /\
  memoryDir (world st') = memoryDir (world st) /\
  uuidCalls (world st') = uuidCalls (world st) + length l /\
  dateCalls (world st') = dateCalls (world st) + 2 * length l.
Proof.
  intros Hmode. revert st. induction l as [|taskData l IH]; intros st.
  - simpl. rewrite app_nil_r. split_and!; try done; lia.
  - simpl foldl.
    assert (materialize uuidv4 Date_now updateMode existingTasks
              globalAnalysisResult st taskData =
            {| taskNameToIdMap :=
                 <[TaskData.name taskData := uuidv4 (uuidCalls (world st))]>
                   (taskNameToIdMap st);
               tasksToKeep := tasksToKeep st;
               newTasks :=
                 newTasks st ++
                 [makeNewTask (uuidv4 (uuidCalls (world st))) taskData
                    globalAnalysisResult (Date_now (dateCalls (world st)))
                    (Date_now (S (dateCalls (world st))))];
               world :=
                 {| tasksFile := tasksFile (world st);
                    memoryDir := memoryDir (world st);
                    uuidCalls := S (uuidCalls (world st));
                    dateCalls := S (S (dateCalls (world st))) |} |}) as ->.
    { unfold materialize. by rewrite bool_decide_eq_false_2. }
    destruct (IH {| taskNameToIdMap :=
                      <[TaskData.name taskData := uuidv4 (uuidCalls (world st))]>
                        (taskNameToIdMap st);
                    tasksToKeep := tasksToKeep st;
                    newTasks :=
                      newTasks st ++
                      [makeNewTask (uuidv4 (uuidCalls (world st))) taskData
                         globalAnalysisResult (Date_now (dateCalls (world st)))
                         (Date_now (S (dateCalls (world st))))];
                    world :=
                      {| tasksFile := tasksFile (world st);
                         memoryDir := memoryDir (world st);
                         uuidCalls := S (uuidCalls (world st));
                         dateCalls := S (S (dateCalls (world st))) |} |})
      as (Hkept & Hnews & Hfile & Hmem & Huuid & Hdate).
    cbn [tasksToKeep newTasks world tasksFile memoryDir uuidCalls dateCalls]
      in Hkept, Hnews, Hfile, Hmem, Huuid, Hdate.
    split_and!; [done| |done|done|simpl; lia|simpl; lia].
    rewrite Hnews, <- app_assoc. f_equal. simpl. f_equal.
    + f_equal; [f_equal; lia|f_equal; lia|do 2 f_equal; lia].
    + apply imap_ext. intros k spec _. simpl.
      f_equal; [f_equal; lia|f_equal; lia|do 2 f_equal; lia].
Qed.

Lemma creating_batch (taskDataList : list TaskData.t) (w : World) :
  updateMode <> selective ->
  storedTasks w = existingTasks ->
  let kept :=
    match updateMode with
    | append => existingTasks
    | overwrite => filter (fun task => status task = COMPLETED) existingTasks
    | _ => []
    end in
  exists news w' nameToId others,
    batchCreateOrUpdateTasks uuidv4 Date_now taskDataList updateMode
      globalAnalysisResult w = (Returned news, writeTasks (kept ++ news) w') /\
    length news = length taskDataList /\
    memoryDir w' = memoryDir w /\
    uuidCalls w' = uuidCalls w + length taskDataList /\
    dateCalls w' = dateCalls w + 2 * length taskDataList /\
    forall k taskData, taskDataList !! k = Some taskData ->
      news !! k =
        Some (assignDependencies nameToId others taskData
                (makeNewTask (uuidv4 (uuidCalls w + k)) taskData globalAnalysisResult
                   (Date_now (dateCalls w + 2 * k))
                   (Date_now (S (dateCalls w + 2 * k))))).
Proof.
  intros Hmode Hstored kept.
  pose proof (batch_unfold uuidv4 Date_now updateMode existingTasks
                globalAnalysisResult taskDataList w Hstored) as Hr.
  cbn zeta in Hr. rewrite stateAfter_all in Hr by done.
  unfold materializeAll in Hr.
  match type of Hr with
  | context [foldl _ ?st0 taskDataList] =>
      destruct (creating_run_tasks taskDataList st0 Hmode)
        as (Hkept & Hnews & _ & Hmem & Huuid & Hdate);
      set (st := foldl _ st0 taskDataList) in *
  end.
  cbn [tasksToKeep newTasks world app] in Hkept, Hnews, Hmem, Huuid, Hdate.
  rewrite ensureDataDir_memoryDir in Hmem.
  rewrite ensureDataDir_uuidCalls in Huuid, Hnews.
  rewrite ensureDataDir_dateCalls in Hdate, Hnews.
  assert (tasksToKeep st = kept) as Hkept'.
  { rewrite Hkept. subst kept. by destruct updateMode. }
  destruct (handleDependencies_total (taskNameToIdMap st) (tasksToKeep st)
              taskDataList 0 (newTasks st)) as [news Hnews'].
  { intros o taskData Ho _. rewrite Hnews, length_imap. simpl.
    by eapply lookup_lt_Some. }
  rewrite Hnews' in Hr.
  destruct (handleDependencies_returned _ _ _ _ _ _ Hnews') as [Hids Heach].
  assert (length news = length taskDataList) as Hlen.
  { rewrite <- (length_map id news), Hids, length_map, Hnews. apply length_imap. }
  exists news, (world st), (taskNameToIdMap st), (tasksToKeep st ++ newTasks st).
  rewrite Hr, Hkept'. split_and!; try done.
  intros k taskData Hk.
  set (task := makeNewTask (uuidv4 (uuidCalls w + k)) taskData globalAnalysisResult
                 (Date_now (dateCalls w + 2 * k)) (Date_now (S (dateCalls w + 2 * k)))).
  assert (newTasks st !! k = Some task) as Hnew.
  { rewrite Hnews, list_lookup_imap, Hk. done. }
  specialize (Heach k task Hnew). rewrite decide_False in Heach by lia.
  by rewrite Nat.sub_0_r, Hk, Hkept' in Heach.
Qed.


End BatchModes.

(** ** The callers in the tools *)

Section Tools.
Variable Date_now : nat -> Z.
Variable toISOString : Z -> string.

Lemma clearAllTasks_empty (w : World) :
  storedTasks w = [] ->
  clearAllTasks Date_now toISOString w =
    (ClearResult.mk true "No tasks to clear" None, ensureDataDir w).
Proof.
  intros Hempty. unfold clearAllTasks.
  by rewrite readTasks_eq, ensureDataDir_idemp, ensureDataDir_stored, Hempty.
Qed.

Lemma clearAllTasks_nonempty (w : World) :
  storedTasks w <> [] ->
  exists message w',
    clearAllTasks Date_now toISOString w =
      (ClearResult.mk true message
         (Some (archiveName toISOString (Date_now (dateCalls w)))), w') /\
    tasksFile w' = Some [] /\
    memoryDir w' =
      <[archiveName toISOString (Date_now (dateCalls w)) :=
          filter (fun task => status task = COMPLETED) (storedTasks w)]> (memoryDir w) /\
    uuidCalls w' = uuidCalls w /\ dateCalls w' = S (dateCalls w).
Proof.
  intros Hne. unfold clearAllTasks.
  rewrite readTasks_eq, ensureDataDir_idemp, ensureDataDir_stored.
  assert (ensureDataDir w = w) as ->.
  { destruct (storedTasks w) eqn:E; [done|]. by eapply stored_nonempty_existing. }
  rewrite bool_decide_eq_false_2.
  2:{ intros Hlen. by apply length_zero_iff_nil in Hlen. }
  eexists _, _. split; [reflexivity|].
  rewrite memoryDir_writeTasks, uuidCalls_writeTasks, dateCalls_writeTasks.
  by split_and!.
Qed.

(** X20. The tool [clearAllTasks] writes only when it is confirmed and the
    store is not empty: without confirmation nothing at all is touched, and
    on an empty store no archive document is written. Otherwise it leaves
    the store empty and one archive document with the COMPLETED tasks, and
    a second confirmed call finds nothing to clear and changes nothing. *)
Theorem clearAllTasksTool_writes_only_when_confirmed (confirm : bool) (w : World) :
  let r := clearAllTasksTool Date_now toISOString confirm w in
  (confirm = false -> r = (ClearTool.NotConfirmed, w)) /\
  (confirm = true -> storedTasks w = [] -> r = (ClearTool.Empty, ensureDataDir w)) /\
  (confirm = true -> storedTasks w <> [] ->
   exists result,
     r.1 = ClearTool.Cleared result /\
     ClearResult.success result = true /\
     ClearResult.backupFile result =
       Some (archiveName toISOString (Date_now (dateCalls w))) /\
     storedTasks r.2 = [] /\
     memoryDir r.2 =
       <[archiveName toISOString (Date_now (dateCalls w)) :=
           filter (fun task => status task = COMPLETED) (storedTasks w)]>
         (memoryDir w) /\
     clearAllTasksTool Date_now toISOString true r.2 = (ClearTool.Empty, r.2)) /\
  (memoryDir r.2 <> memoryDir w -> confirm = true /\ storedTasks w <> []).
Proof.
  intros r. subst r. unfold clearAllTasksTool, getAllTasks.
  destruct confirm; cbn [negb]; [|by split_and!].
  rewrite readTasks_eq.
  destruct (decide (storedTasks w = [])) as [Hempty|Hne].
  - rewrite Hempty. simpl. split_and!; try done.
    intros Hmem. by rewrite ensureDataDir_memoryDir in Hmem.
  - rewrite bool_decide_eq_false_2.
    2:{ intros Hlen. by apply length_zero_iff_nil in Hlen. }
    assert (ensureDataDir w = w) as ->.
    { destruct (storedTasks w) eqn:E; [done|]. by eapply stored_nonempty_existing. }
    destruct (clearAllTasks_nonempty w Hne)
      as (message & w' & -> & Hfile & Hmem & _).
    assert (storedTasks w' = []) as Hstored by (unfold storedTasks; by rewrite Hfile).
    cbn [fst snd]. split_and!; try done.
    intros _ _. eexists. split_and!; try done.
    rewrite readTasks_eq, Hstored. simpl.
    by rewrite (ensureDataDir_existing _ _ Hfile).
Qed.

End Tools.

Lemma deleteTask_blocked (taskId : string) (w : World) (i : nat) (task : Task) :
  firstWithId taskId (storedTasks w) i task ->
  status task <> COMPLETED ->
  filter (dependsOn taskId) (delete i (storedTasks w)) <> [] ->
  deleteTask taskId w =
    (DeleteResult.mk false
       (referencedMessage (filter (dependsOn taskId) (delete i (storedTasks w)))),
     w).
Proof.
  intros Hfirst Hstatus Hsome. unfold deleteTask.
  rewrite readTasks_eq, (findIndex_first _ _ _ _ Hfirst).
  rewrite (firstWithId_existing _ _ _ _ Hfirst).
  rewrite bool_decide_eq_false_2 by done.
  rewrite bool_decide_eq_true_2; [done|].
  destruct (filter _ _); [done|simpl; lia].
Qed.

(** X21. The tool [deleteTask] looks the task up before it calls the model.
    It reports an error exactly when the store is left as it was: for an
    unknown identifier, for a COMPLETED task, and for a task that another
    stored task depends on. It reports success exactly when the first task
    of that identifier, which is not COMPLETED and which no other task
    depends on, has been removed from the store. Because of the lookup the
    model never answers the tool that the task is not found or
    completed. *)
Theorem deleteTaskTool_reports_what_happened (taskId : string) (w : World) :
  let r := deleteTaskTool taskId w in
  (DeleteTool.isError r.1 = true ->
   storedTasks r.2 = storedTasks w /\ memoryDir r.2 = memoryDir w) /\
  (DeleteTool.isError r.1 = false ->
   exists i task,
     firstWithId taskId (storedTasks w) i task /\ status task <> COMPLETED /\
     (forall other, other ∈ delete i (storedTasks w) -> ~ dependsOn taskId other) /\
     r.1 = DeleteTool.Attempted task
             (DeleteResult.mk true "Task deleted successfully") /\
     storedTasks r.2 = delete i (storedTasks w) /\ memoryDir r.2 = memoryDir w) /\
  (forall task result, r.1 = DeleteTool.Attempted task result ->
   DeleteResult.message result <> "Task not found" /\
   DeleteResult.message result <> "Cannot delete completed task").
Proof.
  intros r. subst r. unfold deleteTaskTool. rewrite getTaskById_eq.
  destruct (findIndex_cases taskId (storedTasks w))
    as [[-> _]|(i & task & -> & Hfirst)]; cbn [fmap option_fmap option_map snd].
  { cbn [fst snd]. rewrite ensureDataDir_stored, ensureDataDir_memoryDir.
    by split_and!. }
  rewrite (firstWithId_existing _ _ _ _ Hfirst).
  case_bool_decide as Hstatus; [by split_and!|].
  destruct (decide (filter (dependsOn taskId) (delete i (storedTasks w)) = []))
    as [Hnone|Hsome].
  - rewrite (deleteTask_removes _ _ _ _ Hfirst Hstatus Hnone). cbn [fst snd].
    rewrite storedTasks_writeTasks, memoryDir_writeTasks. split_and!.
    + done.
    + intros _. exists i, task. split_and!; try done.
      intros other Hin Hdep. eapply filter_nil_not_elem_of; [exact Hnone|exact Hdep|done].
    + intros ? ? [= <- <-]. by split.
  - rewrite (deleteTask_blocked _ _ _ _ Hfirst Hstatus Hsome). cbn [fst snd].
    split_and!; [done|done|].
    intros ? ? [= <- <-]. cbn [DeleteResult.message]. unfold referencedMessage.
    split; intros Heq; vm_compute in Heq; discriminate Heq.
Qed.

Lemma hasDuplicateName_spec (nameSet : gset string) (tasks : list TaskData.t) :
  hasDuplicateName nameSet tasks = true <->
  (exists n, n ∈ map TaskData.name tasks /\ n ∈ nameSet) \/
  ~ NoDup (map TaskData.name tasks).
Proof.
  revert nameSet. induction tasks as [|task tasks IH]; intros nameSet; simpl.
  - split; [done|]. intros [(n & Hn & _)|Hdup].
    + by apply elem_of_nil in Hn.
    + destruct Hdup. constructor.
  - case_bool_decide as Hin.
    + split; [|done]. intros _. left. exists (TaskData.name task).
      split; [left|done].
    + rewrite IH, NoDup_cons. split.
      * intros [(n & Hn & Hset)|Hdup].
        -- apply elem_of_union in Hset as [Hset|Hset].
           ++ apply elem_of_singleton in Hset as ->. right. tauto.
           ++ left. exists n. split; [by right|done].
        -- right. tauto.
      * intros [(n & Hn & Hset)|Hdup].
        -- apply elem_of_cons in Hn as [->|Hn]; [done|].
           left. exists n. split; [done|]. apply elem_of_union. by right.
        -- destruct (decide (TaskData.name task ∈ map TaskData.name tasks))
             as [Hname|Hname].
           ++ left. exists (TaskData.name task). split; [done|].
              apply elem_of_union. left. by apply elem_of_singleton.
           ++ right. tauto.
Qed.

Section SplitTasks.
Variable uuidv4 : nat -> string.
Variable Date_now : nat -> Z.
Variable toISOString : Z -> string.
Variable errorMessage : Exception -> string.

(** X22. [splitTasks] refuses a list in which two tasks bear the same name
    before it touches the store. With distinct names, in append, overwrite
    and clearAllTasks modes it succeeds, creates one task for each task
    given, and reports as all tasks the stored collection, which is the
    kept tasks (all stored tasks, the COMPLETED ones, none) followed by the
    created ones. In clearAllTasks mode a non-empty store is first archived:
    its COMPLETED tasks are written to the archive document named in the
    result. *)
Theorem splitTasks_creates_after_checking_names (updateMode : UpdateMode)
    (tasks : list TaskData.t) (globalAnalysisResult : option string) (w : World) :
  let r :=
    splitTasks uuidv4 Date_now toISOString errorMessage updateMode tasks
      globalAnalysisResult w in
  let kept :=
    match updateMode with
    | append => storedTasks w
    | overwrite => filter (fun task => status task = COMPLETED) (storedTasks w)
    | _ => []
    end in
  let archive := archiveName toISOString (Date_now (dateCalls w)) in
  let archiving := updateMode = clearAllTasksMode /\ storedTasks w <> [] in
  (~ NoDup (map TaskData.name tasks) -> r = (SplitTool.DuplicateNames, w)) /\
  (NoDup (map TaskData.name tasks) -> updateMode <> selective ->
   exists result,
     r.1 = SplitTool.Done result /\
     SplitResult.success result = true /\
     length (SplitResult.createdTasks result) = length tasks /\
     SplitResult.allTasks result = storedTasks r.2 /\
     storedTasks r.2 = kept ++ SplitResult.createdTasks result /\
     (archiving ->
      SplitResult.backupFilePath result = Some archive /\
      memoryDir r.2 =
        <[archive := filter (fun task => status task = COMPLETED) (storedTasks w)]>
          (memoryDir w)) /\
     (~ archiving ->
      SplitResult.backupFilePath result = None /\ memoryDir r.2 = memoryDir w)).
Proof.
  intros r kept archive archiving. split.
  - intros Hdup. subst r. unfold splitTasks.
    assert (hasDuplicateName ∅ tasks = true) as ->; [|done].
    apply hasDuplicateName_spec. by right.
  - intros Hdistinct Hmode. subst r. unfold splitTasks.
    assert (hasDuplicateName ∅ tasks = false) as ->.
    { destruct (hasDuplicateName ∅ tasks) eqn:E; [|done].
      apply hasDuplicateName_spec in E as [(n & _ & Hn)|Hdup]; [|done].
      by apply elem_of_empty in Hn. }
    unfold getAllTasks.
    destruct (decide (updateMode = clearAllTasksMode)) as [->|Hclear].
    + rewrite bool_decide_eq_true_2 by done.
      destruct (decide (storedTasks w = [])) as [Hempty|Hne].
      * rewrite (clearAllTasks_empty Date_now toISOString w Hempty).
        cbn [ClearResult.success ClearResult.message ClearResult.backupFile].
        destruct (creating_batch uuidv4 Date_now append [] globalAnalysisResult
                    tasks (ensureDataDir w))
          as (news & w' & ? & ? & -> & Hlen & Hmem & _); [done| |].
        { by rewrite ensureDataDir_stored. }
        rewrite readTasks_eq, storedTasks_writeTasks.
        eexists. split; [reflexivity|]. cbn [fst snd SplitResult.success
          SplitResult.createdTasks SplitResult.allTasks SplitResult.backupFilePath].
        rewrite ensureDataDir_stored, ensureDataDir_memoryDir,
          storedTasks_writeTasks, memoryDir_writeTasks, Hmem,
          ensureDataDir_memoryDir.
        split_and!; try done.
        intros [_ Hsome]. done.
      * destruct (clearAllTasks_nonempty Date_now toISOString w Hne)
          as (message & w1 & -> & Hfile & Hmem1 & _).
        cbn [ClearResult.success ClearResult.message ClearResult.backupFile].
        destruct (creating_batch uuidv4 Date_now append [] globalAnalysisResult
                    tasks w1)
          as (news & w' & ? & ? & -> & Hlen & Hmem & _); [done| |].
        { unfold storedTasks. by rewrite Hfile. }
        rewrite readTasks_eq, storedTasks_writeTasks.
        eexists. split; [reflexivity|]. cbn [fst snd SplitResult.success
          SplitResult.createdTasks SplitResult.allTasks SplitResult.backupFilePath].
        rewrite ensureDataDir_stored, ensureDataDir_memoryDir,
          storedTasks_writeTasks, memoryDir_writeTasks, Hmem, Hmem1.
        split_and!; try done.
        intros Hnot. destruct Hnot. by split.
    + rewrite bool_decide_eq_false_2 by done.
      destruct (creating_batch uuidv4 Date_now updateMode (storedTasks w)
                  globalAnalysisResult tasks w)
        as (news & w' & ? & ? & -> & Hlen & Hmem & _); [done|done|].
      rewrite readTasks_eq, storedTasks_writeTasks.
      eexists. split; [reflexivity|]. cbn [fst snd SplitResult.success
        SplitResult.createdTasks SplitResult.allTasks SplitResult.backupFilePath].
      rewrite ensureDataDir_stored, ensureDataDir_memoryDir,
        storedTasks_writeTasks, memoryDir_writeTasks, Hmem.
      split_and!; try done.
      intros [Habs _]. done.
Qed.

End SplitTasks.

(** ** Completing a task, and what it unblocks *)

Section Completion.
Variable Date_now : nat -> Z.

Lemma updateTaskStatus_open (taskId : string) (newStatus : TaskStatus) (w : World)
    (i : nat) (task : Task) :
  firstWithId taskId (storedTasks w) i task ->
  status task <> COMPLETED ->
  let updated :=
    {| id := id task; name := name task; description := description task;
       notes := notes task; status := newStatus;
       dependencies := dependencies task; createdAt := createdAt task;
       updatedAt :=
         Date_now (if decide (newStatus = COMPLETED) then S (dateCalls w)
                   else dateCalls w);
       completedAt :=
         if decide (newStatus = COMPLETED) then Some (Date_now (dateCalls w))
         else completedAt task;
       summary := summary task; relatedFiles := relatedFiles task;
       analysisResult := analysisResult task;
       implementationGuide := implementationGuide task;
       verificationCriteria := verificationCriteria task |} in
  let r := updateTaskStatus Date_now taskId newStatus w in
  r.1 = Some updated /\
  storedTasks r.2 = <[i := updated]> (storedTasks w) /\
  memoryDir r.2 = memoryDir w.
Proof.
  intros Hfirst Hopen updated r. subst r updated. unfold updateTaskStatus.
  destruct (decide (newStatus = COMPLETED)) as [->|Hother].
  - rewrite bool_decide_eq_true_2 by done. cbn [newDate].
    match goal with |- context [updateTask _ _ ?u ?w1] =>
      destruct (updateTask_accepted Date_now taskId u w1 i task Hfirst)
        as (-> & -> & ->); [done|]
    end.
    done.
  - rewrite bool_decide_eq_false_2 by done.
    match goal with |- context [updateTask _ _ ?u ?w1] =>
      destruct (updateTask_accepted Date_now taskId u w1 i task Hfirst)
        as (-> & -> & ->); [done|]
    end.
    done.
Qed.

(** X23. [updateTaskStatus] on a stored task that is not COMPLETED always
    succeeds and changes the status and [updatedAt] of that task only,
    except that the status COMPLETED also sets [completedAt]: to the clock
    reading taken before the one that becomes [updatedAt]. *)
Theorem updateTaskStatus_on_open_task (taskId : string) (newStatus : TaskStatus)
    (w : World) (i : nat) (task : Task) :
  firstWithId taskId (storedTasks w) i task ->
  status task <> COMPLETED ->
  let r := updateTaskStatus Date_now taskId newStatus w in
  exists updated,
    r.1 = Some updated /\
    storedTasks r.2 = <[i := updated]> (storedTasks w) /\
    memoryDir r.2 = memoryDir w /\
    status updated = newStatus /\
    (newStatus = COMPLETED ->
     completedAt updated = Some (Date_now (dateCalls w)) /\
     updatedAt updated = Date_now (S (dateCalls w))) /\
    (newStatus <> COMPLETED ->
     completedAt updated = completedAt task /\
     updatedAt updated = Date_now (dateCalls w)) /\
    id updated = id task /\ name updated = name task /\
    description updated = description task /\ notes updated = notes task /\
    dependencies updated = dependencies task /\
    createdAt updated = createdAt task /\ summary updated = summary task /\
    relatedFiles updated = relatedFiles task /\
    analysisResult updated = analysisResult task /\
    implementationGuide updated = implementationGuide task /\
    verificationCriteria updated = verificationCriteria task.
Proof.
  intros Hfirst Hopen r.
  destruct (updateTaskStatus_open taskId newStatus w i task Hfirst Hopen)
    as (Hr & Hstored & Hmem).
  eexists. split; [exact Hr|]. split; [exact Hstored|]. split; [exact Hmem|].
  cbn [status completedAt updatedAt id name description notes dependencies
       createdAt summary relatedFiles analysisResult implementationGuide
       verificationCriteria].
  split_and!; try done.
  - intros ->. by rewrite !decide_True.
  - intros Hother. by rewrite !decide_False.
Qed.

(** X24. Completing the last open dependency unblocks a task. If a stored
    task is not COMPLETED and every dependency of it other than [blocker]
    is already found as a COMPLETED task, then after
    [updateTaskStatus(blocker, COMPLETED)] on the open task [blocker],
    which is not the task itself, [canExecuteTask] answers yes for it. *)
Theorem completing_the_last_dependency_unblocks (taskId blocker : string)
    (w : World) (i j : nat) (task blocking : Task) :
  firstWithId taskId (storedTasks w) i task ->
  status task <> COMPLETED ->
  firstWithId blocker (storedTasks w) j blocking ->
  status blocking <> COMPLETED ->
  blocker <> taskId ->
  (forall dep, dep ∈ dependencies task -> TaskDependency.taskId dep <> blocker ->
               dependencyCompleted (storedTasks w) dep) ->
  let w' := (updateTaskStatus Date_now blocker COMPLETED w).2 in
  (canExecuteTask taskId w').1 = CanExecute.mk true None.
Proof.
  intros Hfirst Hopen Hblocking Hopen' Hne Hothers w'.
  destruct (updateTaskStatus_open blocker COMPLETED w j blocking Hblocking Hopen')
    as (_ & Hstored & _).
  fold w' in Hstored. rewrite decide_True in Hstored by done.
  set (completed := {| id := id blocking; status := COMPLETED |}) in Hstored.
  assert (i <> j) as Hij.
  { intros ->. destruct Hfirst as (Hi & Hid & _), Hblocking as (Hj & Hid' & _).
    congruence. }
  assert (id completed = blocker) as Hcompleted
    by (by destruct Hblocking as (_ & ? & _)).
  assert (firstWithId taskId (storedTasks w') i task) as Hfirst'.
  { rewrite Hstored. apply firstWithId_insert_other; [done|lia|].
    by rewrite Hcompleted. }
  assert (forall dep, dep ∈ dependencies task ->
                      dependencyCompleted (storedTasks w') dep) as Hall.
  { intros dep Hdep.
    destruct (decide (TaskDependency.taskId dep = blocker)) as [Hdepid|Hdepid].
    - exists j, completed. split; [|done]. rewrite Hstored, Hdepid.
      by apply (firstWithId_insert _ _ _ blocking).
    - destruct (Hothers dep Hdep Hdepid) as (k & found & Hfound & Hdone).
      exists k, found. split; [|done]. rewrite Hstored.
      apply firstWithId_insert_other; [done| |by rewrite Hcompleted].
      intros ->. destruct Hfound as (Hk & Hid & _), Hblocking as (Hj & Hid' & _).
      congruence. }
  unfold canExecuteTask. rewrite (getTaskById_first _ _ _ _ Hfirst').
  rewrite bool_decide_eq_false_2 by done.
  case_bool_decide; [done|].
  rewrite readTasks_eq, (firstWithId_existing _ _ _ _ Hfirst').
  destruct (blocked_dependencies (storedTasks w') (dependencies task))
    as [Hsub Hblocked].
  cbn zeta in Hsub, Hblocked.
  match goal with |- context [length ?l = 0] => set (blocked := l) in * end.
  assert (blocked = []) as ->; [|done].
  destruct blocked as [|d rest] eqn:E; [done|].
  assert (d ∈ map TaskDependency.taskId (dependencies task)) as Hd.
  { eapply elem_of_sublist; [left|exact Hsub]. }
  change (map ?f ?l) with (f <$> l) in Hd.
  apply list_elem_of_fmap in Hd as (dep & -> & Hdep).
  destruct (proj1 (Hblocked dep Hdep)); [left|by apply Hall].
Qed.

End Completion.

(** ** The identifiers of the store stay distinct *)

Section Identifiers.
Variable uuidv4 : nat -> string.
Variable Date_now : nat -> Z.

Lemma updateTask_uuidCalls taskId updates w :
  uuidCalls (updateTask Date_now taskId updates w).2 = uuidCalls w.
Proof.
  unfold updateTask. rewrite readTasks_eq.
  destruct (findIndex _ (storedTasks w)) as [[i task]|]; [|apply ensureDataDir_uuidCalls].
  destruct (_ && _); cbn [snd newDate]; [apply ensureDataDir_uuidCalls|].
  rewrite uuidCalls_writeTasks. apply ensureDataDir_uuidCalls.
Qed.

Lemma updateTask_ids taskId updates w :
  TaskUpdates.id updates = None ->
  map id (storedTasks (updateTask Date_now taskId updates w).2) =
  map id (storedTasks w).
Proof.
  intros Hid.
  destruct (updateTask_cases Date_now taskId updates w)
    as [[_ ->]|[(i & task & field & _ & _ & _ & _ & ->)|
                (i & task & Hfirst & _ & _ & -> & _)]].
  - cbn [snd]. by rewrite ensureDataDir_stored.
  - done.
  - destruct Hfirst as (Hi & _). apply (map_id_insert _ _ task); [done|].
    simpl. by rewrite Hid.
Qed.

(** What a call other than [createTask] does to the identifiers. *)
Lemma mutate_ids (w : World) (m : Mutation) :
  (forall n d nt deps files, m <> CreateTask n d nt deps files) ->
  map id (storedTasks (mutate uuidv4 Date_now w m)) `sublist_of` map id (storedTasks w) /\
  uuidCalls (mutate uuidv4 Date_now w m) = uuidCalls w.
Proof.
  intros Hkind.
  destruct m as [n d nt deps files|target s|target text|target content|target files
                 |target]; cbn [mutate].
  - by destruct (Hkind n d nt deps files).
  - unfold updateTaskStatus. case_bool_decide; cbn [newDate].
    + rewrite updateTask_ids, updateTask_uuidCalls by done. done.
    + rewrite updateTask_ids, updateTask_uuidCalls by done. done.
  - unfold updateTaskSummary.
    rewrite updateTask_ids, updateTask_uuidCalls by done. done.
  - unfold updateTaskContent. rewrite getTaskById_eq.
    destruct (findIndex _ (storedTasks w)) as [[i task]|]; cbn [fmap option_fmap option_map snd].
    2:{ cbn [snd]. by rewrite ensureDataDir_stored, ensureDataDir_uuidCalls. }
    case_bool_decide.
    { cbn [snd]. by rewrite ensureDataDir_stored, ensureDataDir_uuidCalls. }
    case_bool_decide.
    { cbn [snd]. by rewrite ensureDataDir_stored, ensureDataDir_uuidCalls. }
    match goal with |- context [updateTask _ _ ?u ?w0] =>
      pose proof (updateTask_ids target u w0 eq_refl) as Hids;
      pose proof (updateTask_uuidCalls target u w0) as Huuid;
      destruct (updateTask Date_now target u w0) as [[updated|] w']
    end; cbn [snd] in *;
      by rewrite Hids, Huuid, ensureDataDir_stored, ensureDataDir_uuidCalls.
  - unfold updateTaskRelatedFiles. rewrite getTaskById_eq.
    destruct (findIndex _ (storedTasks w)) as [[i task]|]; cbn [fmap option_fmap option_map snd].
    2:{ cbn [snd]. by rewrite ensureDataDir_stored, ensureDataDir_uuidCalls. }
    case_bool_decide.
    { cbn [snd]. by rewrite ensureDataDir_stored, ensureDataDir_uuidCalls. }
    match goal with |- context [updateTask _ _ ?u ?w0] =>
      pose proof (updateTask_ids target u w0 eq_refl) as Hids;
      pose proof (updateTask_uuidCalls target u w0) as Huuid;
      destruct (updateTask Date_now target u w0) as [[updated|] w']
    end; cbn [snd] in *;
      by rewrite Hids, Huuid, ensureDataDir_stored, ensureDataDir_uuidCalls.
  - unfold deleteTask. rewrite readTasks_eq.
    destruct (findIndex _ (storedTasks w)) as [[i task]|].
    2:{ cbn [snd]. by rewrite ensureDataDir_stored, ensureDataDir_uuidCalls. }
    case_bool_decide.
    { cbn [snd]. by rewrite ensureDataDir_stored, ensureDataDir_uuidCalls. }
    case_bool_decide.
    { cbn [snd]. by rewrite ensureDataDir_stored, ensureDataDir_uuidCalls. }
    cbn [snd]. rewrite storedTasks_writeTasks, uuidCalls_writeTasks.
    rewrite ensureDataDir_uuidCalls. split; [|done].
    change (map id ?l) with (id <$> l). rewrite list_fmap_delete.
    apply sublist_delete.
Qed.

Lemma createTask_uuidCalls n d nt deps files w :
  uuidCalls (createTask uuidv4 Date_now n d nt deps files w).2 = S (uuidCalls w).
Proof.
  unfold createTask. rewrite readTasks_eq. cbn [newUuid newDate snd].
  rewrite uuidCalls_writeTasks. simpl. by rewrite ensureDataDir_uuidCalls.
Qed.

(** X25. The identifiers of the store stay distinct under the functions of
    the model that change one task. If [uuidv4()] never returns the same
    value twice nor the identifier of a task that is already stored, then
    after any sequence of calls of [createTask], [updateTaskStatus],
    [updateTaskSummary], [updateTaskContent], [updateTaskRelatedFiles] and
    [deleteTask] on a store with distinct identifiers, the identifiers of
    the stored tasks are still distinct. *)
Theorem identifiers_stay_distinct (w : World) (calls : list Mutation) :
  (forall m n, uuidv4 m = uuidv4 n -> m = n) ->
  (forall n task, uuidCalls w <= n -> task ∈ storedTasks w -> id task <> uuidv4 n) ->
  NoDup (map id (storedTasks w)) ->
  NoDup (map id (storedTasks (foldl (mutate uuidv4 Date_now) w calls))).
Proof.
  intros Hinjective. revert w.
  induction calls as [|m calls IH]; intros w Hfresh Hdistinct; [done|].
  simpl. apply IH.
  - intros n task Hn Hin.
    destruct m as [nm d nt deps files|target s|target text|target content|target files
                   |target].
    1:{ cbn [mutate] in Hn, Hin. rewrite createTask_uuidCalls in Hn.
        destruct (createTask_appends uuidv4 Date_now nm d nt deps files w)
          as (Hstored & _ & Hid & _).
        rewrite Hstored in Hin. apply elem_of_app in Hin as [Hin|Hin].
        - apply Hfresh; [lia|done].
        - apply list_elem_of_singleton in Hin as ->. rewrite Hid.
          intros Heq. apply Hinjective in Heq. lia. }
    all: match type of Hin with _ ∈ storedTasks (mutate _ _ _ ?call) =>
           destruct (mutate_ids w call) as [Hsub Huuid]; [done|]
         end;
      rewrite Huuid in Hn;
      assert (id task ∈ map id (storedTasks w)) as Hold
        by (eapply elem_of_sublist; [|exact Hsub];
            change (map ?f ?l) with (f <$> l); by apply list_elem_of_fmap_2);
      change (map ?f ?l) with (f <$> l) in Hold;
      apply list_elem_of_fmap in Hold as (old & -> & Hold);
      by apply Hfresh.
  - destruct m as [nm d nt deps files|target s|target text|target content|target files
                   |target].
    1:{ cbn [mutate].
        destruct (createTask_appends uuidv4 Date_now nm d nt deps files w)
          as (Hstored & _ & Hid & _).
        rewrite Hstored, map_app. cbn [map]. rewrite Hid.
        apply NoDup_app. split_and!; [done| |apply NoDup_singleton].
        intros x Hx Hnew. apply list_elem_of_singleton in Hnew as ->.
        change (map ?f ?l) with (f <$> l) in Hx.
        apply list_elem_of_fmap in Hx as (old & Heq & Hold).
        by apply (Hfresh (uuidCalls w) old). }
    all: match goal with |- NoDup (map id (storedTasks (mutate _ _ _ ?call))) =>
           destruct (mutate_ids w call) as [Hsub _]; [done|]
         end;
      by eapply sublist_NoDup.
Qed.

End Identifiers.
(** * Worked examples of the further properties *)

Lemma findIndex_firstWithId (taskId : string) (tasks : list Task) (i : nat)
    (task : Task) :
  findIndex (fun t => id t = taskId) tasks = Some (i, task) ->
  firstWithId taskId tasks i task.
Proof.
  intros Hfind. destruct (findIndex_cases taskId tasks)
    as [[Hnone _]|(i' & task' & Hsome & Hfirst)]; congruence.
Qed.

Lemma dependenciesWithin_Forall (tasks : list Task) :
  Forall (fun task =>
            Forall (fun dep =>
                      Exists (fun target => id target = TaskDependency.taskId dep) tasks)
              (dependencies task)) tasks ->
  forall task, task ∈ tasks -> dependenciesWithin tasks task.
Proof.
  intros Hall task Hin dep Hdep. rewrite Forall_forall in Hall.
  specialize (Hall task Hin). rewrite Forall_forall in Hall.
  apply Exists_exists. by apply Hall.
Qed.

Ltac by_evaluation := apply (bool_decide_unpack _); by vm_compute.

(** X1 at a store of one task. *)
Lemma createTask_then_getTaskById_witness :
  let r :=
    createTask sampleUuid sampleClock "new task" "to be done" None [idY] None
      (sampleWorld [openY]) in
  storedTasks r.2 = [openY; r.1] /\
  (getTaskById (id r.1) r.2).1 = Some r.1 /\
  (getTaskById idY r.2).1 = Some openY.
Proof.
  intros r.
  destruct (createTask_then_getTaskById sampleUuid sampleClock "new task"
              "to be done" None [idY] None (sampleWorld [openY]))
    as (Hstored & _ & _ & _ & Hget & Hothers).
  - apply Forall_forall. by_evaluation.
  - split_and!; [exact Hstored|exact Hget|].
    fold r in Hothers. rewrite Hothers; [reflexivity|]. by vm_compute.
Defined.

(** X2 at a store of one task. *)
Lemma createTask_then_deleteTask_witness :
  let created :=
    createTask sampleUuid sampleClock "new task" "to be done" None [idY] None
      (sampleWorld [openY]) in
  storedTasks (deleteTask (id created.1) created.2).2 = [openY].
Proof.
  intros created.
  destruct (createTask_then_deleteTask sampleUuid sampleClock "new task"
              "to be done" None [idY] None (sampleWorld [openY]))
    as (_ & Hstored & _).
  - apply Forall_forall. by_evaluation.
  - apply Forall_forall. by_evaluation.
  - exact Hstored.
Defined.


(** X4: renaming the pending task of a store of two. *)
Lemma updateTaskContent_on_open_task_witness :
  exists updated,
    (updateTaskContent sampleClock idY
       (ContentUpdates.mk (Some "Y renamed") None None None None None None)
       (sampleWorld [doneX; openY])).1 =
      ContentResult.mk true "Task content updated successfully" (Some updated) /\
    name updated = "Y renamed" /\ description updated = "pending work" /\
    id updated = idY.
Proof.
  destruct (updateTaskContent_on_open_task sampleClock idY
              (ContentUpdates.mk (Some "Y renamed") None None None None None None)
              (sampleWorld [doneX; openY]) 1 openY) as (_ & Hsome).
  - apply findIndex_firstWithId. by vm_compute.
  - discriminate.
  - destruct Hsome as (updated & Hr & _ & _ & Hname & Hdescription & _ & _ & _ &
                       _ & _ & _ & Hid & _); [discriminate|].
    exists updated. split_and!; [exact Hr|exact Hname|exact Hdescription|exact Hid].
Defined.

(** X5 on a completed task. *)
Lemma updateTaskRelatedFiles_outcomes_witness :
  updateTaskRelatedFiles sampleClock idX [] (sampleWorld [doneX; openY]) =
    (ContentResult.mk false "Cannot update completed task" None,
     sampleWorld [doneX; openY]).
Proof.
  destruct (updateTaskRelatedFiles_outcomes sampleClock idX []
              (sampleWorld [doneX; openY])) as (_ & Hfound & _).
  destruct (Hfound 0 doneX (first_at_head doneX [openY])) as [Hdone _].
  apply Hdone. reflexivity.
Defined.

(** X6: four calls against a store whose first task is completed. *)
Lemma completed_task_is_frozen_witness :
  exists i task,
    firstWithId idX
      (storedTasks
         (foldl (mutate sampleUuid sampleClock) (sampleWorld [doneX; openY])
            [UpdateTaskStatus idX PENDING; DeleteTask idX;
             UpdateTaskSummary idX "all done"; DeleteTask idY])) i task /\
    i <= 0 /\ sameButSummary doneX task /\ status task = COMPLETED.
Proof.
  apply (completed_task_is_frozen sampleUuid sampleClock idX
           (sampleWorld [doneX; openY]) 0 doneX).
  - apply (first_at_head doneX [openY]).
  - reflexivity.
Defined.

(** X7: deleting the last task of a store whose references are resolved. *)
Lemma deleteTask_keeps_dependencies_within_witness :
  dependenciesWithin
    (storedTasks (deleteTask idZ (sampleWorld [needsY; openY; openZ])).2) needsY.
Proof.
  apply (deleteTask_keeps_dependencies_within idZ (sampleWorld [needsY; openY; openZ])).
  - apply dependenciesWithin_Forall. by_evaluation.
  - by_evaluation.
Defined.

(** X8: the deleted identifier is unknown afterwards. *)
Lemma deleteTask_then_getTaskById_witness :
  (getTaskById idZ (deleteTask idZ (sampleWorld [needsY; openY; openZ])).2).1 = None.
Proof.
  destruct (deleteTask_then_getTaskById idZ (sampleWorld [needsY; openY; openZ]))
    as (Hgone & _).
  - by_evaluation.
  - by vm_compute.
  - exact Hgone.
Defined.

(** X9: a task that waits for itself. *)
Lemma canExecuteTask_characterised_witness :
  CanExecute.canExecute (canExecuteTask idX (sampleWorld [selfX; openY])).1 = false.
Proof.
  destruct (canExecuteTask_characterised idX (sampleWorld [selfX; openY]))
    as (_ & _ & _ & _ & Hself).
  apply (Hself 0 selfX).
  - apply (first_at_head selfX [openY]).
  - by_evaluation.
Defined.

(** X10: a short task without notes or dependencies. *)
Lemma assessTaskComplexity_level_is_highest_witness :
  exists assessment,
    (assessTaskComplexity idY (sampleWorld [doneX; openY])).1 = Some assessment /\
    ComplexityAssessment.level assessment = LOW.
Proof.
  destruct (assessTaskComplexity_level_is_highest idY (sampleWorld [doneX; openY]))
    as (_ & _ & Hfound).
  destruct (Hfound 1 openY) as (assessment & Hr & Hd & Hn & Hm & _ & Hlow & _).
  - apply findIndex_firstWithId. by vm_compute.
  - exists assessment. split; [exact Hr|]. apply Hlow.
    rewrite Hd, Hn, Hm. vm_compute. lia.
Defined.

(** X11: a query without special characters. *)
Lemma escapeShellArg_keeps_the_safe_characters_witness :
  escapeShellArg "login bug" = "login bug".
Proof.
  destruct (escapeShellArg_keeps_the_safe_characters "login bug")
    as (_ & _ & Hsafe & _).
  apply Hsafe. by_evaluation.
Defined.


(** X13 at a version-4 identifier. *)
Lemma UUID_V4_REGEX_looksLikeUUID_witness :
  JS.looksLikeUUID idX = true /\ String.length idX = 36.
Proof.
  destruct UUID_V4_REGEX_looksLikeUUID as [Haccepted _].
  apply Haccepted. by vm_compute.
Defined.

(** X14: one archive document with a match and a non-match. *)
Lemma archive_filter_is_live_filter_witness :
  loginBug ∈ collectMemoryTasks [[loginOnly; loginBug]] "login bug" false.
Proof.
  destruct (archive_filter_is_live_filter [[loginOnly; loginBug]] "login bug" false)
    as (_ & _ & Hin).
  apply Hin. split.
  - exists [loginOnly; loginBug]. split; [left|right; left].
  - apply keywords_match_spec. by vm_compute.
Defined.

(** X15: the live task hides its archived copy. *)
Lemma mergeResults_prefers_live_witness :
  exists rest,
    mergeResults [openX] [doneX; openY] = [openX] ++ rest /\
    rest `sublist_of` [doneX; openY].
Proof.
  destruct (mergeResults_prefers_live [openX] [doneX; openY]) as (_ & _ & _ & Hlive).
  apply Hlive. by_evaluation.
Defined.

(** X16: a completed task is sorted before a pending one. *)
Lemma sortTasks_sorts_witness : notAfter doneX openY.
Proof.
  destruct (sortTasks_sorts [openY; doneX]) as (_ & Hsorted).
  destruct (Hsorted 0 1 doneX openY) as (Horder & _).
  - by vm_compute.
  - by vm_compute.
  - lia.
  - exact Horder.
Defined.

(** X17: a search by identifier over the store and one archive document. *)
Lemma search_results_answer_the_query_witness :
  Forall (fun task => id task = idX)
    (SearchResult.tasks
       (searchTasks [[doneX]] idX true 1 10 (sampleWorld [openX; openY])).1).
Proof.
  apply Forall_forall. intros task Hin.
  destruct (search_results_answer_the_query [[doneX]] idX true 1 10
              (sampleWorld [openX; openY])) as (_ & _ & Hall).
  exact (proj1 (Hall task Hin)).
Defined.

(** X18: the live task is shown, not its archived copy. *)
Lemma getTaskDetail_finds_live_then_archived_witness :
  (getTaskDetail [[doneX]] idX (sampleWorld [openX; openY])).1 =
    DetailTool.Found openX.
Proof.
  destruct (getTaskDetail_finds_live_then_archived [[doneX]] idX
              (sampleWorld [openX; openY])) as (_ & _ & _ & Hlive).
  apply Hlive; [by_evaluation|by vm_compute].
Defined.


(** X20: a confirmed call on a store of two tasks. *)
Lemma clearAllTasksTool_writes_only_when_confirmed_witness :
  exists result,
    (clearAllTasksTool sampleClock sampleISO true (sampleWorld [doneX; openY])).1 =
      ClearTool.Cleared result /\
    storedTasks
      (clearAllTasksTool sampleClock sampleISO true (sampleWorld [doneX; openY])).2 = [].
Proof.
  destruct (clearAllTasksTool_writes_only_when_confirmed sampleClock sampleISO true
              (sampleWorld [doneX; openY])) as (_ & _ & Hcleared & _).
  destruct Hcleared as (result & Hr & _ & _ & Hstored & _); [reflexivity|discriminate|].
  exists result. split; [exact Hr|exact Hstored].
Defined.

(** X21: the tool refuses a completed task. *)
Lemma deleteTaskTool_reports_what_happened_witness :
  storedTasks (deleteTaskTool idX (sampleWorld [doneX; openY])).2 = [doneX; openY].
Proof.
  destruct (deleteTaskTool_reports_what_happened idX (sampleWorld [doneX; openY]))
    as (Herror & _).
  destruct Herror as [Hstored _]; [by vm_compute|exact Hstored].
Defined.

(** X22: two tasks of the same name, and a list of distinct names in
    clearAllTasks mode. *)
Lemma splitTasks_creates_after_checking_names_witness :
  splitTasks sampleUuid sampleClock sampleISO sampleErrorMessage append
    [sampleSpec "A" None; sampleSpec "A" None] None (sampleWorld [doneX; openY]) =
    (SplitTool.DuplicateNames, sampleWorld [doneX; openY]) /\
  exists result,
    (splitTasks sampleUuid sampleClock sampleISO sampleErrorMessage clearAllTasksMode
       [sampleSpec "A" None; sampleSpec "B" None] None
       (sampleWorld [doneX; openY])).1 = SplitTool.Done result /\
    length (SplitResult.allTasks result) = 2.
Proof.
  split.
  - destruct (splitTasks_creates_after_checking_names sampleUuid sampleClock
                sampleISO sampleErrorMessage append
                [sampleSpec "A" None; sampleSpec "A" None] None
                (sampleWorld [doneX; openY])) as [Hdup _].
    apply Hdup. by_evaluation.
  - destruct (splitTasks_creates_after_checking_names sampleUuid sampleClock
                sampleISO sampleErrorMessage clearAllTasksMode
                [sampleSpec "A" None; sampleSpec "B" None] None
                (sampleWorld [doneX; openY])) as [_ Hdistinct].
    destruct Hdistinct as (result & Hr & _ & Hlen & Hall & Hstored & _);
      [by_evaluation|discriminate|].
    exists result. split; [exact Hr|]. rewrite Hall, Hstored. simpl. exact Hlen.
Defined.

(** X23: completing the pending task of a store of two. *)
Lemma updateTaskStatus_on_open_task_witness :
  exists updated,
    (updateTaskStatus sampleClock idY COMPLETED (sampleWorld [doneX; openY])).1 =
      Some updated /\
    status updated = COMPLETED /\ completedAt updated = Some (sampleClock 0) /\
    updatedAt updated = sampleClock 1.
Proof.
  destruct (updateTaskStatus_on_open_task sampleClock idY COMPLETED
              (sampleWorld [doneX; openY]) 1 openY)
    as (updated & Hr & _ & _ & Hstatus & Hdone & _).
  - apply findIndex_firstWithId. by vm_compute.
  - discriminate.
  - destruct (Hdone eq_refl) as [Hcompleted Hupdated].
    exists updated. split_and!; [exact Hr|exact Hstatus|exact Hcompleted|exact Hupdated].
Defined.

(** X24: task X waits for task Y only. *)
Lemma completing_the_last_dependency_unblocks_witness :
  (canExecuteTask idX
     (updateTaskStatus sampleClock idY COMPLETED (sampleWorld [needsY; openY])).2).1 =
    CanExecute.mk true None.
Proof.
  apply (completing_the_last_dependency_unblocks sampleClock idX idY
           (sampleWorld [needsY; openY]) 0 1 needsY openY).
  - apply (first_at_head needsY [openY]).
  - discriminate.
  - apply findIndex_firstWithId. by vm_compute.
  - discriminate.
  - discriminate.
  - intros dep Hdep Hother. apply list_elem_of_singleton in Hdep as ->.
    by destruct Hother.
Defined.

Lemma countingUuid_inj (m n : nat) : countingUuid m = countingUuid n -> m = n.
Proof.
  unfold countingUuid. intros [= Heq]. revert n Heq.
  induction m as [|m IH]; intros [|n] Heq; simpl in Heq; try done.
  injection Heq as Heq. f_equal. by apply IH.
Qed.

(** X25: two tasks are created, one is renamed and one deleted. *)
Lemma identifiers_stay_distinct_witness :
  NoDup
    (map id
       (storedTasks
          (foldl (mutate countingUuid sampleClock) (sampleWorld [doneX; openY])
             [CreateTask "first" "to be done" None [] None;
              CreateTask "second" "to be done" None [idY] None;
              UpdateTaskContent idY
                (ContentUpdates.mk (Some "Y renamed") None None None None None None);
              DeleteTask (countingUuid 0)]))).
Proof.
  apply (identifiers_stay_distinct countingUuid sampleClock).
  - apply countingUuid_inj.
  - intros n task _ Hin Heq. unfold countingUuid in Heq.
    apply elem_of_cons in Hin as [->|Hin]; [discriminate Heq|].
    apply list_elem_of_singleton in Hin as ->. discriminate Heq.
  - by_evaluation.
Defined.
